(** * DDPG agent (Scripts/DDPGNetwork.py, Scripts/DDPG_run.py): a shallow embedding

    The Python program is embedded as follows.

    - Tensor and array elements are idealised as real numbers ([R]); the
      rounding of 32-bit floating point is outside the model.
    - Python exceptions are the [Raise] branch of [result]; a method that
      can raise returns a [result].
    - numpy arrays owned by the replay buffer are lists, updated by index.
    - torch [Parameter] objects live in a store ([heap]) and a network is
      the table of its parameter names and their locations, so that what
      is copied and what is shared is visible in the model.
    - Randomness (numpy's generator, torch's initialisers) is an explicit
      argument: the raw draws of the generator. *)

From Stdlib Require Import Reals Lra Lia ZArith.
From stdpp Require Import base list gmap strings.

#[local] Set Warnings "-clear-no-such-hyp".

(** ** Python exceptions *)

Inductive exn : Set :=
  | ZeroDivisionError
  | ValueError
  | IndexError
  | KeyError
  | RuntimeError.

Inductive result (A : Type) : Type :=
  | Ok (a : A)
  | Raise (e : exn).
Arguments Ok {A} a.
Arguments Raise {A} e.

#[global] Instance result_ret : MRet result := fun A a => Ok a.
#[global] Instance result_bind : MBind result := fun A B f m =>
  match m with
  | Ok a => f a
  | Raise e => Raise e
  end.

#[global] Instance exn_eq_dec : EqDecision exn.
Proof. solve_decision. Defined.
#[global] Instance result_eq_dec {A} `{EqDecision A} : EqDecision (result A).
Proof. solve_decision. Defined.

Definition succeeds {A} (m : result A) : Prop := ∃ a, m = Ok a.

Definition is_Ok {A} (m : result A) : bool :=
  match m with
  | Ok _ => true
  | Raise _ => false
  end.

(** [mapM] of stdpp at [result], written out so that it computes by [simpl]. *)
Fixpoint traverse {A B} (f : A → result B) (l : list A) : result (list B) :=
  match l with
  | [] => Ok []
  | x :: l' => y ← f x; ys ← traverse f l'; Ok (y :: ys)
  end.

(** Python's [a % b] on non-negative integers. *)
Definition py_mod (a b : nat) : result nat :=
  if decide (b = 0) then Raise ZeroDivisionError else Ok (a mod b).

(** numpy: [arr[index] = v] for an integer [index]. *)
Definition np_setitem {A} (arr : list A) (index : nat) (v : A) : result (list A) :=
  if decide (index < length arr) then Ok (<[index := v]> arr) else Raise IndexError.

(** numpy: [arr[batch]] for an integer array [batch]: a fresh array of the
    selected rows. *)
Definition np_take {A} (arr : list A) (batch : list nat) : result (list A) :=
  traverse (fun i => match arr !! i with
                     | Some x => Ok x
                     | None => Raise IndexError
                     end) batch.

(** The index of [0, a) that a raw output [r] of the generator stands for. *)
Definition index_of_raw (a r : nat) : nat := r mod a.

(** numpy: [np.random.choice(a, size)] for an integer [a], with the
    default [replace=True] and no weights.  [rand j] is the raw output of
    the generator for the [j]-th element; the element is that output
    brought into [0, a).  The call raises when [a] is not positive,
    unless no sample is asked for. *)
Definition np_random_choice (rand : nat → nat) (a size : nat) : result (list nat) :=
  if decide (a = 0 ∧ size ≠ 0) then Raise ValueError
  else Ok (map (fun j => index_of_raw a (rand j)) (seq 0 size)).

(** The generator whose raw outputs are those of [rs], in turn. *)
Definition generator (rs : list nat) : nat → nat := fun j => nth j rs 0.

(** Every sequence of [n] raw outputs below [m]: what a generator with
    [m] equally likely raw outputs can produce in [n] steps, each
    sequence as likely as any other. *)
Fixpoint raw_outputs (m n : nat) : list (list nat) :=
  match n with
  | 0 => [[]]
  | S n' => r ← seq 0 m; cons r <$> raw_outputs m n'
  end.

(** ** ReplayBuffer *)

Abbreviation vec := (list R).

Record ReplayBuffer : Type := {
  mem_size : nat;
  mem_cntr : nat;
  state_memory : list vec;
  new_state_memory : list vec;
  action_memory : list vec;
  reward_memory : list R;
  terminal_memory : list bool
}.

Definition np_zeros (n : nat) : vec := replicate n 0%R.

(** [ReplayBuffer.__init__]; [input_shape] is the one-element list
    [[input_dim]], as the first layer of the networks requires of it. *)
Definition ReplayBuffer_init (max_size input_dim n_actions : nat) : ReplayBuffer :=
  {| mem_size := max_size;
     mem_cntr := 0;
     state_memory := replicate max_size (np_zeros input_dim);
     new_state_memory := replicate max_size (np_zeros input_dim);
     action_memory := replicate max_size (np_zeros n_actions);
     reward_memory := replicate max_size 0%R;
     terminal_memory := replicate max_size false |}.

(** [1 - done] stored into an array of [dtype=bool]. *)
Definition one_minus (done : bool) : bool := negb done.

(** numpy: [arr[index] = row] for a two-dimensional [arr] and a
    one-dimensional [row].  The row has to broadcast to the shape of
    [arr[index]]: a row of the length of the slot is stored, a row of one
    element fills the slot with that element, and any other row raises. *)
Definition np_setitem_row (arr : list vec) (index : nat) (row : vec) : result (list vec) :=
  match arr !! index with
  | None => Raise IndexError
  | Some old =>
      if decide (length row = length old) then Ok (<[index := row]> arr)
      else match row with
           | [x] => Ok (<[index := replicate (length old) x]> arr)
           | _ => Raise ValueError
           end
  end.

(** [store_transition]; [state], [state_] and [action] are
    one-dimensional arrays, [reward] and [done] scalars. *)
Definition store_transition (self : ReplayBuffer)
    (state action : vec) (reward : R) (state_ : vec) (done : bool)
  : result ReplayBuffer :=
  index ← py_mod (mem_cntr self) (mem_size self);
  sm ← np_setitem_row (state_memory self) index state;
  nsm ← np_setitem_row (new_state_memory self) index state_;
  am ← np_setitem_row (action_memory self) index action;
  rm ← np_setitem (reward_memory self) index reward;
  tm ← np_setitem (terminal_memory self) index (one_minus done);
  Ok {| mem_size := mem_size self;
        mem_cntr := mem_cntr self + 1;
        state_memory := sm;
        new_state_memory := nsm;
        action_memory := am;
        reward_memory := rm;
        terminal_memory := tm |}.

Record Batch : Type := {
  b_states : list vec;
  b_actions : list vec;
  b_rewards : list R;
  b_states_ : list vec;
  b_terminal : list bool
}.

(** [sample_buffer] in state-passing form: the second component is the
    buffer after the call. *)
Definition sample_buffer (rand : nat → nat) (self : ReplayBuffer) (batch_size : nat)
  : result (Batch * ReplayBuffer) :=
  let max_mem := min (mem_cntr self) (mem_size self) in
  batch ← np_random_choice rand max_mem batch_size;
  states ← np_take (state_memory self) batch;
  actions ← np_take (action_memory self) batch;
  rewards ← np_take (reward_memory self) batch;
  states_ ← np_take (new_state_memory self) batch;
  terminal ← np_take (terminal_memory self) batch;
  Ok ({| b_states := states; b_actions := actions; b_rewards := rewards;
         b_states_ := states_; b_terminal := terminal |}, self).

(** A transition as the training loop hands it to [remember]. *)
Record Transition : Type := {
  t_state : vec;
  t_action : vec;
  t_reward : R;
  t_state_ : vec;
  t_done : bool
}.

(** A transition of the dimensions of a buffer for states of dimension
    [D] and actions of dimension [A]. *)
Definition transition_fits (D A : nat) (t : Transition) : Prop :=
  length (t_state t) = D ∧ length (t_action t) = A ∧ length (t_state_ t) = D.

Definition store (self : ReplayBuffer) (t : Transition) : result ReplayBuffer :=
  store_transition self (t_state t) (t_action t) (t_reward t) (t_state_ t) (t_done t).

(** Successive calls of [store_transition], oldest first. *)
Fixpoint store_all (self : ReplayBuffer) (ts : list Transition) : result ReplayBuffer :=
  match ts with
  | [] => Ok self
  | t :: ts' => self' ← store self t; store_all self' ts'
  end.

(** What slot [i] of the five arrays holds. *)
Definition slot (self : ReplayBuffer) (i : nat) : option (vec * vec * R * vec * bool) :=
  s ← state_memory self !! i;
  a ← action_memory self !! i;
  r ← reward_memory self !! i;
  s' ← new_state_memory self !! i;
  c ← terminal_memory self !! i;
  Some (s, a, r, s', c).

(** The five values [store_transition] writes for a transition. *)
Definition stored (t : Transition) : vec * vec * R * vec * bool :=
  (t_state t, t_action t, t_reward t, t_state_ t, one_minus (t_done t)).

Definition empty_slot (input_dim n_actions : nat) : vec * vec * R * vec * bool :=
  (np_zeros input_dim, np_zeros n_actions, 0%R, np_zeros input_dim, false).

(** The arrays have the length the constructor gave them. *)
Definition buffer_wf (self : ReplayBuffer) : Prop :=
  length (state_memory self) = mem_size self ∧
  length (new_state_memory self) = mem_size self ∧
  length (action_memory self) = mem_size self ∧
  length (reward_memory self) = mem_size self ∧
  length (terminal_memory self) = mem_size self.

(** A buffer of positive capacity for states of dimension [D] and
    actions of dimension [A]. *)
Definition buffer_rows (self : ReplayBuffer) (D A : nat) : Prop :=
  0 < mem_size self ∧ buffer_wf self ∧
  Forall (fun s => length s = D) (state_memory self) ∧
  Forall (fun s => length s = D) (new_state_memory self) ∧
  Forall (fun a => length a = A) (action_memory self).

(** ** Tensors and the parameter store *)

(** A torch tensor: its shape and its elements in row-major order. *)
Record tensor : Type := { shape : list nat; data : list R }.

Definition numel (s : list nat) : nat := foldr Nat.mul 1 s.

Definition tensor_wf (t : tensor) : Prop := length (data t) = numel (shape t).

(** [c * t] for a Python number [c]. *)
Definition tensor_scale (c : R) (t : tensor) : tensor :=
  {| shape := shape t; data := map (Rmult c) (data t) |}.

(** [a + b] on tensors of one shape.  Between different shapes torch
    broadcasts or raises; parameters of a network and of its target have
    the same shape, so only the error is kept. *)
Definition tensor_add (a b : tensor) : result tensor :=
  if decide (shape a = shape b)
  then Ok {| shape := shape a; data := zip_with Rplus (data a) (data b) |}
  else Raise RuntimeError.

(** [Parameter] objects are identified by their location in the store. *)
Definition loc := nat.
Abbreviation heap := (list tensor).

Definition alloc_all (h : heap) (ps : list (string * tensor)) : list (string * loc) * heap :=
  (zip (ps.*1) (seq (length h) (length ps)), h ++ ps.*2).

Fixpoint assoc {A} (name : string) (l : list (string * A)) : option A :=
  match l with
  | [] => None
  | (k, v) :: l' => if decide (k = name) then Some v else assoc name l'
  end.

(** ** Functional layers *)

Definition sum (x : vec) : R := foldr Rplus 0%R x.
Definition dot (u v : vec) : R := sum (zip_with Rmult u v).
Definition mean (x : vec) : R := (sum x / INR (length x))%R.
Definition relu (x : R) : R := Rmax 0 x.

(** [F.linear(x, W, b)] on one input row: [W] has shape
    [[out_features; in_features]]. *)
Definition F_linear (x : vec) (W b : tensor) : result vec :=
  match shape W with
  | [out_features; in_features] =>
      if decide (length x = in_features ∧ shape b = [out_features])
      then Ok (zip_with Rplus
                 (map (fun i => dot (take in_features (drop (i * in_features) (data W))) x)
                      (seq 0 out_features))
                 (data b))
      else Raise RuntimeError
  | _ => Raise RuntimeError
  end.

Definition layer_norm_eps : R := (1 / 100000)%R.

(** [F.layer_norm] over the last dimension, with the biased variance. *)
Definition F_layer_norm (x : vec) (w b : tensor) : result vec :=
  if decide (shape w = [length x] ∧ shape b = [length x])
  then
    let m := mean x in
    let v := mean (map (fun a => ((a - m) * (a - m))%R) x) in
    Ok (zip_with Rplus
          (zip_with Rmult (map (fun a => ((a - m) / sqrt (v + layer_norm_eps))%R) x) (data w))
          (data b))
  else Raise RuntimeError.

(** [T.nn.init.uniform_(t, lo, hi)]: element [i] is the raw draw [u i] of
    [0, 1) carried onto [lo, hi). *)
Definition uniform_ (u : nat → R) (shp : list nat) (lo hi : R) : tensor :=
  {| shape := shp;
     data := map (fun i => (lo + (hi - lo) * u i)%R) (seq 0 (numel shp)) |}.

Definition ones (shp : list nat) : tensor :=
  {| shape := shp; data := replicate (numel shp) 1%R |}.
Definition zeros (shp : list nat) : tensor :=
  {| shape := shp; data := replicate (numel shp) 0%R |}.

(** [weight.data.size()[0]] *)
Definition size0 (shp : list nat) : nat := nth 0 shp 0.

(** The bound of [nn.Linear]'s own initialisation of weight and bias, kept
    by a layer the constructor does not initialise again. *)
Definition Linear_default_bound (in_features : nat) : R := (1 / sqrt (INR in_features))%R.

(** ** Ornstein-Uhlenbeck noise *)

Record OUActionNoise : Type := {
  theta : R;
  mu : vec;
  sigma : R;
  dt : R;
  x0 : option vec;
  x_prev : vec
}.

Definition OUActionNoise_reset (self : OUActionNoise) : OUActionNoise :=
  {| theta := theta self; mu := mu self; sigma := sigma self; dt := dt self;
     x0 := x0 self;
     x_prev := match x0 self with
               | Some x => x
               | None => np_zeros (length (mu self))
               end |}.

Definition OUActionNoise_init (mu : vec) : OUActionNoise :=
  OUActionNoise_reset
    {| theta := (2 / 10)%R; mu := mu; sigma := (15 / 100)%R; dt := (1 / 100)%R;
       x0 := None; x_prev := [] |}.

(** [__call__]; [normal] is the draw of [np.random.normal(size=mu.shape)]. *)
Definition OUActionNoise_call (normal : vec) (self : OUActionNoise) : vec * OUActionNoise :=
  let x :=
    zip_with Rplus
      (zip_with Rplus (x_prev self)
         (map (fun d => (theta self * d * dt self)%R) (zip_with Rminus (mu self) (x_prev self))))
      (map (fun n => (sigma self * sqrt (dt self) * n)%R) normal) in
  (x, {| theta := theta self; mu := mu self; sigma := sigma self; dt := dt self;
         x0 := x0 self; x_prev := x |}).

(** ** Control flow helpers *)

(** A [for] loop over [l] that updates a state and may raise. *)
Fixpoint for_each {S A} (body : S → A → result S) (l : list A) (s : S) : result S :=
  match l with
  | [] => Ok s
  | x :: l' => s' ← body s x; for_each body l' s'
  end.

(** [dict(pairs)]: later pairs overwrite earlier ones. *)
Definition dict {A} (pairs : list (string * A)) : gmap string A :=
  foldl (fun d kv => <[kv.1 := kv.2]> d) ∅ pairs.

(** What a state dictionary can hold: a [Parameter] of some network, or a
    tensor that an expression has just built. *)
Inductive value : Type :=
  | Param (l : loc)
  | Fresh (t : tensor).

(** [v.clone()], and any other read of the elements of [v]. *)
Definition clone (h : heap) (v : value) : result tensor :=
  match v with
  | Param l => match h !! l with
               | Some t => Ok t
               | None => Raise KeyError
               end
  | Fresh t => Ok t
  end.

(** ** Networks, Agent *)

Section Model.

(** The state of [optim.Adam]; the gradient computation and the
    optimiser step belong to torch and are taken as given. *)
Context {Optim : Type}.
Variable Adam : R → Optim.
(** [zero_grad(); mse_loss(target, critic(state, action)).backward();
    optimizer.step()]: new values of the critic's parameters by name. *)
Variable critic_update :
  Optim → list (string * tensor) → list vec → list vec → list vec →
  list (string * tensor) * Optim.
(** [zero_grad(); mean(-critic(state, actor(state))).backward();
    optimizer.step()]: new values of the actor's parameters by name. *)
Variable actor_update :
  Optim → list (string * tensor) → list (string * tensor) → list vec →
  list (string * tensor) * Optim.

(** An [nn.Module] of this program: its parameters by qualified name, in
    the order of registration, its mode and its optimiser.  The names
    are pairwise different. *)
Record Network : Type := {
  named_parameters : list (string * loc);
  training : bool;
  optimizer : Optim
}.

Definition eval (self : Network) : Network :=
  {| named_parameters := named_parameters self; training := false;
     optimizer := optimizer self |}.
Definition train (self : Network) : Network :=
  {| named_parameters := named_parameters self; training := true;
     optimizer := optimizer self |}.
Definition with_optimizer (self : Network) (o : Optim) : Network :=
  {| named_parameters := named_parameters self; training := training self;
     optimizer := o |}.

Definition parameter (h : heap) (self : Network) (name : string) : result tensor :=
  match assoc name (named_parameters self) with
  | Some l => clone h (Param l)
  | None => Raise KeyError
  end.

(** The current values of all parameters, by name. *)
Definition parameter_values (h : heap) (self : Network) : result (list (string * tensor)) :=
  traverse (fun '(name, l) => t ← clone h (Param l); Ok (name, t)) (named_parameters self).

Definition Linear_forward (h : heap) (self : Network) (layer : string) (x : vec) : result vec :=
  W ← parameter h self (layer +:+ ".weight");
  b ← parameter h self (layer +:+ ".bias");
  F_linear x W b.

Definition LayerNorm_forward (h : heap) (self : Network) (layer : string) (x : vec) : result vec :=
  w ← parameter h self (layer +:+ ".weight");
  b ← parameter h self (layer +:+ ".bias");
  F_layer_norm x w b.

(** The parameters the constructor of [ActorNetwork] registers, with
    their initial values. *)
Definition ActorNetwork_parameters (u : string → nat → R)
    (input_dim fc1_dims fc2_dims n_actions : nat) : list (string * tensor) :=
  let fc1_weight := [fc1_dims; input_dim] in
  let f1 := (1 / sqrt (INR (size0 fc1_weight)))%R in
  let fc2_weight := [fc2_dims; fc1_dims] in
  let f2 := (1 / sqrt (INR (size0 fc2_weight)))%R in
  let f4 := (3 / 1000)%R in
  [ ("fc1.weight", uniform_ (u "fc1.weight") fc1_weight (- f1) f1);
    ("fc1.bias", uniform_ (u "fc1.bias") [fc1_dims] (- f1) f1);
    ("bn1.weight", ones [fc1_dims]);
    ("bn1.bias", zeros [fc1_dims]);
    ("fc2.weight", uniform_ (u "fc2.weight") fc2_weight (- f2) f2);
    ("fc2.bias", uniform_ (u "fc2.bias") [fc2_dims] (- f2) f2);
    ("bn2.weight", ones [fc2_dims]);
    ("bn2.bias", zeros [fc2_dims]);
    ("mu.weight", uniform_ (u "mu.weight") [n_actions; fc2_dims] (- f4) f4);
    ("mu.bias", uniform_ (u "mu.bias") [n_actions] (- f4) f4) ].

Definition ActorNetwork_init (u : string → nat → R) (alpha : R)
    (input_dim fc1_dims fc2_dims n_actions : nat) (h : heap) : Network * heap :=
  let '(ps, h') :=
    alloc_all h (ActorNetwork_parameters u input_dim fc1_dims fc2_dims n_actions) in
  ({| named_parameters := ps; training := true; optimizer := Adam alpha |}, h').

Definition ActorNetwork_forward (h : heap) (self : Network) (state : vec) : result vec :=
  x ← Linear_forward h self "fc1" state;
  x ← LayerNorm_forward h self "bn1" x;
  let x := map relu x in
  x ← Linear_forward h self "fc2" x;
  x ← LayerNorm_forward h self "bn2" x;
  let x := map relu x in
  x ← Linear_forward h self "mu" x;
  Ok (map tanh x).

(** The parameters the constructor of [CriticNetwork] registers.  The
    layer [action_value] keeps the values [nn.Linear] gave it. *)
Definition CriticNetwork_parameters (u : string → nat → R)
    (input_dim fc1_dims fc2_dims n_actions : nat) : list (string * tensor) :=
  let fc1_weight := [fc1_dims; input_dim] in
  let f1 := (1 / sqrt (INR (size0 fc1_weight)))%R in
  let fc2_weight := [fc2_dims; fc1_dims] in
  let f2 := (1 / sqrt (INR (size0 fc2_weight)))%R in
  let fa := Linear_default_bound n_actions in
  let f4 := (3 / 1000)%R in
  [ ("fc1.weight", uniform_ (u "fc1.weight") fc1_weight (- f1) f1);
    ("fc1.bias", uniform_ (u "fc1.bias") [fc1_dims] (- f1) f1);
    ("bn1.weight", ones [fc1_dims]);
    ("bn1.bias", zeros [fc1_dims]);
    ("fc2.weight", uniform_ (u "fc2.weight") fc2_weight (- f2) f2);
    ("fc2.bias", uniform_ (u "fc2.bias") [fc2_dims] (- f2) f2);
    ("bn2.weight", ones [fc2_dims]);
    ("bn2.bias", zeros [fc2_dims]);
    ("action_value.weight",
       uniform_ (u "action_value.weight") [fc2_dims; n_actions] (- fa) fa);
    ("action_value.bias", uniform_ (u "action_value.bias") [fc2_dims] (- fa) fa);
    ("q.weight", uniform_ (u "q.weight") [1; fc2_dims] (- f4) f4);
    ("q.bias", uniform_ (u "q.bias") [1] (- f4) f4) ].

Definition CriticNetwork_init (u : string → nat → R) (beta : R)
    (input_dim fc1_dims fc2_dims n_actions : nat) (h : heap) : Network * heap :=
  let '(ps, h') :=
    alloc_all h (CriticNetwork_parameters u input_dim fc1_dims fc2_dims n_actions) in
  ({| named_parameters := ps; training := true; optimizer := Adam beta |}, h').

(** [T.add(a, b)] on two rows. *)
Definition T_add (a b : vec) : result vec :=
  if decide (length a = length b) then Ok (zip_with Rplus a b) else Raise RuntimeError.

Definition CriticNetwork_forward (h : heap) (self : Network) (state action : vec)
  : result vec :=
  state_value ← Linear_forward h self "fc1" state;
  state_value ← LayerNorm_forward h self "bn1" state_value;
  let state_value := map relu state_value in
  state_value ← Linear_forward h self "fc2" state_value;
  state_value ← LayerNorm_forward h self "bn2" state_value;
  let state_value := map relu state_value in
  action_value ← Linear_forward h self "action_value" action;
  let action_value := map relu action_value in
  state_action_value ← T_add state_value action_value;
  let state_action_value := map relu state_action_value in
  Linear_forward h self "q" state_action_value.

(** [param.copy_(input_param)] for one entry of the module. *)
Definition copy_entry (state_dict : gmap string value) (h : heap) (entry : string * loc)
  : result heap :=
  match state_dict !! entry.1, h !! entry.2 with
  | Some v, Some p =>
      input_param ← clone h v;
      if decide (shape input_param = shape p)
      then Ok (<[entry.2 := input_param]> h)
      else Raise RuntimeError
  | _, _ => Raise RuntimeError
  end.

(** [self.load_state_dict(state_dict)] with the default [strict=True]:
    the keys are exactly the module's names, and each entry is copied
    into the module's own [Parameter]. *)
Definition load_state_dict (h : heap) (self : Network) (state_dict : gmap string value)
  : result heap :=
  if decide (dom state_dict = (list_to_set (named_parameters self).*1 : gset string))
  then for_each (copy_entry state_dict) (named_parameters self) h
  else Raise RuntimeError.

(** [optimizer.step()] writes the new values into the module's own
    parameters; a parameter without a new value is left as it is. *)
Definition step_parameters (h : heap) (self : Network) (new : list (string * tensor)) : heap :=
  foldl (fun h' '(name, l) =>
           match assoc name new with
           | Some t => <[l := t]> h'
           | None => h'
           end)
        h (named_parameters self).

(** *** Agent *)

Record Agent : Type := {
  gamma : R;
  tau : R;
  memory : ReplayBuffer;
  batch_size : nat;
  noise : OUActionNoise;
  actor : Network;
  critic : Network;
  target_actor : Network;
  target_critic : Network;
  (** [None] is the empty list of the constructor: nothing recorded. *)
  actor_loss : option R;
  critic_loss : option R;
  (** The store holding the [Parameter]s of the four networks. *)
  params : heap
}.

Definition set_memory (self : Agent) (m : ReplayBuffer) : Agent :=
  {| gamma := gamma self; tau := tau self; memory := m;
     batch_size := batch_size self; noise := noise self; actor := actor self;
     critic := critic self; target_actor := target_actor self;
     target_critic := target_critic self; actor_loss := actor_loss self;
     critic_loss := critic_loss self; params := params self |}.
Definition set_noise (self : Agent) (n : OUActionNoise) : Agent :=
  {| gamma := gamma self; tau := tau self; memory := memory self;
     batch_size := batch_size self; noise := n; actor := actor self;
     critic := critic self; target_actor := target_actor self;
     target_critic := target_critic self; actor_loss := actor_loss self;
     critic_loss := critic_loss self; params := params self |}.
Definition set_actor (self : Agent) (n : Network) : Agent :=
  {| gamma := gamma self; tau := tau self; memory := memory self;
     batch_size := batch_size self; noise := noise self; actor := n;
     critic := critic self; target_actor := target_actor self;
     target_critic := target_critic self; actor_loss := actor_loss self;
     critic_loss := critic_loss self; params := params self |}.
Definition set_critic (self : Agent) (n : Network) : Agent :=
  {| gamma := gamma self; tau := tau self; memory := memory self;
     batch_size := batch_size self; noise := noise self; actor := actor self;
     critic := n; target_actor := target_actor self;
     target_critic := target_critic self; actor_loss := actor_loss self;
     critic_loss := critic_loss self; params := params self |}.
Definition set_target_actor (self : Agent) (n : Network) : Agent :=
  {| gamma := gamma self; tau := tau self; memory := memory self;
     batch_size := batch_size self; noise := noise self; actor := actor self;
     critic := critic self; target_actor := n;
     target_critic := target_critic self; actor_loss := actor_loss self;
     critic_loss := critic_loss self; params := params self |}.
Definition set_target_critic (self : Agent) (n : Network) : Agent :=
  {| gamma := gamma self; tau := tau self; memory := memory self;
     batch_size := batch_size self; noise := noise self; actor := actor self;
     critic := critic self; target_actor := target_actor self;
     target_critic := n; actor_loss := actor_loss self;
     critic_loss := critic_loss self; params := params self |}.
Definition set_actor_loss (self : Agent) (l : R) : Agent :=
  {| gamma := gamma self; tau := tau self; memory := memory self;
     batch_size := batch_size self; noise := noise self; actor := actor self;
     critic := critic self; target_actor := target_actor self;
     target_critic := target_critic self; actor_loss := Some l;
     critic_loss := critic_loss self; params := params self |}.
Definition set_critic_loss (self : Agent) (l : R) : Agent :=
  {| gamma := gamma self; tau := tau self; memory := memory self;
     batch_size := batch_size self; noise := noise self; actor := actor self;
     critic := critic self; target_actor := target_actor self;
     target_critic := target_critic self; actor_loss := actor_loss self;
     critic_loss := Some l; params := params self |}.
Definition set_params (self : Agent) (h : heap) : Agent :=
  {| gamma := gamma self; tau := tau self; memory := memory self;
     batch_size := batch_size self; noise := noise self; actor := actor self;
     critic := critic self; target_actor := target_actor self;
     target_critic := target_critic self; actor_loss := actor_loss self;
     critic_loss := critic_loss self; params := h |}.

(** The loop of [update_network_parameters] for one network: entry
    [name] of the source's dictionary is bound to a new tensor. *)
Definition blend_entry (h : heap) (tau : R) (target_state_dict : gmap string value)
    (state_dict : gmap string value) (name : string) : result (gmap string value) :=
  match state_dict !! name, target_state_dict !! name with
  | Some v, Some w =>
      a ← clone h v;
      b ← clone h w;
      s ← tensor_add (tensor_scale tau a) (tensor_scale (1 - tau) b);
      Ok (<[name := Fresh s]> state_dict)
  | _, _ => Raise KeyError
  end.

(** [dict(net.named_parameters())]: the entries are the network's own
    [Parameter] objects. *)
Definition state_dict_of (self : Network) : gmap string value :=
  dict ((fun '(name, l) => (name, Param l)) <$> named_parameters self).

Definition soft_update (h : heap) (tau : R) (source target : Network) : result heap :=
  let state_dict := state_dict_of source in
  let target_state_dict := state_dict_of target in
  state_dict ← for_each (blend_entry h tau target_state_dict)
                        (named_parameters source).*1 state_dict;
  load_state_dict h target state_dict.

Definition update_network_parameters (self : Agent) (tau_arg : option R) : result Agent :=
  let tau := default (tau self) tau_arg in
  h ← soft_update (params self) tau (critic self) (target_critic self);
  h ← soft_update h tau (actor self) (target_actor self);
  Ok (set_params self h).

(** [Agent.__init__] up to its last statement: the buffer, the noise
    and the four networks, each with parameters of its own. *)
Definition Agent_fields (u : string → string → nat → R) (alpha beta tau : R)
    (n_actions input_dim layer1_size layer2_size batch_size : nat)
    (gamma : R) (max_size : nat) : Agent :=
  let memory := ReplayBuffer_init max_size input_dim n_actions in
  let noise := OUActionNoise_init (np_zeros n_actions) in
  let actor :=
    ActorNetwork_init (u "Actor") alpha input_dim layer1_size layer2_size n_actions [] in
  let critic :=
    CriticNetwork_init (u "Critic") beta input_dim layer1_size layer2_size n_actions
                       actor.2 in
  let target_actor :=
    ActorNetwork_init (u "TargetActor") alpha input_dim layer1_size layer2_size n_actions
                      critic.2 in
  let target_critic :=
    CriticNetwork_init (u "TargetCritic") beta input_dim layer1_size layer2_size n_actions
                       target_actor.2 in
  {| gamma := gamma; tau := tau; memory := memory; batch_size := batch_size;
     noise := noise; actor := actor.1; critic := critic.1;
     target_actor := target_actor.1; target_critic := target_critic.1;
     actor_loss := None; critic_loss := None; params := target_critic.2 |}.

(** [Agent.__init__]: its last statement is
    [self.update_network_parameters(tau=1)]. *)
Definition Agent_init (u : string → string → nat → R) (alpha beta tau : R)
    (n_actions input_dim layer1_size layer2_size batch_size : nat)
    (gamma : R) (max_size : nat) : result Agent :=
  update_network_parameters
    (Agent_fields u alpha beta tau n_actions input_dim layer1_size layer2_size
                  batch_size gamma max_size)
    (Some 1%R).

(** [choose_action]: the action and the agent after the call. *)
Definition choose_action (normal : vec) (self : Agent) (observation : vec)
  : result (vec * Agent) :=
  let self := set_actor self (eval (actor self)) in
  mu ← ActorNetwork_forward (params self) (actor self) observation;
  let '(n, noise') := OUActionNoise_call normal (noise self) in
  let self := set_noise self noise' in
  mu_prime ← T_add mu n;
  let self := set_actor self (train (actor self)) in
  Ok (mu_prime, self).

Definition remember (self : Agent) (state action : vec) (reward : R)
    (new_state : vec) (done : bool) : result Agent :=
  m ← store_transition (memory self) state action reward new_state done;
  Ok (set_memory self m).

(** [int(done[j])] *)
Definition int (b : bool) : R := if b then 1%R else 0%R.

(** The loop that builds [target] in [learn]. *)
Definition td_target (gamma : R) (reward : list R) (critic_value_ : list vec)
    (done : list bool) (batch_size : nat) : result (list vec) :=
  traverse (fun j =>
              match reward !! j, critic_value_ !! j, done !! j with
              | Some r, Some q, Some d =>
                  Ok (map (fun x => (r + gamma * x * int d)%R) q)
              | _, _, _ => Raise IndexError
              end)
           (seq 0 batch_size).

(** [T.tensor(target).view(batch_size, 1)] *)
Definition view_column (target : list vec) (batch_size : nat) : result (list vec) :=
  if decide (length (concat target) = batch_size)
  then Ok (map (fun x => [x]) (concat target))
  else Raise RuntimeError.

Definition mse_loss (a b : list vec) : R :=
  mean (zip_with (fun x y => ((x - y) * (x - y))%R) (concat a) (concat b)).

Definition learn (rand : nat → nat) (self : Agent) : result Agent :=
  if decide (mem_cntr (memory self) < batch_size self) then Ok self
  else
    '(b, m) ← sample_buffer rand (memory self) (batch_size self);
    let self := set_memory self m in
    let state := b_states b in
    let action := b_actions b in
    let reward := b_rewards b in
    let new_state := b_states_ b in
    let done := b_terminal b in
    let self := set_target_actor self (eval (target_actor self)) in
    let self := set_target_critic self (eval (target_critic self)) in
    let self := set_critic self (eval (critic self)) in
    target_actions ←
      traverse (ActorNetwork_forward (params self) (target_actor self)) new_state;
    critic_value_ ←
      traverse (fun '(s, a) => CriticNetwork_forward (params self) (target_critic self) s a)
               (zip new_state target_actions);
    critic_value ←
      traverse (fun '(s, a) => CriticNetwork_forward (params self) (critic self) s a)
               (zip state action);
    target ← td_target (gamma self) reward critic_value_ done (batch_size self);
    target ← view_column target (batch_size self);
    let self := set_critic self (train (critic self)) in
    critic_values ← parameter_values (params self) (critic self);
    let '(new, o) :=
      critic_update (optimizer (critic self)) critic_values state action target in
    let self := set_critic_loss self (mse_loss target critic_value) in
    let self := set_params self (step_parameters (params self) (critic self) new) in
    let self := set_critic self (with_optimizer (critic self) o) in
    let self := set_critic self (eval (critic self)) in
    mu ← traverse (ActorNetwork_forward (params self) (actor self)) state;
    let self := set_actor self (train (actor self)) in
    q ← traverse (fun '(s, a) => CriticNetwork_forward (params self) (critic self) s a)
                 (zip state mu);
    actor_values ← parameter_values (params self) (actor self);
    critic_values ← parameter_values (params self) (critic self);
    let '(new, o) :=
      actor_update (optimizer (actor self)) actor_values critic_values state in
    let self := set_actor_loss self (mean (map Ropp (concat q))) in
    let self := set_params self (step_parameters (params self) (actor self) new) in
    let self := set_actor self (with_optimizer (actor self) o) in
    update_network_parameters self None.

(** Parameter [name] of [self] is in the store with shape [shp]. *)
Definition has_parameter (h : heap) (self : Network) (name : string) (shp : list nat)
  : Prop :=
  ∃ t, parameter h self name = Ok t ∧ shape t = shp ∧ tensor_wf t.

(** The parameters of an actor for states of dimension [D], hidden
    layers of [F1] and [F2] units and [A] actions. *)
Definition ActorNetwork_shaped (h : heap) (self : Network) (D F1 F2 A : nat) : Prop :=
  has_parameter h self "fc1.weight" [F1; D] ∧
  has_parameter h self "fc1.bias" [F1] ∧
  has_parameter h self "bn1.weight" [F1] ∧
  has_parameter h self "bn1.bias" [F1] ∧
  has_parameter h self "fc2.weight" [F2; F1] ∧
  has_parameter h self "fc2.bias" [F2] ∧
  has_parameter h self "bn2.weight" [F2] ∧
  has_parameter h self "bn2.bias" [F2] ∧
  has_parameter h self "mu.weight" [A; F2] ∧
  has_parameter h self "mu.bias" [A].

(** [t] has shape [shp] and its elements are the raw draws [u] carried
    onto [-bound, bound], so lie in that range. *)
Definition drawn_in (t : tensor) (u : nat → R) (shp : list nat) (bound : R) : Prop :=
  shape t = shp ∧
  data t = map (fun i => (- bound + (bound - - bound) * u i)%R) (seq 0 (numel shp)) ∧
  Forall (fun x => (- bound <= x <= bound)%R) (data t).

Definition initialised (net : Network * heap) (name : string) (u : nat → R)
    (shp : list nat) (bound : R) : Prop :=
  ∃ t, parameter net.2 net.1 name = Ok t ∧ drawn_in t u shp bound.

(** [tau * s + (1 - tau) * t] on two tensors of one shape. *)
Definition blend (tau : R) (s t : tensor) : tensor :=
  {| shape := shape s;
     data := zip_with Rplus (map (Rmult tau) (data s)) (map (Rmult (1 - tau)) (data t)) |}.

(** The parameters at [ls] and [lt] are tensors of one shape. *)
Definition same_shape (h : heap) (ls lt : loc) : Prop :=
  ∃ s t, h !! ls = Some s ∧ h !! lt = Some t ∧ shape s = shape t ∧
         tensor_wf s ∧ tensor_wf t.

(** [target] is a second instance of the class of [source]: the same
    parameter names, in the same order, with the same shapes. *)
Definition tracks (h : heap) (source target : Network) : Prop :=
  (named_parameters source).*1 = (named_parameters target).*1 ∧
  NoDup (named_parameters source).*1 ∧
  Forall2 (fun p q => same_shape h p.2 q.2)
          (named_parameters source) (named_parameters target).

Definition source_locs (self : Agent) : list loc :=
  (named_parameters (actor self) ++ named_parameters (critic self)).*2.
Definition target_locs (self : Agent) : list loc :=
  (named_parameters (target_actor self) ++ named_parameters (target_critic self)).*2.

(** The four networks as the constructor builds them: each target is an
    instance of the class of its source, and no [Parameter] belongs to
    two networks or is registered twice. *)
Definition agent_wf (self : Agent) : Prop :=
  tracks (params self) (critic self) (target_critic self) ∧
  tracks (params self) (actor self) (target_actor self) ∧
  NoDup (source_locs self ++ target_locs self).

End Model.

(** ** The entry point (Scripts/DDPG_run.py) *)

(** [l[i]] for a Python list: a negative index counts from the end. *)
Definition py_getitem {A} (l : list A) (i : Z) : result A :=
  let n := Z.of_nat (length l) in
  let i' := if decide (i < 0)%Z then (i + n)%Z else i in
  if decide (0 ≤ i' < n)%Z
  then match l !! Z.to_nat i' with
       | Some x => Ok x
       | None => Raise IndexError
       end
  else Raise IndexError.

(** [np.arange(n, dtype=int).tolist()] *)
Definition np_arange (n : Z) : list Z := map Z.of_nat (seq 0 (Z.to_nat n)).

(** [Pool(processes=n)] refuses a number of processes below one. *)
Definition Pool (processes : Z) : result unit :=
  if decide (processes < 1)%Z then Raise ValueError else Ok ().

Definition task_list : list string := ["Reach"; "Push"; "PickAndPlace"; "Slide"; "Stack"].
Definition reward_list : list string := ["Dense"; ""].

(** The objects a training run constructs. *)
Inductive construction : Type :=
  | gym_make (id : string)
  | Agent_constructed (run : Z).

(** [run(run)], up to the construction of its environment and agent. *)
Definition run (TASK REWARD : string) (run : Z) : list construction :=
  [gym_make ("Panda" +:+ TASK +:+ REWARD +:+ "-v2"); Agent_constructed run].

(** [DDPG_main] on the three numbers read by [int(input(...))].  A
    [Raise] leaves the function before [pool.map_async] starts any run;
    [Ok cs] lists what the runs construct. *)
Definition DDPG_main (task reward NoRuns : Z) : result (list construction) :=
  TASK ← py_getitem task_list task;
  REWARD ← py_getitem reward_list reward;
  let rList := np_arange NoRuns in
  _ ← Pool NoRuns;
  Ok (concat (map (run TASK REWARD) rList)).

(** An index the prompts of [DDPG_main] offer. *)
Definition offered {A} (l : list A) (i : Z) : Prop := (0 ≤ i < Z.of_nat (length l))%Z.

(** ** Checkpoints and the training loop *)

(** Successive calls of the noise process, one draw of
    [np.random.normal] each. *)
Fixpoint OUActionNoise_calls (normals : list vec) (self : OUActionNoise) : OUActionNoise :=
  match normals with
  | [] => self
  | n :: normals' => OUActionNoise_calls normals' (OUActionNoise_call n self).2
  end.

(** The outcome of a call that reads or writes a file: [NoSuchFile] is
    the exception raised for a path that does not exist. *)
Inductive io (A : Type) : Type :=
  | Done (a : A)
  | NoSuchFile
  | Failed (e : exn).
Arguments Done {A} a.
Arguments NoSuchFile {A}.
Arguments Failed {A} e.

Definition io_bind {A B} (m : io A) (f : A → io B) : io B :=
  match m with
  | Done a => f a
  | NoSuchFile => NoSuchFile
  | Failed e => Failed e
  end.

(** The file system as the checkpoints see it: the directories that
    exist and the state dictionaries written by [T.save]. *)
Record Storage : Type := {
  directories : gset string;
  files : gmap string (list (string * tensor))
}.

Definition chkpt_dir : string := "tmp/ddpg".

(** [os.path.join(chkpt_dir, name + "_ddpg")] *)
Definition checkpoint_file (name : string) : string :=
  chkpt_dir +:+ "/" +:+ name +:+ "_ddpg".

(** [T.save(obj, file)]: the directory of the file has to exist. *)
Definition T_save (fs : Storage) (obj : list (string * tensor)) (file : string) : io Storage :=
  if decide (chkpt_dir ∈ directories fs)
  then Done {| directories := directories fs; files := <[file := obj]> (files fs) |}
  else NoSuchFile.

(** [T.load(file)] *)
Definition T_load (fs : Storage) (file : string) : io (gmap string value) :=
  match files fs !! file with
  | Some obj => Done (dict ((fun '(name, t) => (name, Fresh t)) <$> obj))
  | None => NoSuchFile
  end.

Section Driver.

Context {Optim : Type}.
Variable critic_update :
  Optim → list (string * tensor) → list vec → list vec → list vec →
  list (string * tensor) * Optim.
Variable actor_update :
  Optim → list (string * tensor) → list (string * tensor) → list vec →
  list (string * tensor) * Optim.

(** The parameters of a critic for states of dimension [D], hidden
    layers of [F1] and [F2] units and [A] actions. *)
Definition CriticNetwork_shaped (h : heap) (self : @Network Optim) (D F1 F2 A : nat) : Prop :=
  has_parameter h self "fc1.weight" [F1; D] ∧
  has_parameter h self "fc1.bias" [F1] ∧
  has_parameter h self "bn1.weight" [F1] ∧
  has_parameter h self "bn1.bias" [F1] ∧
  has_parameter h self "fc2.weight" [F2; F1] ∧
  has_parameter h self "fc2.bias" [F2] ∧
  has_parameter h self "bn2.weight" [F2] ∧
  has_parameter h self "bn2.bias" [F2] ∧
  has_parameter h self "action_value.weight" [F2; A] ∧
  has_parameter h self "action_value.bias" [F2] ∧
  has_parameter h self "q.weight" [1; F2] ∧
  has_parameter h self "q.bias" [1].

(** [save_checkpoint] of the network constructed under [name]. *)
Definition save_checkpoint (fs : Storage) (h : heap) (self : @Network Optim) (name : string)
  : io Storage :=
  match parameter_values h self with
  | Ok state_dict => T_save fs state_dict (checkpoint_file name)
  | Raise e => Failed e
  end.

(** [load_checkpoint] of the network constructed under [name]. *)
Definition load_checkpoint (fs : Storage) (h : heap) (self : @Network Optim) (name : string)
  : io heap :=
  io_bind (T_load fs (checkpoint_file name)) (fun state_dict =>
  match load_state_dict h self state_dict with
  | Ok h' => Done h'
  | Raise e => Failed e
  end).

Definition save_models (fs : Storage) (self : @Agent Optim) : io Storage :=
  io_bind (save_checkpoint fs (params self) (actor self) "Actor") (fun fs =>
  io_bind (save_checkpoint fs (params self) (target_actor self) "TargetActor") (fun fs =>
  io_bind (save_checkpoint fs (params self) (critic self) "Critic") (fun fs =>
  save_checkpoint fs (params self) (target_critic self) "TargetCritic"))).

Definition load_models (fs : Storage) (self : @Agent Optim) : io (@Agent Optim) :=
  io_bind (load_checkpoint fs (params self) (actor self) "Actor") (fun h =>
  io_bind (load_checkpoint fs h (target_actor self) "TargetActor") (fun h =>
  io_bind (load_checkpoint fs h (critic self) "Critic") (fun h =>
  io_bind (load_checkpoint fs h (target_critic self) "TargetCritic") (fun h =>
  Done (set_params self h))))).

(** Successive calls of [update_network_parameters]. *)
Fixpoint update_n (n : nat) (self : @Agent Optim) (tau_arg : option R)
  : result (@Agent Optim) :=
  match n with
  | 0 => Ok self
  | S n' => self' ← update_network_parameters self tau_arg; update_n n' self' tau_arg
  end.

(** *** One episode of [run] *)

(** What [env.reset()] and [env.step(action)] return as observation: the
    two entries of the dictionary that [run] reads. *)
Record Obs : Type := { observation : vec; desired_goal : vec }.

(** [np.concatenate([obs["observation"], obs["desired_goal"]])] *)
Definition flatten_obs (o : Obs) : vec := observation o ++ desired_goal o.

(** The environment of gym: its state, [reset] and [step]. *)
Context {Env : Type}.
Variable env_reset : Env → Obs * Env.
Variable env_step : Env → vec → Obs * R * bool * Env.

(** The loop [while not done] of [run], for at most [fuel] iterations;
    [None] when the episode is not over by then.  [normal k] and [rand k]
    are the draws of the generators in iteration [k].  [observation] is
    the variable of that name in [run]: the loop does not assign it. *)
Fixpoint while_not_done (fuel : nat) (normal : nat → vec) (rand : nat → nat → nat)
    (observation : vec) (k : nat) (agent : @Agent Optim) (env : Env)
    (done : bool) (score : R) : result (option (@Agent Optim * Env * R)) :=
  if done then Ok (Some (agent, env, score))
  else
    match fuel with
    | 0 => Ok None
    | S fuel' =>
        '(action, agent) ← choose_action (normal k) agent observation;
        let '(new_state, reward, done, env) := env_step env action in
        let new_state := flatten_obs new_state in
        agent ← remember agent observation action reward new_state done;
        agent ← learn critic_update actor_update (rand k) agent;
        while_not_done fuel' normal rand observation (S k) agent env done
                       (score + reward)%R
    end.

(** The body of [for i in range(1400)] up to the end of the inner loop. *)
Definition episode (fuel : nat) (normal : nat → vec) (rand : nat → nat → nat)
    (agent : @Agent Optim) (env : Env) : result (option (@Agent Optim * Env * R)) :=
  let '(obs, env) := env_reset env in
  let observation := flatten_obs obs in
  let agent := set_noise agent (OUActionNoise_reset (noise agent)) in
  while_not_done fuel normal rand observation 0 agent env false 0%R.

End Driver.

(** *** Dimensions *)

(** [h'] holds tensors of the shapes of those of [h]: what in-place
    updates of the parameters leave as it is. *)
Definition same_shapes (h h' : heap) : Prop :=
  length h' = length h ∧
  ∀ l t, h !! l = Some t →
         ∃ t', h' !! l = Some t' ∧ shape t' = shape t ∧ (tensor_wf t → tensor_wf t').

(** [optimizer.step()] updates the parameters in place: every new value
    is for one of the names it was given and has the shape of the old. *)
Definition step_keeps_shapes (old new : list (string * tensor)) : Prop :=
  ∀ name t, assoc name new = Some t →
            ∃ t0, assoc name old = Some t0 ∧ shape t = shape t0 ∧
                  length (data t) = length (data t0).

(** A noise process for actions of dimension [A]. *)
Definition noise_dim (self : OUActionNoise) (A : nat) : Prop :=
  length (mu self) = A ∧ length (x_prev self) = A ∧
  match x0 self with Some x => length x = A | None => True end.

Section Shaped.

Context {Optim : Type}.

(** An agent for states of dimension [D], hidden layers of [F1] and [F2]
    units and actions of dimension [A]. *)
Definition agent_shaped (self : @Agent Optim) (D F1 F2 A : nat) : Prop :=
  agent_wf self ∧
  ActorNetwork_shaped (params self) (actor self) D F1 F2 A ∧
  ActorNetwork_shaped (params self) (target_actor self) D F1 F2 A ∧
  CriticNetwork_shaped (params self) (critic self) D F1 F2 A ∧
  CriticNetwork_shaped (params self) (target_critic self) D F1 F2 A ∧
  buffer_rows (memory self) D A ∧ noise_dim (noise self) A.

End Shaped.

(** ** Example data *)

Definition demo_draws : string → string → nat → R := fun _ _ _ => (1 / 2)%R.

Definition demo_Adam : R → unit := fun _ => tt.

(** Optimiser steps that leave the parameters where they are. *)
Definition demo_critic_update (o : unit) (ps : list (string * tensor))
    (state action target : list vec) : list (string * tensor) * unit := (ps, o).
Definition demo_actor_update (o : unit) (ps cs : list (string * tensor))
    (state : list vec) : list (string * tensor) * unit := (ps, o).

(** An agent for one-dimensional states and actions, hidden layers of
    one unit, batches of one sample and a buffer of two slots. *)
Definition demo_agent : Agent :=
  Agent_fields demo_Adam demo_draws (1 / 10000) (1 / 1000) (1 / 1000) 1 1 1 1 1 (99 / 100) 2.

Definition demo_transitions : list Transition :=
  [ {| t_state := [1%R]; t_action := [0%R]; t_reward := 1%R; t_state_ := [2%R];
       t_done := false |};
    {| t_state := [2%R]; t_action := [1%R]; t_reward := 2%R; t_state_ := [3%R];
       t_done := false |};
    {| t_state := [3%R]; t_action := [0%R]; t_reward := 5%R; t_state_ := [4%R];
       t_done := true |} ].

(** The buffer of [demo_agent] after the first of these insertions. *)
Definition demo_buffer : ReplayBuffer :=
  {| mem_size := 2; mem_cntr := 1;
     state_memory := [[1%R]; [0%R]];
     new_state_memory := [[2%R]; [0%R]];
     action_memory := [[0%R]; [0%R]];
     reward_memory := [1%R; 0%R];
     terminal_memory := [true; false] |}.

(** The buffer after the three insertions: the third has replaced the
    first. *)
Definition demo_full_buffer : ReplayBuffer :=
  {| mem_size := 2; mem_cntr := 3;
     state_memory := [[3%R]; [2%R]];
     new_state_memory := [[4%R]; [3%R]];
     action_memory := [[0%R]; [1%R]];
     reward_memory := [5%R; 2%R];
     terminal_memory := [false; true] |}.

(** A noise process for one action, away from its mean. *)
Definition demo_noise : OUActionNoise :=
  {| theta := (2 / 10)%R; mu := [1%R]; sigma := (15 / 100)%R; dt := (1 / 100)%R;
     x0 := None; x_prev := [0%R] |}.

(** A file system with the directory of the checkpoints and no file. *)
Definition demo_storage : Storage := {| directories := {[chkpt_dir]}; files := ∅ |}.

(** An environment with observations of one number whose episodes end
    at the second step; its state is the number of steps taken. *)
Definition demo_env_reset (steps : nat) : Obs * nat :=
  ({| observation := [1%R]; desired_goal := [] |}, 0).
Definition demo_env_step (steps : nat) (action : vec) : Obs * R * bool * nat :=
  ({| observation := [2%R]; desired_goal := [] |}, 1%R, bool_decide (1 ≤ steps), S steps).

(** The episode is over. *)
Definition finished {A} (m : result (option A)) : bool :=
  match m with
  | Ok (Some _) => true
  | _ => false
  end.


(** * Properties *)

(** ** The [result] monad *)

Lemma bind_Ok {A B} (m : result A) (f : A → result B) (b : B) :
  m ≫= f = Ok b ↔ ∃ a, m = Ok a ∧ f a = Ok b.
Proof.
  destruct m as [a|e]; simpl; split.
  - intros H. by exists a.
  - by intros (a' & [= <-] & H).
  - discriminate.
  - by intros (a' & [=] & _).
Qed.

(** Peels the successful binds of a hypothesis [H : (x ← m; k) = Ok r]. *)
Ltac bind_inv H :=
  repeat match type of H with
         | _ ≫= _ = Ok _ =>
             let a := fresh "a" in
             let Ha := fresh "Ha" in
             apply bind_Ok in H as (a & Ha & H)
         end.

Lemma traverse_Ok_length {A B} (f : A → result B) l r :
  traverse f l = Ok r → length r = length l.
Proof.
  revert r. induction l as [|x l IH]; simpl; intros r H.
  - by injection H as <-.
  - bind_inv H. injection H as <-. simpl. f_equal. by apply IH.
Qed.

Lemma traverse_Ok_lookup {A B} (f : A → result B) l r j x :
  traverse f l = Ok r → l !! j = Some x → ∃ y, r !! j = Some y ∧ f x = Ok y.
Proof.
  revert r j. induction l as [|x' l IH]; simpl; intros r j H Hj; [done|].
  bind_inv H. injection H as <-.
  destruct j as [|j]; simpl in *.
  - injection Hj as ->. eauto.
  - eauto.
Qed.

Lemma traverse_succeeds {A B} (f : A → result B) l :
  Forall (fun x => succeeds (f x)) l → succeeds (traverse f l).
Proof.
  induction 1 as [|x l [y Hy] _ [ys Hys]]; simpl.
  - by eexists.
  - rewrite Hy, Hys. by eexists.
Qed.

(** ** ReplayBuffer *)

Lemma np_setitem_Ok {A} (arr : list A) index v :
  index < length arr → np_setitem arr index v = Ok (<[index := v]> arr).
Proof. intros H. unfold np_setitem. by rewrite decide_True. Qed.

Lemma np_setitem_inv {A} (arr : list A) index v arr' :
  np_setitem arr index v = Ok arr' → index < length arr ∧ arr' = <[index := v]> arr.
Proof. unfold np_setitem. case_decide; [|done]. by intros [= <-]. Qed.

(** A row of the length of the rows of the array is stored as it is. *)
Lemma np_setitem_row_Ok (arr : list vec) index row n :
  index < length arr → Forall (fun r => length r = n) arr → length row = n →
  np_setitem_row arr index row = Ok (<[index := row]> arr).
Proof.
  intros Hi Hall Hrow. unfold np_setitem_row.
  destruct (lookup_lt_is_Some_2 arr index Hi) as [old Hold]. rewrite Hold.
  rewrite decide_True; [done|].
  rewrite Hrow. symmetry. exact (Forall_lookup_1 _ _ _ _ Hall Hold).
Qed.

(** A row of another length is refused, unless it has one element. *)
Lemma np_setitem_row_ValueError (arr : list vec) index row n :
  index < length arr → Forall (fun r => length r = n) arr →
  length row ≠ n → length row ≠ 1 →
  np_setitem_row arr index row = Raise ValueError.
Proof.
  intros Hi Hall Hrow Hone. unfold np_setitem_row.
  destruct (lookup_lt_is_Some_2 arr index Hi) as [old Hold]. rewrite Hold.
  pose proof (Forall_lookup_1 _ _ _ _ Hall Hold) as Hlen. simpl in Hlen.
  rewrite decide_False by lia. by destruct row as [|x [|y row]].
Qed.

(** A row of one element fills the slot. *)
Lemma np_setitem_row_broadcast (arr : list vec) index x n :
  index < length arr → Forall (fun r => length r = n) arr → n ≠ 1 →
  np_setitem_row arr index [x] = Ok (<[index := replicate n x]> arr).
Proof.
  intros Hi Hall Hn. unfold np_setitem_row.
  destruct (lookup_lt_is_Some_2 arr index Hi) as [old Hold]. rewrite Hold.
  pose proof (Forall_lookup_1 _ _ _ _ Hall Hold) as Hlen. simpl in Hlen.
  rewrite decide_False by (simpl; lia). by rewrite Hlen.
Qed.

Lemma np_setitem_row_inv (arr : list vec) index row arr' :
  np_setitem_row arr index row = Ok arr' →
  index < length arr ∧ ∃ row', arr' = <[index := row']> arr.
Proof.
  unfold np_setitem_row. destruct (arr !! index) as [old|] eqn:Hold; [|done].
  intros H. split; [by eapply lookup_lt_Some|].
  case_decide; [injection H as <-; by eexists|].
  destruct row as [|x [|y row]]; try done. injection H as <-. by eexists.
Qed.

Lemma py_mod_Ok a b : 0 < b → py_mod a b = Ok (a mod b).
Proof. intros H. unfold py_mod. rewrite decide_False; [done|lia]. Qed.

Lemma ReplayBuffer_init_wf N D A : buffer_wf (ReplayBuffer_init N D A).
Proof. unfold buffer_wf; simpl. by rewrite !length_replicate. Qed.

Lemma ReplayBuffer_init_rows N D A : 0 < N → buffer_rows (ReplayBuffer_init N D A) D A.
Proof.
  intros HN. split; [done|]. split; [apply ReplayBuffer_init_wf|].
  simpl. split_and!; apply Forall_replicate; unfold np_zeros; by rewrite length_replicate.
Qed.

(** One call of [store_transition] with rows of the dimensions of the
    buffer. *)
Lemma store_transition_Ok self D A s a r s' d :
  buffer_rows self D A → length s = D → length a = A → length s' = D →
  store_transition self s a r s' d =
    Ok {| mem_size := mem_size self;
          mem_cntr := mem_cntr self + 1;
          state_memory := <[mem_cntr self mod mem_size self := s]> (state_memory self);
          new_state_memory := <[mem_cntr self mod mem_size self := s']> (new_state_memory self);
          action_memory := <[mem_cntr self mod mem_size self := a]> (action_memory self);
          reward_memory := <[mem_cntr self mod mem_size self := r]> (reward_memory self);
          terminal_memory :=
            <[mem_cntr self mod mem_size self := one_minus d]> (terminal_memory self) |}.
Proof.
  intros (Hpos & (H1 & H2 & H3 & H4 & H5) & R1 & R2 & R3) Hs Ha Hs'.
  unfold store_transition.
  assert (mem_cntr self mod mem_size self < mem_size self) as Hlt
    by (apply Nat.mod_upper_bound; lia).
  rewrite py_mod_Ok by done. simpl.
  rewrite (np_setitem_row_Ok _ _ s D) by (done || lia). simpl.
  rewrite (np_setitem_row_Ok _ _ s' D) by (done || lia). simpl.
  rewrite (np_setitem_row_Ok _ _ a A) by (done || lia). simpl.
  rewrite !np_setitem_Ok by lia. done.
Qed.

(** A state that is neither of the dimension of the buffer nor of one
    element is refused by the first assignment. *)
Lemma store_transition_ValueError self D A s a r s' d :
  buffer_rows self D A → length s ≠ D → length s ≠ 1 →
  store_transition self s a r s' d = Raise ValueError.
Proof.
  intros (Hpos & (H1 & H2 & H3 & H4 & H5) & R1 & R2 & R3) Hs Hone.
  unfold store_transition.
  assert (mem_cntr self mod mem_size self < mem_size self) as Hlt
    by (apply Nat.mod_upper_bound; lia).
  rewrite py_mod_Ok by done. simpl.
  by rewrite (np_setitem_row_ValueError _ _ s D) by (done || lia).
Qed.

(** What a call of [store_transition] that returns has done: the rows
    written at the cursor are the rows given or their broadcasts. *)
Lemma store_transition_inv self s a r s' d self' :
  store_transition self s a r s' d = Ok self' →
  0 < mem_size self ∧
  mem_cntr self mod mem_size self < length (reward_memory self) ∧
  mem_cntr self mod mem_size self < length (terminal_memory self) ∧
  ∃ s1 s1' a1,
    self' = {| mem_size := mem_size self;
               mem_cntr := mem_cntr self + 1;
               state_memory := <[mem_cntr self mod mem_size self := s1]> (state_memory self);
               new_state_memory :=
                 <[mem_cntr self mod mem_size self := s1']> (new_state_memory self);
               action_memory := <[mem_cntr self mod mem_size self := a1]> (action_memory self);
               reward_memory := <[mem_cntr self mod mem_size self := r]> (reward_memory self);
               terminal_memory :=
                 <[mem_cntr self mod mem_size self := one_minus d]> (terminal_memory self) |}.
Proof.
  unfold store_transition, py_mod. intros H.
  case_decide as Hz; [done|]. simpl in H.
  apply bind_Ok in H as (sm & Hsm & H). apply bind_Ok in H as (nsm & Hnsm & H).
  apply bind_Ok in H as (am & Ham & H). apply bind_Ok in H as (rm & Hrm & H).
  apply bind_Ok in H as (tm & Htm & H). injection H as <-.
  apply np_setitem_row_inv in Hsm as (_ & s1 & ->).
  apply np_setitem_row_inv in Hnsm as (_ & s1' & ->).
  apply np_setitem_row_inv in Ham as (_ & a1 & ->).
  apply np_setitem_inv in Hrm as [Hr ->]. apply np_setitem_inv in Htm as [Ht ->].
  split_and!; [lia|done|done|]. by exists s1, s1', a1.
Qed.

Lemma store_transition_wf self s a r s' d self' :
  buffer_wf self → store_transition self s a r s' d = Ok self' → buffer_wf self'.
Proof.
  intros (H1 & H2 & H3 & H4 & H5) H.
  apply store_transition_inv in H as (_ & _ & _ & s1 & s1' & a1 & ->).
  unfold buffer_wf; simpl. by rewrite !length_insert.
Qed.

Lemma store_transition_rows self D A s a r s' d self' :
  buffer_rows self D A → length s = D → length a = A → length s' = D →
  store_transition self s a r s' d = Ok self' → buffer_rows self' D A.
Proof.
  intros Hrows Hs Ha Hs' H. rewrite (store_transition_Ok self D A) in H by done.
  injection H as <-. destruct Hrows as (Hpos & (H1 & H2 & H3 & H4 & H5) & R1 & R2 & R3).
  unfold buffer_rows, buffer_wf. simpl. rewrite !length_insert.
  split_and!; try done; by apply Forall_insert.
Qed.

Lemma slot_store_eq self D A s a r s' d self' :
  buffer_rows self D A → length s = D → length a = A → length s' = D →
  store_transition self s a r s' d = Ok self' →
  slot self' (mem_cntr self mod mem_size self) = Some (s, a, r, s', one_minus d).
Proof.
  intros Hrows Hs Ha Hs' H. rewrite (store_transition_Ok self D A) in H by done.
  injection H as <-. destruct Hrows as (Hpos & (H1 & H2 & H3 & H4 & H5) & _).
  assert (mem_cntr self mod mem_size self < mem_size self) as Hlt
    by (apply Nat.mod_upper_bound; lia).
  unfold slot; simpl. by rewrite !list_lookup_insert_eq by lia.
Qed.

Lemma slot_store_ne self s a r s' d self' i :
  store_transition self s a r s' d = Ok self' →
  i ≠ mem_cntr self mod mem_size self → slot self' i = slot self i.
Proof.
  intros H Hi. apply store_transition_inv in H as (_ & _ & _ & s1 & s1' & a1 & ->).
  unfold slot; simpl. by rewrite !list_lookup_insert_ne by done.
Qed.

Lemma store_transition_fields self s a r s' d self' :
  store_transition self s a r s' d = Ok self' →
  mem_size self' = mem_size self ∧ mem_cntr self' = mem_cntr self + 1.
Proof.
  intros H. by apply store_transition_inv in H as (_ & _ & _ & s1 & s1' & a1 & ->).
Qed.

Lemma store_all_app self ts t :
  store_all self (ts ++ [t]) = self' ← store_all self ts; store self' t.
Proof.
  revert self. induction ts as [|t' ts IH]; intros self; simpl.
  - by destruct (store self t).
  - destruct (store self t') as [self'|e]; simpl; [apply IH|done].
Qed.

Lemma mod_distinct k n N : k < n → n < k + N → k mod N ≠ n mod N.
Proof.
  intros Hk Hn Heq.
  assert (N ≠ 0) as HN by lia.
  pose proof (Nat.div_mod k N HN) as Dk.
  pose proof (Nat.div_mod n N HN) as Dn.
  pose proof (Nat.mod_upper_bound k N HN) as Bk.
  rewrite Heq in Dk.
  assert (k / N < n / N ∨ n / N ≤ k / N) as [Hlt|Hge] by lia; nia.
Qed.

Lemma latest_index n N i : i < n → i < N → ∃ k, k < n ∧ n ≤ k + N ∧ k mod N = i.
Proof.
  intros Hn HN.
  assert (N ≠ 0) as HN0 by lia.
  pose proof (Nat.div_mod (n - 1 - i) N HN0) as D.
  pose proof (Nat.mod_upper_bound (n - 1 - i) N HN0) as B.
  exists (i + (n - 1 - i) / N * N). repeat split.
  - nia.
  - nia.
  - rewrite Nat.Div0.mod_add. by apply Nat.mod_small.
Qed.

Lemma slot_init N D A i : i < N → slot (ReplayBuffer_init N D A) i = Some (empty_slot D A).
Proof.
  intros Hi. unfold slot, ReplayBuffer_init; simpl.
  by rewrite !lookup_replicate_2 by done.
Qed.

(** The state of a buffer of positive capacity after any sequence of
    insertions of transitions of its dimensions. *)
Lemma store_all_init N D A ts :
  0 < N → Forall (transition_fits D A) ts →
  ∃ b, store_all (ReplayBuffer_init N D A) ts = Ok b ∧
       buffer_wf b ∧ mem_size b = N ∧ mem_cntr b = length ts ∧
       (∀ k t, ts !! k = Some t → length ts ≤ k + N →
               slot b (k mod N) = Some (stored t)) ∧
       (∀ i, length ts ≤ i → i < N → slot b i = Some (empty_slot D A)) ∧
       buffer_rows b D A.
Proof.
  intros HN. induction ts as [|t ts IH] using rev_ind; intros Hfits.
  - exists (ReplayBuffer_init N D A). simpl. split_and!; try done.
    + apply ReplayBuffer_init_wf.
    + intros i _ Hi. by apply slot_init.
    + by apply ReplayBuffer_init_rows.
  - apply Forall_app in Hfits as [Hfits Ht]. apply Forall_singleton in Ht as (Fs & Fa & Fs').
    destruct (IH Hfits) as (b & Hb & Hwf & Hsize & Hcntr & Hrecent & Hfree & Hrows).
    rewrite store_all_app, Hb. simpl.
    destruct (store b t) as [b'|e] eqn:Hstore.
    2:{ unfold store in Hstore. rewrite (store_transition_Ok b D A) in Hstore by done.
        discriminate. }
    unfold store in Hstore.
    pose proof (store_transition_wf _ _ _ _ _ _ _ Hwf Hstore) as Hwf'.
    pose proof (store_transition_fields _ _ _ _ _ _ _ Hstore) as [Hsize' Hcntr'].
    pose proof (slot_store_eq _ D A _ _ _ _ _ _ Hrows Fs Fa Fs' Hstore) as Hnew.
    pose proof (store_transition_rows _ D A _ _ _ _ _ _ Hrows Fs Fa Fs' Hstore) as Hrows'.
    exists b'. rewrite length_app; simpl. split_and!; try done; try lia.
    + intros k t' Hk Hle.
      destruct (decide (k = length ts)) as [->|Hne].
      * rewrite list_lookup_middle in Hk by done. injection Hk as <-.
        by rewrite Hcntr, Hsize in Hnew.
      * assert (k < length ts) as Hlt.
        { apply lookup_lt_Some in Hk. rewrite length_app in Hk. simpl in Hk. lia. }
        rewrite lookup_app_l in Hk by done.
        rewrite (slot_store_ne _ _ _ _ _ _ _ _ Hstore).
        -- apply Hrecent; [done|lia].
        -- rewrite Hcntr, Hsize. apply mod_distinct; lia.
    + intros i Hi HiN.
      rewrite (slot_store_ne _ _ _ _ _ _ _ _ Hstore).
      * apply Hfree; lia.
      * rewrite Hcntr, Hsize. rewrite Nat.mod_small by lia. lia.
Qed.

(** C4 (as amended).  On a buffer of capacity [N ≥ 1], built by the
    constructor for states of dimension [D] and actions of dimension
    [A] and filled by any sequence [ts] of insertions of transitions of
    these dimensions:
    - every insertion succeeds and the counter is the number of insertions;
    - a further call of [store_transition] with rows of these dimensions
      succeeds, writes its five values (the last one as [1 - done]) into
      slot [mem_cntr mod N], leaves the other slots alone and adds one
      to the counter;
    - a further call with a state of another length, one element
      apart, raises [ValueError];
    - the [k]-th transition is in slot [k mod N] as long as fewer than
      [N] insertions followed it, and is replaced by a later one after that;
    - the slots below [min (length ts) N] hold exactly the last
      [min (length ts) N] transitions, the others are still zero. *)
Theorem store_transition_circular (N D A : nat) (ts : list Transition) :
  0 < N → Forall (transition_fits D A) ts →
  ∃ b, store_all (ReplayBuffer_init N D A) ts = Ok b ∧
       mem_size b = N ∧ mem_cntr b = length ts ∧
       (∀ s a r s' d,
          length s = D → length a = A → length s' = D →
          ∃ b', store_transition b s a r s' d = Ok b' ∧
                mem_size b' = N ∧ mem_cntr b' = mem_cntr b + 1 ∧
                slot b' (mem_cntr b mod N) = Some (s, a, r, s', one_minus d) ∧
                ∀ i, i ≠ mem_cntr b mod N → slot b' i = slot b i) ∧
       (∀ s a r s' d,
          length s ≠ D → length s ≠ 1 →
          store_transition b s a r s' d = Raise ValueError) ∧
       (∀ k t, ts !! k = Some t → length ts ≤ k + N →
               slot b (k mod N) = Some (stored t)) ∧
       (∀ k, k + N < length ts →
             ∃ k' t', k < k' ∧ ts !! k' = Some t' ∧
                      slot b (k mod N) = Some (stored t')) ∧
       (∀ i, i < min (length ts) N →
             ∃ k t, ts !! k = Some t ∧ length ts ≤ k + N ∧ k mod N = i ∧
                    slot b i = Some (stored t)) ∧
       (∀ i, min (length ts) N ≤ i → i < N → slot b i = Some (empty_slot D A)).
Proof.
  intros HN Hfits.
  destruct (store_all_init N D A ts HN Hfits)
    as (b & Hb & Hwf & Hsize & Hcntr & Hrecent & Hfree & Hrows).
  assert (∀ i, i < length ts → i < N →
               ∃ k t, ts !! k = Some t ∧ length ts ≤ k + N ∧ k mod N = i ∧
                      slot b i = Some (stored t)) as Hocc.
  { intros i Hi HiN.
    destruct (latest_index (length ts) N i Hi HiN) as (k & Hk & Hle & Hmod).
    destruct (lookup_lt_is_Some_2 ts k Hk) as [t Ht].
    exists k, t. split_and!; try done. rewrite <- Hmod. by apply Hrecent. }
  exists b. split_and!; try done.
  - intros s a r s' d Hs Ha Hs'.
    destruct (store_transition b s a r s' d) as [b'|e] eqn:Hstore.
    2:{ rewrite (store_transition_Ok b D A) in Hstore by done. discriminate. }
    pose proof (store_transition_fields _ _ _ _ _ _ _ Hstore) as [Hsize' Hcntr'].
    exists b'. split_and!; try done; try lia.
    + rewrite <- Hsize. by apply (slot_store_eq b D A).
    + intros i Hi. apply (slot_store_ne _ _ _ _ _ _ _ _ Hstore). by rewrite Hsize.
  - intros s a r s' d Hs Hone. by apply (store_transition_ValueError b D A).
  - intros k Hk.
    assert (k mod N < N) as HkN by (apply Nat.mod_upper_bound; lia).
    destruct (Hocc (k mod N)) as (k' & t' & Ht' & Hle & Hmod & Hslot); [lia|done|].
    exists k', t'. split_and!; try done. lia.
  - intros i Hi. apply Hocc; lia.
  - intros i Hi HiN. apply Hfree; lia.
Qed.

Lemma np_random_choice_Ok rand a size batch :
  np_random_choice rand a size = Ok batch →
  length batch = size ∧ Forall (fun i => i < a) batch.
Proof.
  unfold np_random_choice. case_decide as Hc; [done|].
  intros [= <-]. split.
  - by rewrite length_map, length_seq.
  - apply Forall_forall. intros i Hi. apply list_elem_of_fmap in Hi as (j & -> & Hj).
    unfold index_of_raw. apply Nat.mod_upper_bound. intros ->. destruct size; [|lia].
    simpl in Hj. by apply elem_of_nil in Hj.
Qed.

(** Every array of [size] indices below [a] is an outcome of
    [np.random.choice(a, size)], equal indices included. *)
Lemma np_random_choice_any a size batch :
  length batch = size → Forall (fun i => i < a) batch →
  ∃ rand, np_random_choice rand a size = Ok batch.
Proof.
  intros Hlen Hall. exists (fun j => nth j batch 0).
  unfold np_random_choice. rewrite decide_False.
  2:{ intros [-> Hs]. destruct batch; [done|].
      apply Forall_cons in Hall as [Hlt _]. lia. }
  f_equal. subst size. apply list_eq. intros j.
  rewrite list_lookup_fmap.
  destruct (decide (j < length batch)) as [Hj|Hj].
  - rewrite lookup_seq_lt by done. simpl.
    destruct (lookup_lt_is_Some_2 batch j Hj) as [i Hi]. rewrite Hi.
    rewrite (nth_lookup_Some _ _ _ _ Hi). f_equal.
    unfold index_of_raw. apply Nat.mod_small. by eapply (Forall_lookup_1 _ _ _ _ Hall).
  - rewrite lookup_seq_ge by lia. simpl. symmetry. apply lookup_ge_None. lia.
Qed.

(** Element [j] of the draw is decided by the [j]-th raw output alone. *)
Lemma np_random_choice_independent rand rand' a size batch batch' j :
  np_random_choice rand a size = Ok batch →
  np_random_choice rand' a size = Ok batch' →
  rand j = rand' j → batch !! j = batch' !! j.
Proof.
  unfold np_random_choice. case_decide; [done|].
  intros [= <-] [= <-] Hj. rewrite !list_lookup_fmap.
  destruct (seq 0 size !! j) as [k|] eqn:Hk; [|done]. simpl.
  apply lookup_seq in Hk as [-> _]. simpl. by rewrite Hj.
Qed.

Lemma filter_mod_block (a i q n s : nat) :
  i < a → q * a ≤ s → s + n ≤ q * a + a →
  length (filter (fun r => index_of_raw a r = i) (seq s n))
  = if decide (s ≤ q * a + i < s + n) then 1 else 0.
Proof.
  intros Hi. revert s. induction n as [|n IH]; intros s Hlo Hhi.
  - simpl. rewrite decide_False; [done|lia].
  - assert (index_of_raw a s = s - q * a) as Hmod.
    { unfold index_of_raw. replace s with (s - q * a + q * a) at 1 by lia.
      rewrite Nat.Div0.mod_add. apply Nat.mod_small. lia. }
    simpl. destruct (decide (index_of_raw a s = i)) as [Heq|Hne].
    + rewrite filter_cons_True by done. simpl. rewrite IH by lia.
      rewrite decide_False by lia. rewrite decide_True by lia. done.
    + rewrite filter_cons_False by done. rewrite IH by lia.
      destruct (decide (S s ≤ q * a + i < S s + n)).
      * rewrite decide_True by lia. done.
      * rewrite decide_False by lia. done.
Qed.

(** Every index of [0, a) stands for the same number of raw outputs:
    [m] of the first [a * m]. *)
Lemma index_of_raw_fibres (a m i : nat) :
  i < a → length (filter (fun r => index_of_raw a r = i) (seq 0 (a * m))) = m.
Proof.
  intros Hi. induction m as [|m IH].
  - by rewrite Nat.mul_0_r.
  - replace (a * S m) with (a * m + a) by lia.
    rewrite seq_app, filter_app, length_app, IH. simpl.
    rewrite (filter_mod_block a i m a (a * m)) by lia.
    rewrite decide_True by lia. lia.
Qed.

Lemma np_take_Ok_lookup {A} (arr : list A) batch r j i :
  np_take arr batch = Ok r → batch !! j = Some i →
  is_Some (arr !! i) ∧ r !! j = arr !! i.
Proof.
  intros H Hj. destruct (traverse_Ok_lookup _ _ _ _ _ H Hj) as (y & Hy & Hf).
  destruct (arr !! i); [|done]. injection Hf as ->. by split; [eexists|].
Qed.

Lemma np_take_succeeds {A} (arr : list A) batch :
  Forall (fun i => i < length arr) batch → succeeds (np_take arr batch).
Proof.
  intros H. apply traverse_succeeds. eapply Forall_impl; [exact H|].
  intros i Hi; simpl. destruct (lookup_lt_is_Some_2 arr i Hi) as [x ->]. by eexists.
Qed.

Lemma sample_buffer_inv rand self batch_size b self' :
  sample_buffer rand self batch_size = Ok (b, self') →
  self' = self ∧
  ∃ batch,
    np_random_choice rand (min (mem_cntr self) (mem_size self)) batch_size = Ok batch ∧
    np_take (state_memory self) batch = Ok (b_states b) ∧
    np_take (action_memory self) batch = Ok (b_actions b) ∧
    np_take (reward_memory self) batch = Ok (b_rewards b) ∧
    np_take (new_state_memory self) batch = Ok (b_states_ b) ∧
    np_take (terminal_memory self) batch = Ok (b_terminal b).
Proof.
  unfold sample_buffer. intros H. bind_inv H. injection H as <- <-.
  split; [done|]. exists a. by simpl.
Qed.

Lemma sample_buffer_succeeds rand self batch_size :
  buffer_wf self →
  0 < min (mem_cntr self) (mem_size self) ∨ batch_size = 0 →
  ∃ b, sample_buffer rand self batch_size = Ok (b, self).
Proof.
  intros (H1 & H2 & H3 & H4 & H5) Hpos.
  destruct (np_random_choice rand (min (mem_cntr self) (mem_size self)) batch_size)
    as [batch|e] eqn:Hbatch.
  2:{ unfold np_random_choice in Hbatch. case_decide; [lia|done]. }
  pose proof (np_random_choice_Ok _ _ _ _ Hbatch) as [Hlen Hall].
  assert (∀ {A} (arr : list A), length arr = mem_size self → succeeds (np_take arr batch))
    as Htake.
  { intros A arr Harr. apply np_take_succeeds. eapply Forall_impl; [exact Hall|].
    simpl. lia. }
  destruct (Htake _ _ H1) as [s Hs]. destruct (Htake _ _ H2) as [s' Hs'].
  destruct (Htake _ _ H3) as [a Ha]. destruct (Htake _ _ H4) as [r Hr].
  destruct (Htake _ _ H5) as [t Ht].
  eexists. unfold sample_buffer. rewrite Hbatch. simpl.
  rewrite Hs, Ha, Hr, Hs', Ht. simpl. reflexivity.
Qed.

Lemma raw_outputs_length (m n : nat) (rs : list nat) :
  rs ∈ raw_outputs m n → length rs = n.
Proof.
  revert rs. induction n as [|n IH]; intros rs Hin; simpl in Hin.
  - apply list_elem_of_singleton in Hin. by subst.
  - apply list_elem_of_bind in Hin as (r & Hin & _).
    apply list_elem_of_fmap in Hin as (rs' & -> & Hin). simpl. f_equal. by apply IH.
Qed.

(** What [np.random.choice] returns on given raw outputs. *)
Lemma np_random_choice_generator (rs : list nat) (a : nat) :
  0 < a ∨ rs = [] →
  np_random_choice (generator rs) a (length rs) = Ok (index_of_raw a <$> rs).
Proof.
  intros Ha. unfold np_random_choice.
  rewrite decide_False by (destruct Ha as [?| ->]; simpl; lia).
  f_equal. apply list_eq. intros j. rewrite !list_lookup_fmap.
  destruct (decide (j < length rs)) as [Hj|Hj].
  - rewrite lookup_seq_lt by done. simpl.
    destruct (lookup_lt_is_Some_2 rs j Hj) as [r Hr]. rewrite Hr. simpl.
    unfold generator. by rewrite (nth_lookup_Some _ _ _ _ Hr).
  - rewrite lookup_seq_ge by lia. simpl.
    rewrite (proj2 (lookup_ge_None rs j)) by lia. done.
Qed.

Lemma length_filter_ext_in {A} (P Q : A → Prop) `{∀ x, Decision (P x)} `{∀ x, Decision (Q x)}
    (l : list A) :
  (∀ x, x ∈ l → P x ↔ Q x) → length (filter P l) = length (filter Q l).
Proof.
  induction l as [|x l IH]; intros Hext; [done|].
  assert (P x ↔ Q x) as Hx by (apply Hext, list_elem_of_here).
  assert (length (filter P l) = length (filter Q l)) as Hl.
  { apply IH. intros y Hy. by apply Hext, list_elem_of_further. }
  destruct (decide (P x)) as [HP|HP].
  - rewrite !filter_cons_True by tauto. simpl. by rewrite Hl.
  - rewrite !filter_cons_False by tauto. done.
Qed.

Lemma filter_cons_head (f : nat → nat) (i : nat) (batch : list nat) (r : nat)
    (X : list (list nat)) :
  length (filter (fun rs => f <$> rs = i :: batch) (cons r <$> X))
  = if decide (f r = i) then length (filter (fun rs => f <$> rs = batch) X) else 0.
Proof.
  induction X as [|rs X IH]; [by case_decide|].
  rewrite fmap_cons. destruct (decide (f <$> (r :: rs) = i :: batch)) as [H|H].
  - rewrite filter_cons_True by done. rewrite fmap_cons in H. injection H as Hr Hrs.
    rewrite (filter_cons_True (fun rs => f <$> rs = batch)) by done.
    simpl. rewrite IH. by rewrite !decide_True by done.
  - rewrite filter_cons_False by done. rewrite IH. case_decide as Hr; [|done].
    rewrite filter_cons_False; [done|]. intros Hrs. apply H.
    rewrite fmap_cons. by rewrite Hr, Hrs.
Qed.

Lemma filter_cons_fibres (f : nat → nat) (i : nat) (batch : list nat) (l : list nat)
    (X : list (list nat)) :
  length (filter (fun rs => f <$> rs = i :: batch) (r ← l; cons r <$> X))
  = length (filter (fun r => f r = i) l) * length (filter (fun rs => f <$> rs = batch) X).
Proof.
  induction l as [|r l IHl]; [done|].
  rewrite bind_cons, filter_app, length_app, IHl, filter_cons_head. clear IHl.
  destruct (decide (f r = i)) as [Hr|Hr].
  - rewrite (filter_cons_True (fun r => f r = i)) by done. simpl. lia.
  - by rewrite (filter_cons_False (fun r => f r = i)) by done.
Qed.

(** The sequences of raw outputs that stand for a given array of
    indices: as many for one array as for any other. *)
Lemma raw_outputs_fibres (a m : nat) (batch : list nat) :
  Forall (fun i => i < a) batch →
  length (filter (fun rs => index_of_raw a <$> rs = batch)
                 (raw_outputs (a * m) (length batch)))
  = m ^ length batch.
Proof.
  induction 1 as [|i batch Hi _ IH]; [reflexivity|].
  simpl. by rewrite filter_cons_fibres, index_of_raw_fibres, IH.
Qed.

(** Uniform raw outputs give uniform draws: of the sequences of
    [size] raw outputs below [a * m], as many make
    [np.random.choice(a, size)] return one array of indices as any
    other. *)
Lemma np_random_choice_uniform (a m size : nat) (batch : list nat) :
  length batch = size → Forall (fun i => i < a) batch →
  length (filter (fun rs => np_random_choice (generator rs) a size = Ok batch)
                 (raw_outputs (a * m) size))
  = m ^ size.
Proof.
  intros <- Hall. rewrite <- (raw_outputs_fibres a m batch Hall).
  apply length_filter_ext_in. intros rs Hrs.
  apply raw_outputs_length in Hrs. rewrite <- Hrs.
  rewrite np_random_choice_generator.
  - split; [by intros [= ->]|by intros ->].
  - destruct batch as [|i batch]; [right; by destruct rs|].
    left. apply Forall_cons in Hall as [Hi _]. lia.
Qed.

Lemma raw_outputs_count (m n : nat) : length (raw_outputs m n) = m ^ n.
Proof.
  induction n as [|n IH]; [done|].
  assert (∀ (l : list nat) (X : list (list nat)),
            length (r ← l; cons r <$> X) = length l * length X) as Hprod.
  { intros l X. induction l as [|r l IHl]; [done|].
    rewrite bind_cons, length_app, length_fmap, IHl. simpl. lia. }
  simpl. by rewrite Hprod, length_seq, IH.
Qed.

(** C5.  On a buffer whose arrays have the constructor's length,
    [sample_buffer(batch_size)]
    - raises when nothing was inserted and [batch_size] is not zero;
    - otherwise (something was inserted, or no sample is asked for, in
      which case nothing is drawn) returns five arrays of length
      [batch_size], row [j] of each being row [batch[j]] of the matching
      memory array for the one array [batch] of indices that
      [np.random.choice] returned, all below [min(mem_cntr, mem_size)],
      so below [mem_cntr];
    - can draw every such array of indices, repeated indices included:
      the draws are made with replacement and from the whole range;
    - decides each index by one raw output of the generator alone:
      the draws are independent;
    - draws uniformly: of the [(max_mem * m) ^ batch_size] sequences of
      [batch_size] raw outputs below [max_mem * m], exactly
      [m ^ batch_size] make [np.random.choice] return a given array of
      indices, as many for one array as for any other. *)
Theorem sample_buffer_draws (rand : nat → nat) (self : ReplayBuffer) (batch_size : nat) :
  buffer_wf self →
  let max_mem := min (mem_cntr self) (mem_size self) in
  (mem_cntr self = 0 → batch_size ≠ 0 →
     sample_buffer rand self batch_size = Raise ValueError) ∧
  (0 < max_mem ∨ batch_size = 0 →
     ∃ batch b,
       np_random_choice rand max_mem batch_size = Ok batch ∧
       sample_buffer rand self batch_size = Ok (b, self) ∧
       length batch = batch_size ∧
       Forall (fun i => i < max_mem ∧ i < mem_cntr self) batch ∧
       length (b_states b) = batch_size ∧ length (b_actions b) = batch_size ∧
       length (b_rewards b) = batch_size ∧ length (b_states_ b) = batch_size ∧
       length (b_terminal b) = batch_size ∧
       ∀ j i, batch !! j = Some i →
              is_Some (slot self i) ∧
              b_states b !! j = state_memory self !! i ∧
              b_actions b !! j = action_memory self !! i ∧
              b_rewards b !! j = reward_memory self !! i ∧
              b_states_ b !! j = new_state_memory self !! i ∧
              b_terminal b !! j = terminal_memory self !! i) ∧
  (∀ batch, length batch = batch_size → Forall (fun i => i < max_mem) batch →
            ∃ rand' b, np_random_choice rand' max_mem batch_size = Ok batch ∧
                       sample_buffer rand' self batch_size = Ok (b, self)) ∧
  (∀ rand' batch batch' j,
     np_random_choice rand max_mem batch_size = Ok batch →
     np_random_choice rand' max_mem batch_size = Ok batch' →
     rand j = rand' j → batch !! j = batch' !! j) ∧
  (∀ m batch, length batch = batch_size → Forall (fun i => i < max_mem) batch →
     length (raw_outputs (max_mem * m) batch_size) = (max_mem * m) ^ batch_size ∧
     length (filter (fun rs => np_random_choice (generator rs) max_mem batch_size = Ok batch)
                    (raw_outputs (max_mem * m) batch_size))
     = m ^ batch_size).
Proof.
  intros Hwf max_mem. split_and!.
  - intros Hz Hb. unfold sample_buffer, np_random_choice.
    rewrite decide_True; [done|]. split; [lia|done].
  - intros Hpos.
    destruct (sample_buffer_succeeds rand self batch_size Hwf Hpos) as [b Hb].
    destruct (sample_buffer_inv _ _ _ _ _ Hb)
      as (_ & batch & Hbatch & Hs & Ha & Hr & Hs' & Ht).
    pose proof (np_random_choice_Ok _ _ _ _ Hbatch) as [Hlen Hall].
    exists batch, b. split_and!; try done.
    + eapply Forall_impl; [exact Hall|]. simpl. lia.
    + rewrite <- Hlen. eapply traverse_Ok_length, Hs.
    + rewrite <- Hlen. eapply traverse_Ok_length, Ha.
    + rewrite <- Hlen. eapply traverse_Ok_length, Hr.
    + rewrite <- Hlen. eapply traverse_Ok_length, Hs'.
    + rewrite <- Hlen. eapply traverse_Ok_length, Ht.
    + intros j i Hj.
      destruct (np_take_Ok_lookup _ _ _ _ _ Hs Hj) as [[x1 E1] L1].
      destruct (np_take_Ok_lookup _ _ _ _ _ Ha Hj) as [[x2 E2] L2].
      destruct (np_take_Ok_lookup _ _ _ _ _ Hr Hj) as [[x3 E3] L3].
      destruct (np_take_Ok_lookup _ _ _ _ _ Hs' Hj) as [[x4 E4] L4].
      destruct (np_take_Ok_lookup _ _ _ _ _ Ht Hj) as [[x5 E5] L5].
      split_and!; try done. unfold slot. rewrite E1, E2, E3, E4, E5. by eexists.
  - intros batch Hlen Hall.
    destruct (np_random_choice_any max_mem batch_size batch Hlen Hall) as [rand' Hr].
    destruct (sample_buffer_succeeds rand' self batch_size Hwf) as [b Hb].
    + destruct batch as [|i batch]; [right; by subst|].
      left. apply Forall_cons in Hall as [Hi _]. unfold max_mem in Hi. lia.
    + by exists rand', b.
  - intros rand' batch batch' j. apply np_random_choice_independent.
  - intros m batch Hlen Hall. split; [apply raw_outputs_count|].
    by apply np_random_choice_uniform.
Qed.

(** ** Agent *)

Section AgentProperties.

Context {Optim : Type}.
Variable critic_update :
  Optim → list (string * tensor) → list vec → list vec → list vec →
  list (string * tensor) * Optim.
Variable actor_update :
  Optim → list (string * tensor) → list (string * tensor) → list vec →
  list (string * tensor) * Optim.

Lemma update_network_parameters_inv (self : @Agent Optim) tau_arg self' :
  update_network_parameters self tau_arg = Ok self' →
  ∃ h, self' = set_params self h.
Proof.
  unfold update_network_parameters. intros H. bind_inv H. injection H as <-. eauto.
Qed.

(** What a call of [learn] that passes the guard has computed. *)
Lemma learn_inv rand (self self' : @Agent Optim) :
  learn critic_update actor_update rand self = Ok self' →
  ¬ mem_cntr (memory self) < batch_size self →
  ∃ b target_actions critic_value_ critic_value td target,
    sample_buffer rand (memory self) (batch_size self) = Ok (b, memory self) ∧
    traverse (ActorNetwork_forward (params self) (eval (target_actor self)))
             (b_states_ b) = Ok target_actions ∧
    traverse (fun '(s, a) =>
                CriticNetwork_forward (params self) (eval (target_critic self)) s a)
             (zip (b_states_ b) target_actions) = Ok critic_value_ ∧
    traverse (fun '(s, a) =>
                CriticNetwork_forward (params self) (eval (critic self)) s a)
             (zip (b_states b) (b_actions b)) = Ok critic_value ∧
    td_target (gamma self) (b_rewards b) critic_value_ (b_terminal b) (batch_size self)
      = Ok td ∧
    view_column td (batch_size self) = Ok target ∧
    critic_loss self' = Some (mse_loss target critic_value) ∧
    is_Some (actor_loss self') ∧
    memory self' = memory self.
Proof.
  unfold learn. intros H Hfull. rewrite decide_False in H by done.
  apply bind_Ok in H as ([b m] & Hsample & H).
  apply sample_buffer_inv in Hsample as Hs. destruct Hs as [-> _].
  apply bind_Ok in H as (target_actions & Hta & H).
  apply bind_Ok in H as (critic_value_ & Hcv_ & H).
  apply bind_Ok in H as (critic_value & Hcv & H).
  apply bind_Ok in H as (td & Htd & H).
  apply bind_Ok in H as (target & Htarget & H).
  apply bind_Ok in H as (cvals & Hcvals & H).
  destruct (critic_update _ _ _ _ _) as [new o].
  apply bind_Ok in H as (mu & _ & H).
  apply bind_Ok in H as (q & _ & H).
  apply bind_Ok in H as (avals & _ & H).
  apply bind_Ok in H as (cvals' & _ & H).
  destruct (actor_update _ _ _ _) as [new' o'].
  apply update_network_parameters_inv in H as [h ->].
  exists b, target_actions, critic_value_, critic_value, td, target.
  split_and!; done.
Qed.

Lemma td_target_Ok (g : R) (reward : list R) (critic_value_ : list vec)
    (done : list bool) (n : nat) :
  length reward = n → length critic_value_ = n → length done = n →
  ∃ target, td_target g reward critic_value_ done n = Ok target.
Proof.
  intros H1 H2 H3. apply traverse_succeeds, Forall_forall. intros j Hj.
  apply elem_of_seq in Hj as [_ Hj]. simpl in Hj.
  destruct (lookup_lt_is_Some_2 reward j) as [r ->]; [lia|].
  destruct (lookup_lt_is_Some_2 critic_value_ j) as [q ->]; [lia|].
  destruct (lookup_lt_is_Some_2 done j) as [d ->]; [lia|].
  by eexists.
Qed.

Lemma td_target_lookup (g : R) (reward : list R) (critic_value_ : list vec)
    (done : list bool) (n : nat) target j r q c :
  td_target g reward critic_value_ done n = Ok target →
  j < n → reward !! j = Some r → critic_value_ !! j = Some [q] → done !! j = Some c →
  target !! j = Some [(r + g * q * int c)%R].
Proof.
  intros H Hj Hr Hq Hc.
  destruct (traverse_Ok_lookup _ _ _ j j H) as (y & Hy & Hf).
  { by apply lookup_seq_lt. }
  rewrite Hr, Hq, Hc in Hf. simpl in Hf. by injection Hf as <-.
Qed.

(** C1.  The flag the buffer stores for a transition is [1 - done];
    [learn], past its guard, samples a batch, runs the target actor on
    the sampled next states and the target critic on these states and
    actions, and computes for every sample [j] of the batch
    [reward[j] + gamma * critic_value_[j] * int(done[j])] from the
    sampled reward, the sampled flag (the one the buffer stored at the
    drawn index) and that output of the target critic: the reward
    itself when the stored flag is that of a terminal transition, the
    reward plus [gamma * critic_value_[j]] otherwise; and the critic
    loss [learn] records is the mean squared error between this target
    and the values of the critic on the sampled states and actions. *)
Theorem td_target_law :
  (∀ self s a r s' d self',
     buffer_wf self → store_transition self s a r s' d = Ok self' →
     reward_memory self' !! (mem_cntr self mod mem_size self) = Some r ∧
     terminal_memory self' !! (mem_cntr self mod mem_size self) = Some (one_minus d) ∧
     int (one_minus d) = (if d then 0 else 1)%R) ∧
  (∀ (g : R) reward critic_value_ done n,
     length reward = n → length critic_value_ = n → length done = n →
     ∃ target,
       td_target g reward critic_value_ done n = Ok target ∧
       length target = n ∧
       ∀ j r q d,
         reward !! j = Some r → critic_value_ !! j = Some [q] →
         done !! j = Some (one_minus d) →
         target !! j = Some [(r + g * q * int (one_minus d))%R] ∧
         (d = true → target !! j = Some [r]) ∧
         (d = false → target !! j = Some [(r + g * q)%R])) ∧
  (∀ rand (self self' : @Agent Optim),
     learn critic_update actor_update rand self = Ok self' →
     ¬ mem_cntr (memory self) < batch_size self →
     ∃ batch b target_actions critic_value_ critic_value target,
       np_random_choice rand (min (mem_cntr (memory self)) (mem_size (memory self)))
                        (batch_size self) = Ok batch ∧
       sample_buffer rand (memory self) (batch_size self) = Ok (b, memory self) ∧
       (∀ j i, batch !! j = Some i →
               b_rewards b !! j = reward_memory (memory self) !! i ∧
               b_terminal b !! j = terminal_memory (memory self) !! i ∧
               b_states_ b !! j = new_state_memory (memory self) !! i) ∧
       traverse (ActorNetwork_forward (params self) (eval (target_actor self)))
                (b_states_ b) = Ok target_actions ∧
       traverse (fun '(s, a) =>
                   CriticNetwork_forward (params self) (eval (target_critic self)) s a)
                (zip (b_states_ b) target_actions) = Ok critic_value_ ∧
       traverse (fun '(s, a) =>
                   CriticNetwork_forward (params self) (eval (critic self)) s a)
                (zip (b_states b) (b_actions b)) = Ok critic_value ∧
       td_target (gamma self) (b_rewards b) critic_value_ (b_terminal b)
                 (batch_size self) = Ok target ∧
       length target = batch_size self ∧
       (∀ j r q d,
          b_rewards b !! j = Some r → critic_value_ !! j = Some [q] →
          b_terminal b !! j = Some (one_minus d) →
          target !! j = Some [(r + gamma self * q * int (one_minus d))%R] ∧
          (d = true → target !! j = Some [r]) ∧
          (d = false → target !! j = Some [(r + gamma self * q)%R])) ∧
       critic_loss self' =
         Some (mse_loss (map (fun x => [x]) (concat target)) critic_value)).
Proof.
  assert (∀ (g : R) reward critic_value_ done n target,
            td_target g reward critic_value_ done n = Ok target →
            ∀ j r q d,
              j < n → reward !! j = Some r → critic_value_ !! j = Some [q] →
              done !! j = Some (one_minus d) →
              target !! j = Some [(r + g * q * int (one_minus d))%R] ∧
              (d = true → target !! j = Some [r]) ∧
              (d = false → target !! j = Some [(r + g * q)%R])) as Hrow.
  { intros g reward critic_value_ done n target Ht j r q d Hj Hr Hq Hd.
    pose proof (td_target_lookup _ _ _ _ _ _ _ _ _ _ Ht Hj Hr Hq Hd) as Hjt.
    split_and!; try done.
    - intros ->. rewrite Hjt. simpl. do 2 f_equal. lra.
    - intros ->. rewrite Hjt. simpl. do 2 f_equal. lra. }
  split_and!.
  - intros self s a r s' d self' Hwf Hstore.
    apply store_transition_inv in Hstore as (_ & Hr & Ht & s1 & s1' & a1 & ->). simpl.
    rewrite !list_lookup_insert_eq by done. by destruct d.
  - intros g reward critic_value_ done n H1 H2 H3.
    destruct (td_target_Ok g reward critic_value_ done n H1 H2 H3) as [target Ht].
    exists target. split_and!; try done.
    + rewrite (traverse_Ok_length _ _ _ Ht). apply length_seq.
    + intros j r q d Hr Hq Hd. apply (Hrow _ _ _ _ _ _ Ht); try done.
      apply lookup_lt_Some in Hr. lia.
  - intros rand self self' Hlearn Hfull.
    destruct (learn_inv _ _ _ Hlearn Hfull)
      as (b & ta & cv_ & cv & td & target & Hs & Hta & Hcv_ & Hcv & Htd & Hview & Hloss & _).
    destruct (sample_buffer_inv _ _ _ _ _ Hs) as (_ & batch & Hbatch & _ & _ & Tr & Ts_ & Tt).
    destruct (np_random_choice_Ok _ _ _ _ Hbatch) as [Lbatch _].
    exists batch, b, ta, cv_, cv, td. split_and!; try done.
    + intros j i Hj. split_and!; by eapply np_take_Ok_lookup.
    + rewrite (traverse_Ok_length _ _ _ Htd). apply length_seq.
    + intros j r q d Hr Hq Hd. apply (Hrow _ _ _ _ _ _ Htd); try done.
      apply lookup_lt_Some in Hr. rewrite (traverse_Ok_length _ _ _ Tr) in Hr. lia.
    + unfold view_column in Hview. case_decide; [|done]. by injection Hview as <-.
Qed.

(** C3.  Below the batch size [learn] returns at once: the agent after
    the call is the agent before it, whatever the random generator
    would have drawn; its buffer, its parameters, the state of its
    optimisers and its recorded losses are those of before. *)
Theorem learn_underfilled (rand : nat → nat) (self : @Agent Optim) :
  mem_cntr (memory self) < batch_size self →
  learn critic_update actor_update rand self = Ok self.
Proof. intros H. unfold learn. by rewrite decide_True. Qed.

(** C10.  [sample_buffer] hands back the buffer it was given, and the
    buffer of the agent after [learn] is the buffer before it. *)
Theorem buffer_unchanged :
  (∀ rand self batch_size b self',
     sample_buffer rand self batch_size = Ok (b, self') →
     self' = self ∧
     mem_cntr self' = mem_cntr self ∧
     state_memory self' = state_memory self ∧
     new_state_memory self' = new_state_memory self ∧
     action_memory self' = action_memory self ∧
     reward_memory self' = reward_memory self ∧
     terminal_memory self' = terminal_memory self) ∧
  (∀ rand (self self' : @Agent Optim),
     learn critic_update actor_update rand self = Ok self' →
     memory self' = memory self).
Proof.
  split.
  - intros rand self batch_size b self' H.
    apply sample_buffer_inv in H as [-> _]. by split_and!.
  - intros rand self self' H.
    destruct (decide (mem_cntr (memory self) < batch_size self)) as [Hlt|Hge].
    + unfold learn in H. rewrite decide_True in H by done. by injection H as <-.
    + destruct (learn_inv _ _ _ H Hge) as (b & ta & cv_ & cv & td & target & Hrest).
      apply Hrest.
Qed.

End AgentProperties.

(** ** Networks *)

Lemma tanh_bounds (x : R) : (-1 < tanh x < 1)%R.
Proof.
  unfold tanh, sinh, cosh.
  pose proof (exp_pos x) as Hp. pose proof (exp_pos (- x)) as Hn.
  replace ((exp x - exp (- x)) / 2 / ((exp x + exp (- x)) / 2))%R
    with ((exp x - exp (- x)) / (exp x + exp (- x)))%R by (field; lra).
  split.
  - apply Rmult_lt_reg_r with (exp x + exp (- x))%R; [lra|]. field_simplify; lra.
  - apply Rmult_lt_reg_r with (exp x + exp (- x))%R; [lra|]. field_simplify; lra.
Qed.

Lemma numel_1 n : numel [n] = n.
Proof. unfold numel; simpl. lia. Qed.

Lemma F_linear_Ok x W b out inp :
  shape W = [out; inp] → shape b = [out] → tensor_wf b → length x = inp →
  ∃ y, F_linear x W b = Ok y ∧ length y = out.
Proof.
  intros HW Hb Hwf Hx. unfold F_linear. rewrite HW.
  rewrite decide_True by done. eexists; split; [done|].
  rewrite length_zip_with, length_map, length_seq.
  unfold tensor_wf in Hwf. rewrite Hwf, Hb, numel_1. lia.
Qed.

Lemma F_layer_norm_Ok x w b n :
  shape w = [n] → shape b = [n] → tensor_wf w → tensor_wf b → length x = n →
  ∃ y, F_layer_norm x w b = Ok y ∧ length y = n.
Proof.
  intros Hw Hb Hwfw Hwfb Hx. unfold F_layer_norm.
  rewrite decide_True by (by rewrite Hx). eexists; split; [done|].
  rewrite !length_zip_with, length_map.
  unfold tensor_wf in *. rewrite Hwfw, Hwfb, Hw, Hb, numel_1. lia.
Qed.

Section NetworkProperties.

Context {Optim : Type}.
Implicit Types self : @Network Optim.

Lemma Linear_forward_Ok h self layer x out inp :
  has_parameter h self (layer +:+ ".weight") [out; inp] →
  has_parameter h self (layer +:+ ".bias") [out] →
  length x = inp →
  ∃ y, Linear_forward h self layer x = Ok y ∧ length y = out.
Proof.
  intros (W & HW & HWs & _) (b & Hb & Hbs & Hbwf) Hx.
  unfold Linear_forward. rewrite HW, Hb. simpl. by eapply F_linear_Ok.
Qed.

Lemma LayerNorm_forward_Ok h self layer x n :
  has_parameter h self (layer +:+ ".weight") [n] →
  has_parameter h self (layer +:+ ".bias") [n] →
  length x = n →
  ∃ y, LayerNorm_forward h self layer x = Ok y ∧ length y = n.
Proof.
  intros (w & Hw & Hws & Hwwf) (b & Hb & Hbs & Hbwf) Hx.
  unfold LayerNorm_forward. rewrite Hw, Hb. simpl. by eapply F_layer_norm_Ok.
Qed.

Lemma ActorNetwork_forward_tanh h self state out :
  ActorNetwork_forward h self state = Ok out → ∃ x, out = map tanh x.
Proof.
  unfold ActorNetwork_forward. intros H. bind_inv H. injection H as <-. eauto.
Qed.

(** C7.  Whatever [ActorNetwork.forward] returns lies componentwise in
    [-1, 1]; and on a state of the network's input dimension it does
    return, one component per action. *)
Theorem actor_output_bounded (h : heap) (self : @Network Optim) (state : vec) :
  (∀ out, ActorNetwork_forward h self state = Ok out →
          Forall (fun y => (-1 <= y <= 1)%R) out) ∧
  (∀ D F1 F2 A,
     ActorNetwork_shaped h self D F1 F2 A → length state = D →
     ∃ out, ActorNetwork_forward h self state = Ok out ∧ length out = A ∧
            Forall (fun y => (-1 <= y <= 1)%R) out).
Proof.
  assert (∀ out, ActorNetwork_forward h self state = Ok out →
                 Forall (fun y => (-1 <= y <= 1)%R) out) as Hbound.
  { intros out H. apply ActorNetwork_forward_tanh in H as [x ->].
    apply Forall_forall. intros y Hy. apply list_elem_of_fmap in Hy as (z & -> & _).
    pose proof (tanh_bounds z). lra. }
  split; [exact Hbound|].
  intros D F1 F2 A (W1 & B1 & G1 & E1 & W2 & B2 & G2 & E2 & W3 & B3) Hstate.
  destruct (Linear_forward_Ok h self "fc1" state F1 D W1 B1 Hstate) as (x1 & Hx1 & L1).
  destruct (LayerNorm_forward_Ok h self "bn1" x1 F1 G1 E1 L1) as (x2 & Hx2 & L2).
  destruct (Linear_forward_Ok h self "fc2" (map relu x2) F2 F1 W2 B2) as (x3 & Hx3 & L3).
  { by rewrite length_map. }
  destruct (LayerNorm_forward_Ok h self "bn2" x3 F2 G2 E2 L3) as (x4 & Hx4 & L4).
  destruct (Linear_forward_Ok h self "mu" (map relu x4) A F2 W3 B3) as (x5 & Hx5 & L5).
  { by rewrite length_map. }
  assert (ActorNetwork_forward h self state = Ok (map tanh x5)) as Hout.
  { unfold ActorNetwork_forward. rewrite Hx1; simpl. rewrite Hx2; simpl.
    rewrite Hx3; simpl. rewrite Hx4; simpl. by rewrite Hx5. }
  exists (map tanh x5). split_and!; [done|by rewrite length_map|by apply Hbound].
Qed.

End NetworkProperties.

(** ** Construction of the networks *)

Lemma assoc_zip_seq (names : list string) (n k : nat) (name : string) :
  NoDup names → names !! k = Some name →
  assoc name (zip names (seq n (length names))) = Some (n + k).
Proof.
  revert n k. induction names as [|x names IH]; intros n k Hnd Hk; [done|].
  apply NoDup_cons in Hnd as [Hx Hnd]. simpl.
  destruct k as [|k]; simpl in Hk.
  - injection Hk as ->. rewrite decide_True by done. f_equal. lia.
  - rewrite decide_False.
    + rewrite (IH (S n) k Hnd Hk). f_equal. lia.
    + intros ->. apply Hx. by eapply list_elem_of_lookup_2.
Qed.

Lemma bound_pos (n : nat) : 0 < n → (0 < 1 / sqrt (INR n))%R.
Proof.
  intros Hn. apply Rdiv_lt_0_compat; [lra|].
  apply sqrt_lt_R0. by apply lt_0_INR.
Qed.

Lemma uniform_drawn_in (u : nat → R) (shp : list nat) (bound : R) :
  (0 <= bound)%R → (∀ i, (0 <= u i < 1)%R) →
  shape (uniform_ u shp (- bound) bound) = shp ∧
  data (uniform_ u shp (- bound) bound) =
    map (fun i => (- bound + (bound - - bound) * u i)%R) (seq 0 (numel shp)) ∧
  Forall (fun x => (- bound <= x <= bound)%R) (data (uniform_ u shp (- bound) bound)).
Proof.
  intros Hb Hu. split_and!; [done|done|].
  apply Forall_forall. intros x Hx. simpl in Hx.
  apply list_elem_of_fmap in Hx as (i & -> & _).
  specialize (Hu i). nra.
Qed.

Section InitProperties.

Context {Optim : Type}.
Variable Adam : R → Optim.

(** A parameter registered by [alloc_all] is read back from the store. *)
Lemma alloc_all_parameter (h : heap) (ps : list (string * tensor)) tr (o : Optim) k name t :
  NoDup ps.*1 → ps !! k = Some (name, t) →
  parameter (alloc_all h ps).2
    {| named_parameters := (alloc_all h ps).1; training := tr; optimizer := o |} name
  = Ok t.
Proof.
  intros Hnd Hk. unfold parameter, alloc_all. simpl.
  assert (ps.*1 !! k = Some name) as Hname by (by rewrite list_lookup_fmap, Hk).
  assert (ps.*2 !! k = Some t) as Hval by (by rewrite list_lookup_fmap, Hk).
  replace (length ps) with (length ps.*1) by apply length_fmap.
  rewrite (assoc_zip_seq _ _ _ _ Hnd Hname). simpl.
  rewrite lookup_app_r by lia.
  replace (length h + k - length h) with k by lia. by rewrite Hval.
Qed.

Lemma ActorNetwork_names u D F1 F2 A :
  NoDup (ActorNetwork_parameters u D F1 F2 A).*1.
Proof. simpl. apply (bool_decide_unpack _). by vm_compute. Qed.

Lemma CriticNetwork_names u D F1 F2 A :
  NoDup (CriticNetwork_parameters u D F1 F2 A).*1.
Proof. simpl. apply (bool_decide_unpack _). by vm_compute. Qed.

Lemma ActorNetwork_init_parameter u lr D F1 F2 A h k name t :
  ActorNetwork_parameters u D F1 F2 A !! k = Some (name, t) →
  parameter (ActorNetwork_init Adam u lr D F1 F2 A h).2
            (ActorNetwork_init Adam u lr D F1 F2 A h).1 name = Ok t.
Proof.
  intros Hk.
  exact (alloc_all_parameter h _ true (Adam lr) k name t (ActorNetwork_names _ _ _ _ _) Hk).
Qed.

Lemma CriticNetwork_init_parameter u lr D F1 F2 A h k name t :
  CriticNetwork_parameters u D F1 F2 A !! k = Some (name, t) →
  parameter (CriticNetwork_init Adam u lr D F1 F2 A h).2
            (CriticNetwork_init Adam u lr D F1 F2 A h).1 name = Ok t.
Proof.
  intros Hk.
  exact (alloc_all_parameter h _ true (Adam lr) k name t (CriticNetwork_names _ _ _ _ _) Hk).
Qed.

(** What the constructors draw.  With raw draws in [0, 1), they leave
    the weight and bias of [fc1] and [fc2], of the actor and of the
    critic, spread over [-1/sqrt(n), 1/sqrt(n)] where [n] is
    [weight.size()[0]], the number of output units of the layer and not
    its number of inputs, and the weight and bias of the output layers
    [mu] and [q] over [-0.003, 0.003].  The layer [action_value] of the
    critic, which the constructor does not initialise again, keeps the
    range of [nn.Linear], [1/sqrt] of its number of inputs. *)
Theorem init_ranges (u : string → nat → R) (lr : R) (D F1 F2 A : nat) (h : heap) :
  0 < F1 → 0 < F2 → 0 < A → (∀ name i, (0 <= u name i < 1)%R) →
  let actor := ActorNetwork_init Adam u lr D F1 F2 A h in
  let critic := CriticNetwork_init Adam u lr D F1 F2 A h in
  (∀ net, net = actor ∨ net = critic →
     initialised net "fc1.weight" (u "fc1.weight") [F1; D] (1 / sqrt (INR F1)) ∧
     initialised net "fc1.bias" (u "fc1.bias") [F1] (1 / sqrt (INR F1)) ∧
     initialised net "fc2.weight" (u "fc2.weight") [F2; F1] (1 / sqrt (INR F2)) ∧
     initialised net "fc2.bias" (u "fc2.bias") [F2] (1 / sqrt (INR F2))) ∧
  initialised actor "mu.weight" (u "mu.weight") [A; F2] (3 / 1000) ∧
  initialised actor "mu.bias" (u "mu.bias") [A] (3 / 1000) ∧
  initialised critic "q.weight" (u "q.weight") [1; F2] (3 / 1000) ∧
  initialised critic "q.bias" (u "q.bias") [1] (3 / 1000) ∧
  initialised critic "action_value.weight" (u "action_value.weight") [F2; A]
              (1 / sqrt (INR A)) ∧
  initialised critic "action_value.bias" (u "action_value.bias") [F2] (1 / sqrt (INR A)).
Proof.
  intros HF1 HF2 HA Hu actor critic.
  pose proof (bound_pos F1 HF1) as B1. pose proof (bound_pos F2 HF2) as B2.
  pose proof (bound_pos A HA) as BA.
  assert (∀ k name t, ActorNetwork_parameters u D F1 F2 A !! k = Some (name, t) →
                      parameter actor.2 actor.1 name = Ok t) as Ha
    by (intros; by eapply ActorNetwork_init_parameter).
  assert (∀ k name t, CriticNetwork_parameters u D F1 F2 A !! k = Some (name, t) →
                      parameter critic.2 critic.1 name = Ok t) as Hc
    by (intros; by eapply CriticNetwork_init_parameter).
  split_and!.
  - intros net [-> | ->]; split_and!.
    + eexists. split; [by apply (Ha 0)|]. apply uniform_drawn_in; [unfold size0; simpl; lra|done].
    + eexists. split; [by apply (Ha 1)|]. apply uniform_drawn_in; [unfold size0; simpl; lra|done].
    + eexists. split; [by apply (Ha 4)|]. apply uniform_drawn_in; [unfold size0; simpl; lra|done].
    + eexists. split; [by apply (Ha 5)|]. apply uniform_drawn_in; [unfold size0; simpl; lra|done].
    + eexists. split; [by apply (Hc 0)|]. apply uniform_drawn_in; [unfold size0; simpl; lra|done].
    + eexists. split; [by apply (Hc 1)|]. apply uniform_drawn_in; [unfold size0; simpl; lra|done].
    + eexists. split; [by apply (Hc 4)|]. apply uniform_drawn_in; [unfold size0; simpl; lra|done].
    + eexists. split; [by apply (Hc 5)|]. apply uniform_drawn_in; [unfold size0; simpl; lra|done].
  - eexists. split; [by apply (Ha 8)|]. apply uniform_drawn_in; [unfold size0; simpl; lra|done].
  - eexists. split; [by apply (Ha 9)|]. apply uniform_drawn_in; [unfold size0; simpl; lra|done].
  - eexists. split; [by apply (Hc 10)|]. apply uniform_drawn_in; [unfold size0; simpl; lra|done].
  - eexists. split; [by apply (Hc 11)|]. apply uniform_drawn_in; [unfold size0; simpl; lra|done].
  - eexists. split; [by apply (Hc 8)|].
    apply uniform_drawn_in; [unfold Linear_default_bound; lra|done].
  - eexists. split; [by apply (Hc 9)|].
    apply uniform_drawn_in; [unfold Linear_default_bound; lra|done].
Qed.

Lemma uniform_wf (u : nat → R) shp lo hi : tensor_wf (uniform_ u shp lo hi).
Proof. unfold tensor_wf; simpl. by rewrite length_map, length_seq. Qed.

Lemma ones_wf shp : tensor_wf (ones shp).
Proof. unfold tensor_wf; simpl. by rewrite length_replicate. Qed.

Lemma zeros_wf shp : tensor_wf (zeros shp).
Proof. unfold tensor_wf; simpl. by rewrite length_replicate. Qed.

(** The constructor gives the actor the shapes [forward] relies on. *)
Lemma ActorNetwork_init_shaped u lr D F1 F2 A h :
  ActorNetwork_shaped (ActorNetwork_init Adam u lr D F1 F2 A h).2
                      (ActorNetwork_init Adam u lr D F1 F2 A h).1 D F1 F2 A.
Proof.
  assert (∀ k name t, ActorNetwork_parameters u D F1 F2 A !! k = Some (name, t) →
                      parameter (ActorNetwork_init Adam u lr D F1 F2 A h).2
                                (ActorNetwork_init Adam u lr D F1 F2 A h).1 name = Ok t)
    as Ha by (intros; by eapply ActorNetwork_init_parameter).
  unfold ActorNetwork_shaped, has_parameter. split_and!.
  - eexists. split_and!; [by apply (Ha 0)|done|apply uniform_wf].
  - eexists. split_and!; [by apply (Ha 1)|done|apply uniform_wf].
  - eexists. split_and!; [by apply (Ha 2)|done|apply ones_wf].
  - eexists. split_and!; [by apply (Ha 3)|done|apply zeros_wf].
  - eexists. split_and!; [by apply (Ha 4)|done|apply uniform_wf].
  - eexists. split_and!; [by apply (Ha 5)|done|apply uniform_wf].
  - eexists. split_and!; [by apply (Ha 6)|done|apply ones_wf].
  - eexists. split_and!; [by apply (Ha 7)|done|apply zeros_wf].
  - eexists. split_and!; [by apply (Ha 8)|done|apply uniform_wf].
  - eexists. split_and!; [by apply (Ha 9)|done|apply uniform_wf].
Qed.

End InitProperties.

(** ** Soft update of the target networks *)

Section DictProperties.

Context {A : Type}.
Implicit Types (kvs : list (string * A)) (acc : gmap string A).

Local Abbreviation ins :=
  (fun (d : gmap string A) (kv : string * A) => <[kv.1 := kv.2]> d).

Lemma dict_foldl_notin kvs acc k :
  k ∉ kvs.*1 → foldl ins acc kvs !! k = acc !! k.
Proof.
  revert acc. induction kvs as [|[k' v'] kvs IH]; intros acc Hk; [done|].
  simpl in *. apply not_elem_of_cons in Hk as [Hne Hk].
  rewrite IH by done. by rewrite lookup_insert_ne.
Qed.

Lemma dict_foldl_lookup kvs acc k v :
  NoDup kvs.*1 → (k, v) ∈ kvs → foldl ins acc kvs !! k = Some v.
Proof.
  revert acc. induction kvs as [|[k' v'] kvs IH]; intros acc Hnd Hin.
  - by apply elem_of_nil in Hin.
  - simpl in *. apply NoDup_cons in Hnd as [Hk' Hnd].
    apply elem_of_cons in Hin as [[= -> ->]|Hin].
    + rewrite dict_foldl_notin by done. apply lookup_insert_eq.
    + by apply IH.
Qed.

Lemma dict_foldl_dom kvs acc :
  dom (foldl ins acc kvs) = dom acc ∪ list_to_set kvs.*1.
Proof.
  revert acc. induction kvs as [|[k' v'] kvs IH]; intros acc; simpl.
  - set_solver.
  - rewrite IH. rewrite dom_insert_L. set_solver.
Qed.

Lemma dict_lookup kvs k v : NoDup kvs.*1 → (k, v) ∈ kvs → dict kvs !! k = Some v.
Proof. apply dict_foldl_lookup. Qed.

Lemma dict_dom kvs : dom (dict kvs) = list_to_set kvs.*1.
Proof. unfold dict. rewrite (dict_foldl_dom kvs ∅). set_solver. Qed.

End DictProperties.

Lemma tensor_add_blend (tau : R) (s t : tensor) :
  shape s = shape t →
  tensor_add (tensor_scale tau s) (tensor_scale (1 - tau) t) = Ok (blend tau s t).
Proof. intros H. unfold tensor_add. simpl. by rewrite decide_True. Qed.

Section UpdateProperties.

Context {Optim : Type}.
Implicit Types (self : @Agent Optim) (source target : @Network Optim).

Lemma state_dict_of_names source :
  ((fun '(name, l) => (name, Param l)) <$> named_parameters source).*1
  = (named_parameters source).*1.
Proof.
  induction (named_parameters source) as [|[n l] ps IH]; simpl; [done|]. by f_equal.
Qed.

Lemma state_dict_of_lookup source name l :
  NoDup (named_parameters source).*1 → (name, l) ∈ named_parameters source →
  state_dict_of source !! name = Some (Param l).
Proof.
  intros Hnd Hin. unfold state_dict_of. apply dict_lookup.
  - by rewrite state_dict_of_names.
  - apply list_elem_of_fmap. by exists (name, l).
Qed.

Lemma state_dict_of_dom source :
  dom (state_dict_of source) = list_to_set (named_parameters source).*1.
Proof. unfold state_dict_of. by rewrite dict_dom, state_dict_of_names. Qed.

Lemma NoDup_fst_inj {B} (l : list (string * B)) k v v' :
  NoDup l.*1 → (k, v) ∈ l → (k, v') ∈ l → v = v'.
Proof.
  induction l as [|[k0 v0] l IH]; simpl; intros Hnd H1 H2.
  - by apply elem_of_nil in H1.
  - apply NoDup_cons in Hnd as [Hk0 Hnd].
    assert (∀ w, (k0, w) ∈ l → False) as Hno.
    { intros w Hw. apply Hk0. apply list_elem_of_fmap. by exists (k0, w). }
    apply elem_of_cons in H1 as [[= -> ->]|H1]; apply elem_of_cons in H2 as [[= ->]|H2];
      try done.
    + by destruct (Hno v').
    + subst. by destruct (Hno v).
    + by apply IH.
Qed.

Lemma tracks_source h source target name ls :
  tracks h source target → (name, ls) ∈ named_parameters source →
  ∃ lt, (name, lt) ∈ named_parameters target ∧ same_shape h ls lt.
Proof.
  intros (Hnames & _ & HF) Hin.
  apply list_elem_of_lookup_1 in Hin as [i Hi].
  destruct (Forall2_lookup_l _ _ _ _ _ HF Hi) as ([n lt] & Hq & Hs).
  assert ((named_parameters source).*1 !! i = Some name) as H1
    by (by rewrite list_lookup_fmap, Hi).
  rewrite Hnames, list_lookup_fmap, Hq in H1. simpl in H1. injection H1 as ->.
  exists lt. split; [|done]. by eapply list_elem_of_lookup_2.
Qed.

Lemma tracks_target h source target name lt :
  tracks h source target → (name, lt) ∈ named_parameters target →
  ∃ ls, (name, ls) ∈ named_parameters source ∧ same_shape h ls lt.
Proof.
  intros (Hnames & _ & HF) Hin.
  apply list_elem_of_lookup_1 in Hin as [i Hi].
  destruct (Forall2_lookup_r _ _ _ _ _ HF Hi) as ([n ls] & Hq & Hs).
  assert ((named_parameters target).*1 !! i = Some name) as H1
    by (by rewrite list_lookup_fmap, Hi).
  rewrite <- Hnames, list_lookup_fmap, Hq in H1. simpl in H1. injection H1 as ->.
  exists ls. split; [|done]. by eapply list_elem_of_lookup_2.
Qed.

(** The loop over the names: every entry it visits is bound to the
    blend of the two parameters, the others are left alone. *)
Lemma blend_loop (h : heap) (tau : R) (td : gmap string value) (names : list string)
    (d : gmap string value) :
  NoDup names →
  (∀ n, n ∈ names →
        ∃ ls lt s t, d !! n = Some (Param ls) ∧ td !! n = Some (Param lt) ∧
                     h !! ls = Some s ∧ h !! lt = Some t ∧ shape s = shape t) →
  ∃ d', for_each (blend_entry h tau td) names d = Ok d' ∧
        dom d' = dom d ∧
        (∀ n, n ∉ names → d' !! n = d !! n) ∧
        (∀ n ls lt s t, n ∈ names → d !! n = Some (Param ls) → td !! n = Some (Param lt) →
                        h !! ls = Some s → h !! lt = Some t →
                        d' !! n = Some (Fresh (blend tau s t))).
Proof.
  revert d. induction names as [|x names IH]; intros d Hnd Hall.
  - exists d. split_and!; try done. intros n ls lt s t Hn. by apply elem_of_nil in Hn.
  - apply NoDup_cons in Hnd as [Hx Hnd].
    destruct (Hall x) as (ls & lt & s & t & Hd & Htd & Hs & Ht & Hshape); [set_solver|].
    assert (blend_entry h tau td d x = Ok (<[x := Fresh (blend tau s t)]> d)) as Hstep.
    { unfold blend_entry. rewrite Hd, Htd. simpl. rewrite Hs, Ht. simpl.
      by rewrite tensor_add_blend. }
    destruct (IH (<[x := Fresh (blend tau s t)]> d) Hnd) as (d' & Hd' & Hdom & Hout & Hin).
    { intros n Hn. destruct (Hall n) as (ls' & lt' & s' & t' & H1 & H2 & H3 & H4 & H5);
        [set_solver|].
      exists ls', lt', s', t'. split_and!; try done.
      rewrite lookup_insert_ne; [done|]. intros ->. done. }
    exists d'. simpl. rewrite Hstep. simpl. split_and!; try done.
    + rewrite Hdom. rewrite dom_insert_L.
      apply (elem_of_dom_2 (D := gset string)) in Hd. set_solver.
    + intros n Hn. apply not_elem_of_cons in Hn as [Hne Hn].
      rewrite Hout by done. by rewrite lookup_insert_ne.
    + intros n ls' lt' s' t' Hn H1 H2 H3 H4.
      apply elem_of_cons in Hn as [->|Hn].
      * rewrite Hout by done. rewrite lookup_insert_eq.
        rewrite Hd in H1. rewrite Htd in H2. injection H1 as <-. injection H2 as <-.
        rewrite Hs in H3. rewrite Ht in H4. by injection H3 as <-; injection H4 as <-.
      * eapply Hin; try done. rewrite lookup_insert_ne; [done|]. intros ->. done.
Qed.

(** The copies of [load_state_dict]: every parameter of the module
    receives its entry, the rest of the store is left alone. *)
Lemma load_loop (sd : gmap string value) (ps : list (string * loc)) (h0 : heap) :
  NoDup ps.*2 →
  (∀ n l, (n, l) ∈ ps →
          ∃ v p, sd !! n = Some (Fresh v) ∧ h0 !! l = Some p ∧ shape v = shape p) →
  ∃ h', for_each (copy_entry sd) ps h0 = Ok h' ∧
        length h' = length h0 ∧
        (∀ l, l ∉ ps.*2 → h' !! l = h0 !! l) ∧
        (∀ n l v, (n, l) ∈ ps → sd !! n = Some (Fresh v) → h' !! l = Some v).
Proof.
  revert h0. induction ps as [|[n l] ps IH]; intros h0 Hnd Hall.
  - exists h0. split_and!; try done. intros n l v Hin. by apply elem_of_nil in Hin.
  - simpl in Hnd. apply NoDup_cons in Hnd as [Hl Hnd].
    destruct (Hall n l) as (v & p & Hsd & Hp & Hshape); [set_solver|].
    assert (copy_entry sd h0 (n, l) = Ok (<[l := v]> h0)) as Hstep.
    { unfold copy_entry. simpl. rewrite Hsd, Hp. simpl. by rewrite decide_True. }
    destruct (IH (<[l := v]> h0) Hnd) as (h' & Hh' & Hlen & Hout & Hin).
    { intros n' l' Hin'. destruct (Hall n' l') as (v' & p' & H1 & H2 & H3); [set_solver|].
      exists v', p'. split_and!; try done.
      rewrite list_lookup_insert_ne; [done|]. intros ->. apply Hl.
      apply list_elem_of_fmap. by exists (n', l'). }
    exists h'. simpl. rewrite Hstep. simpl. split_and!; try done.
    + by rewrite Hlen, length_insert.
    + intros l' Hl'. apply not_elem_of_cons in Hl' as [Hne Hl'].
      rewrite Hout by done. by rewrite list_lookup_insert_ne.
    + intros n' l' v' Hin' Hsd'. apply elem_of_cons in Hin' as [[= -> ->]|Hin'].
      * rewrite Hout by done. rewrite Hsd in Hsd'. injection Hsd' as <-.
        apply list_lookup_insert_eq. by eapply lookup_lt_Some.
      * by eapply Hin.
Qed.

(** One network pair: [soft_update] succeeds, writes the blend into
    every parameter of the target and nothing else. *)
Lemma soft_update_spec (h : heap) (tau : R) source target :
  tracks h source target → NoDup (named_parameters target).*2 →
  ∃ h', soft_update h tau source target = Ok h' ∧
        length h' = length h ∧
        (∀ l, l ∉ (named_parameters target).*2 → h' !! l = h !! l) ∧
        (∀ name ls lt s t,
           (name, ls) ∈ named_parameters source → (name, lt) ∈ named_parameters target →
           h !! ls = Some s → h !! lt = Some t →
           h' !! lt = Some (blend tau s t)).
Proof.
  intros Htr Hlocs. pose proof Htr as (Hnames & Hnd & HF).
  assert (NoDup (named_parameters target).*1) as Hnd' by (by rewrite <- Hnames).
  destruct (blend_loop h tau (state_dict_of target) (named_parameters source).*1
              (state_dict_of source) Hnd) as (d' & Hd' & Hdom & _ & Hin).
  { intros n Hn. apply list_elem_of_fmap in Hn as ([n' ls] & -> & Hn). simpl.
    destruct (tracks_source _ _ _ _ _ Htr Hn) as (lt & Hlt & s & t & H1 & H2 & H3 & _).
    exists ls, lt, s, t. split_and!; try done; by apply state_dict_of_lookup. }
  assert (∀ name ls lt s t,
            (name, ls) ∈ named_parameters source → (name, lt) ∈ named_parameters target →
            h !! ls = Some s → h !! lt = Some t →
            d' !! name = Some (Fresh (blend tau s t))) as Hentry.
  { intros name ls lt s t H1 H2 H3 H4. eapply Hin; try done.
    - apply list_elem_of_fmap. by exists (name, ls).
    - by apply state_dict_of_lookup.
    - by apply state_dict_of_lookup. }
  destruct (load_loop d' (named_parameters target) h Hlocs) as (h' & Hh' & Hlen & Hout & Hnew).
  { intros n lt Hn.
    destruct (tracks_target _ _ _ _ _ Htr Hn) as (ls & Hls & s & t & H1 & H2 & H3 & _).
    exists (blend tau s t), t. split_and!; try done. by eapply Hentry. }
  exists h'. unfold soft_update. rewrite Hd'. simpl. unfold load_state_dict.
  rewrite decide_True by (by rewrite Hdom, state_dict_of_dom, Hnames).
  split_and!; try done.
  intros name ls lt s t H1 H2 H3 H4. eapply Hnew; [done|]. by eapply Hentry.
Qed.

Lemma tracks_frame (h h1 : heap) source target :
  (∀ l, l ∈ (named_parameters source).*2 ∨ l ∈ (named_parameters target).*2 →
        h1 !! l = h !! l) →
  tracks h source target → tracks h1 source target.
Proof.
  intros Hsame (Hnames & Hnd & HF). split_and!; try done.
  apply Forall2_same_length_lookup in HF as [Hlen HF].
  apply Forall2_same_length_lookup. split; [done|].
  intros i [n ls] [n' lt] H1 H2.
  destruct (HF i _ _ H1 H2) as (s & t & Hs & Ht & Hrest). simpl in *.
  exists s, t. split_and!; try apply Hrest.
  - rewrite Hsame; [done|]. left. apply list_elem_of_fmap. exists (n, ls).
    split; [done|]. by eapply list_elem_of_lookup_2.
  - rewrite Hsame; [done|]. right. apply list_elem_of_fmap. exists (n', lt).
    split; [done|]. by eapply list_elem_of_lookup_2.
Qed.

Lemma elem_of_locs (ps : list (string * loc)) name l : (name, l) ∈ ps → l ∈ ps.*2.
Proof. intros H. apply list_elem_of_fmap. by exists (name, l). Qed.

(** The whole of [update_network_parameters]. *)
Lemma update_network_parameters_spec self tau_arg :
  agent_wf self →
  ∃ h', update_network_parameters self tau_arg = Ok (set_params self h') ∧
        length h' = length (params self) ∧
        (∀ l, l ∉ target_locs self → h' !! l = params self !! l) ∧
        (∀ source target,
           source = critic self ∧ target = target_critic self ∨
           source = actor self ∧ target = target_actor self →
           ∀ name ls lt s old,
             (name, ls) ∈ named_parameters source →
             (name, lt) ∈ named_parameters target →
             params self !! ls = Some s → params self !! lt = Some old →
             h' !! lt = Some (blend (default (tau self) tau_arg) s old)).
Proof.
  intros (Hc & Ha & Hnd). unfold source_locs, target_locs in *.
  rewrite !fmap_app in Hnd.
  apply NoDup_app in Hnd as (_ & Hdisj & Hnd).
  apply NoDup_app in Hnd as (Hta & Htdisj & Htc).
  set (t := default (tau self) tau_arg).
  destruct (soft_update_spec (params self) t (critic self) (target_critic self) Hc Htc)
    as (h1 & Hh1 & Hlen1 & Hout1 & Hnew1).
  assert (tracks h1 (actor self) (target_actor self)) as Ha1.
  { eapply tracks_frame; [|exact Ha]. intros l [Hl|Hl]; apply Hout1.
    - intros Hl'. apply (Hdisj l); set_solver.
    - intros Hl'. by apply (Htdisj l). }
  destruct (soft_update_spec h1 t (actor self) (target_actor self) Ha1 Hta)
    as (h2 & Hh2 & Hlen2 & Hout2 & Hnew2).
  exists h2. unfold update_network_parameters. fold t. rewrite Hh1. simpl.
  rewrite Hh2. simpl. split_and!; [done|lia| |].
  - intros l Hl. rewrite !fmap_app in Hl. rewrite Hout2, Hout1; set_solver.
  - intros source target [[-> ->]|[-> ->]] name ls lt s old H1 H2 H3 H4.
    + rewrite Hout2.
      * by eapply Hnew1.
      * intros Hlt. apply (Htdisj lt Hlt). by eapply elem_of_locs.
    + eapply Hnew2; try done.
      * rewrite Hout1; [done|]. intros Hls. apply (Hdisj ls).
        -- apply elem_of_app. left. by eapply elem_of_locs.
        -- apply elem_of_app. by right.
      * rewrite Hout1; [done|]. intros Hlt. apply (Htdisj lt); [|done].
        by eapply elem_of_locs.
Qed.

Lemma blend_lookup (t : R) (s old : tensor) i x y :
  data s !! i = Some x → data old !! i = Some y →
  data (blend t s old) !! i = Some (t * x + (1 - t) * y)%R.
Proof.
  intros Hx Hy. simpl. rewrite lookup_zip_with, !list_lookup_fmap, Hx, Hy. done.
Qed.

Lemma blend_one (s old : tensor) :
  length (data s) = length (data old) → blend 1 s old = s.
Proof.
  intros Hlen. destruct s as [shp ds], old as [shp' dold]. unfold blend; simpl in *.
  f_equal. revert dold Hlen. induction ds as [|x ds IH]; intros [|y dold] Hlen;
    simpl in *; try done.
  f_equal; [lra|]. apply IH. lia.
Qed.

Lemma blend_zero (s old : tensor) :
  shape s = shape old → length (data s) = length (data old) → blend 0 s old = old.
Proof.
  intros Hshape Hlen. destruct s as [shp ds], old as [shp' dold].
  unfold blend; simpl in *. subst shp'.
  f_equal. revert dold Hlen. induction ds as [|x ds IH]; intros [|y dold] Hlen;
    simpl in *; try done.
  f_equal; [lra|]. apply IH. lia.
Qed.

Lemma same_shape_length h ls lt s old :
  same_shape h ls lt → h !! ls = Some s → h !! lt = Some old →
  shape s = shape old ∧ length (data s) = length (data old).
Proof.
  intros (s' & t' & H1 & H2 & Hshape & Hw1 & Hw2) Hs Hold.
  rewrite Hs in H1. rewrite Hold in H2. injection H1 as <-. injection H2 as <-.
  split; [done|]. unfold tensor_wf in *. by rewrite Hw1, Hw2, Hshape.
Qed.

Lemma pair_same_shape h source target name ls lt :
  tracks h source target →
  (name, ls) ∈ named_parameters source → (name, lt) ∈ named_parameters target →
  same_shape h ls lt.
Proof.
  intros Htr H1 H2. pose proof Htr as (Hnames & Hnd & _).
  destruct (tracks_source _ _ _ _ _ Htr H1) as (lt' & Hlt' & Hs).
  rewrite Hnames in Hnd. by rewrite (NoDup_fst_inj _ _ _ _ Hnd H2 Hlt').
Qed.

(** C2.  On an agent whose targets are instances of the classes of
    their sources with parameters of their own,
    [update_network_parameters(tau)] returns, and every parameter of
    the target critic and of the target actor then holds, element by
    element, [tau * source + (1 - tau) * target] of the like-named
    source parameter and of its own former value: the source value for
    [tau = 1], its former value for [tau = 0], and for [0 < tau < 1] a
    value that has moved the fraction [tau] of the way to the source.
    Without an argument the rate is [self.tau]. *)
Theorem soft_update_law (self : @Agent Optim) (tau_arg : option R) :
  agent_wf self →
  let t := default (tau self) tau_arg in
  ∃ self',
    update_network_parameters self tau_arg = Ok self' ∧
    ∀ source target,
      source = critic self ∧ target = target_critic self ∨
      source = actor self ∧ target = target_actor self →
      ∀ name ls lt s old,
        (name, ls) ∈ named_parameters source → (name, lt) ∈ named_parameters target →
        params self !! ls = Some s → params self !! lt = Some old →
        ∃ new,
          params self' !! lt = Some new ∧
          shape new = shape old ∧ length (data new) = length (data old) ∧
          (∀ i x y, data s !! i = Some x → data old !! i = Some y →
                    data new !! i = Some (t * x + (1 - t) * y)%R) ∧
          (t = 1%R → new = s) ∧
          (t = 0%R → new = old) ∧
          ((0 < t < 1)%R →
           ∀ i x y z, data s !! i = Some x → data old !! i = Some y →
                      data new !! i = Some z → (z - y = t * (x - y))%R).
Proof.
  intros Hwf t.
  destruct (update_network_parameters_spec self tau_arg Hwf)
    as (h' & Hh' & _ & _ & Hnew).
  exists (set_params self h'). split; [done|].
  intros source target Hpair name ls lt s old H1 H2 Hs Hold.
  pose proof (Hnew source target Hpair name ls lt s old H1 H2 Hs Hold) as Hlt.
  fold t in Hlt.
  assert (same_shape (params self) ls lt) as Hsame.
  { destruct Hwf as (Hc & Ha & _).
    destruct Hpair as [[-> ->]|[-> ->]].
    - by apply (pair_same_shape _ _ _ name ls lt Hc).
    - by apply (pair_same_shape _ _ _ name ls lt Ha). }
  destruct (same_shape_length _ _ _ _ _ Hsame Hs Hold) as [Hshape Hlen].
  exists (blend t s old). split_and!; try done.
  - simpl. rewrite length_zip_with, !length_map. lia.
  - intros i x y. apply blend_lookup.
  - intros ->. by apply blend_one.
  - intros ->. by apply blend_zero.
  - intros Ht i x y z Hx Hy Hz.
    rewrite (blend_lookup t s old i x y Hx Hy) in Hz. injection Hz as <-. lra.
Qed.

(** C9.  [update_network_parameters] leaves the actor and the critic
    as they were: the two networks, and the value of every parameter
    that is not a parameter of a target network, those of the actor and
    of the critic among them. *)
Theorem update_keeps_sources (self self' : @Agent Optim) (tau_arg : option R) :
  agent_wf self →
  update_network_parameters self tau_arg = Ok self' →
  actor self' = actor self ∧ critic self' = critic self ∧
  (∀ name l, (name, l) ∈ named_parameters (actor self) ++ named_parameters (critic self) →
             params self' !! l = params self !! l) ∧
  (∀ l, l ∉ target_locs self → params self' !! l = params self !! l) ∧
  length (params self') = length (params self).
Proof.
  intros Hwf H.
  destruct (update_network_parameters_spec self tau_arg Hwf)
    as (h' & Hh' & Hlen & Hout & _).
  rewrite Hh' in H. injection H as <-. simpl. split_and!; try done.
  intros name l Hl. apply Hout.
  destruct Hwf as (_ & _ & Hnd). apply NoDup_app in Hnd as (_ & Hdisj & _).
  apply Hdisj. unfold source_locs. by eapply elem_of_locs.
Qed.

End UpdateProperties.

(** ** The entry point *)

Lemma py_getitem_out_of_range {A} (l : list A) (i : Z) :
  (i < - Z.of_nat (length l) ∨ Z.of_nat (length l) ≤ i)%Z →
  py_getitem l i = Raise IndexError.
Proof.
  intros H. unfold py_getitem. cbv zeta. case_decide as Hin; [|done].
  exfalso. case_decide; lia.
Qed.

Lemma py_getitem_in_range {A} (l : list A) (i : Z) :
  (- Z.of_nat (length l) ≤ i < Z.of_nat (length l))%Z →
  ∃ x, py_getitem l i = Ok x ∧
       l !! Z.to_nat (if decide (i < 0)%Z then i + Z.of_nat (length l) else i)%Z = Some x.
Proof.
  intros H. unfold py_getitem. cbv zeta.
  set (i' := if decide (i < 0)%Z then (i + Z.of_nat (length l))%Z else i).
  assert (0 ≤ i' < Z.of_nat (length l))%Z as Hi' by (unfold i'; case_decide; lia).
  rewrite decide_True by done.
  destruct (lookup_lt_is_Some_2 l (Z.to_nat i')) as [x Hx]; [lia|].
  exists x. by rewrite Hx.
Qed.

(** C8 (as amended).  [DDPG_main] stops with an exception, before any
    run constructs an environment or an agent, when the task number is
    below [-5] or above [4], when the reward number is below [-2] or
    above [1], or when the number of runs is below one.  Every other
    input starts the runs: a negative task or reward number within these
    bounds is taken as an index from the end of the list. *)
Theorem DDPG_main_rejects (task reward NoRuns : Z) :
  ((task < -5 ∨ 5 ≤ task ∨ reward < -2 ∨ 2 ≤ reward ∨ NoRuns < 1)%Z →
   ∃ e, DDPG_main task reward NoRuns = Raise e) ∧
  ((-5 ≤ task < 5)%Z → (-2 ≤ reward < 2)%Z → (1 ≤ NoRuns)%Z →
   ∃ TASK REWARD,
     task_list !! Z.to_nat (if decide (task < 0)%Z then task + 5 else task)%Z = Some TASK ∧
     reward_list !! Z.to_nat (if decide (reward < 0)%Z then reward + 2 else reward)%Z
       = Some REWARD ∧
     DDPG_main task reward NoRuns
       = Ok (concat (map (run TASK REWARD) (np_arange NoRuns)))).
Proof.
  split.
  - intros H. unfold DDPG_main.
    destruct (decide (task < -5 ∨ 5 ≤ task)%Z) as [Ht|Ht].
    { rewrite (py_getitem_out_of_range task_list task) by (simpl; lia). by eexists. }
    destruct (py_getitem task_list task) as [TASK|e]; [|by eexists]. simpl.
    destruct (decide (reward < -2 ∨ 2 ≤ reward)%Z) as [Hr|Hr].
    { rewrite (py_getitem_out_of_range reward_list reward) by (simpl; lia). by eexists. }
    destruct (py_getitem reward_list reward) as [REWARD|e]; [|by eexists]. simpl.
    unfold Pool. case_decide; [by eexists|exfalso; lia].
  - intros Ht Hr Hn. unfold DDPG_main.
    destruct (py_getitem_in_range task_list task) as (TASK & HT & HTl); [simpl; lia|].
    destruct (py_getitem_in_range reward_list reward) as (REWARD & HR & HRl); [simpl; lia|].
    exists TASK, REWARD. rewrite HT, HR. simpl. unfold Pool.
    destruct (decide (NoRuns < 1)%Z) as [Hlt|Hge]; [lia|]. simpl. split_and!; try done.
Qed.

(** ** Construction of the agent *)

Section AgentInit.

Context {Optim : Type}.
Variable Adam : R → Optim.

Lemma blend_wf (t : R) (s old : tensor) :
  tensor_wf s → length (data s) = length (data old) → tensor_wf (blend t s old).
Proof.
  unfold tensor_wf. intros Hs Hlen. simpl.
  rewrite length_zip_with, !length_map. lia.
Qed.

(** The constructor builds an agent whose targets are second instances
    of its networks, with parameters of their own. *)
Lemma Agent_fields_wf u alpha beta tau A D F1 F2 bs g N :
  agent_wf (Agent_fields Adam u alpha beta tau A D F1 F2 bs g N).
Proof.
  unfold agent_wf, tracks. simpl. split_and!.
  - reflexivity.
  - apply (bool_decide_unpack _). by vm_compute.
  - repeat constructor; simpl;
      (eexists _, _; split_and!; [reflexivity|reflexivity|reflexivity| |]);
      first [apply uniform_wf | apply ones_wf | apply zeros_wf].
  - reflexivity.
  - apply (bool_decide_unpack _). by vm_compute.
  - repeat constructor; simpl;
      (eexists _, _; split_and!; [reflexivity|reflexivity|reflexivity| |]);
      first [apply uniform_wf | apply ones_wf | apply zeros_wf].
  - apply (bool_decide_unpack _). by vm_compute.
Qed.

Lemma tracks_update (h h' : heap) (t : R) (source target : @Network Optim) :
  tracks h source target →
  (∀ name ls, (name, ls) ∈ named_parameters source → h' !! ls = h !! ls) →
  (∀ name ls lt s old,
     (name, ls) ∈ named_parameters source → (name, lt) ∈ named_parameters target →
     h !! ls = Some s → h !! lt = Some old → h' !! lt = Some (blend t s old)) →
  tracks h' source target.
Proof.
  intros (Hnames & Hnd & HF) Hsrc Htgt. split_and!; try done.
  apply Forall2_same_length_lookup in HF as [Hlen HF].
  apply Forall2_same_length_lookup. split; [done|].
  intros i [n ls] [n' lt] H1 H2.
  destruct (HF i _ _ H1 H2) as (s & old & Hs & Hold & Hshape & Hws & Hwold).
  simpl in *.
  assert (n' = n) as ->.
  { assert ((named_parameters source).*1 !! i = Some n) as E
      by (by rewrite list_lookup_fmap, H1).
    rewrite Hnames, list_lookup_fmap, H2 in E. by injection E. }
  apply list_elem_of_lookup_2 in H1, H2.
  exists s, (blend t s old). split_and!; try done.
  - by rewrite (Hsrc n ls H1).
  - by eapply Htgt.
  - apply blend_wf; [done|]. unfold tensor_wf in *. by rewrite Hws, Hwold, Hshape.
Qed.

(** [update_network_parameters] keeps the agent well formed. *)
Lemma update_network_parameters_wf (self self' : @Agent Optim) tau_arg :
  agent_wf self → update_network_parameters self tau_arg = Ok self' → agent_wf self'.
Proof.
  intros Hwf H.
  destruct (update_network_parameters_spec self tau_arg Hwf)
    as (h' & Hh' & Hlen & Hout & Hnew).
  rewrite Hh' in H. injection H as <-.
  destruct Hwf as (Hc & Ha & Hnd).
  pose proof Hnd as Hnd'. apply NoDup_app in Hnd' as (_ & Hdisj & _).
  unfold source_locs in Hdisj. rewrite fmap_app in Hdisj.
  unfold agent_wf. simpl. split_and!; [| |done].
  - eapply (tracks_update _ _ _ _ _ Hc).
    + intros name ls Hls. apply Hout, Hdisj, elem_of_app. right.
      by eapply elem_of_locs.
    + intros name ls lt s old. apply Hnew. by left.
  - eapply (tracks_update _ _ _ _ _ Ha).
    + intros name ls Hls. apply Hout, Hdisj, elem_of_app. left.
      by eapply elem_of_locs.
    + intros name ls lt s old. apply Hnew. by right.
Qed.

(** The constructor returns, and what it returns is well formed. *)
Lemma Agent_init_wf u alpha beta tau A D F1 F2 bs g N :
  ∃ self, Agent_init Adam u alpha beta tau A D F1 F2 bs g N = Ok self ∧ agent_wf self.
Proof.
  pose proof (Agent_fields_wf u alpha beta tau A D F1 F2 bs g N) as Hwf.
  destruct (update_network_parameters_spec _ (Some 1%R) Hwf) as (h' & Hh' & _).
  eexists. split; [exact Hh'|].
  by eapply update_network_parameters_wf.
Qed.

End AgentInit.

(** ** The claims at concrete inputs *)

Lemma is_Ok_succeeds {A} (m : result A) : is_Ok m = true → succeeds m.
Proof. destruct m; [by eexists|done]. Qed.

(** [learn] runs to its end on the example agent once its buffer holds a
    transition. *)
Lemma demo_learn_succeeds :
  succeeds (learn demo_critic_update demo_actor_update (fun _ => 0)
                  (set_memory demo_agent demo_buffer)).
Proof. apply is_Ok_succeeds. vm_compute. reflexivity. Qed.

Lemma demo_agent_wf : agent_wf demo_agent.
Proof. apply Agent_fields_wf. Qed.

Lemma demo_buffer_wf : buffer_wf demo_buffer.
Proof. by repeat split. Qed.

(** Witness of C1: a batch of a non-terminal and of a terminal
    transition, and a run of [learn] on the example agent. *)
Lemma td_target_law_witness :
  (∃ target,
     td_target (99 / 100) [1; 5]%R [[3]; [4]]%R [one_minus false; one_minus true] 2
       = Ok target ∧
     target !! 0 = Some [(1 + 99 / 100 * 3)%R] ∧
     target !! 1 = Some [5%R]) ∧
  (∃ self' b target_actions critic_value_ critic_value target,
     learn demo_critic_update demo_actor_update (fun _ => 0)
           (set_memory demo_agent demo_buffer) = Ok self' ∧
     sample_buffer (fun _ => 0) demo_buffer 1 = Ok (b, demo_buffer) ∧
     traverse (ActorNetwork_forward (params demo_agent) (eval (target_actor demo_agent)))
              (b_states_ b) = Ok target_actions ∧
     traverse (fun '(s, a) =>
                 CriticNetwork_forward (params demo_agent) (eval (target_critic demo_agent))
                                       s a)
              (zip (b_states_ b) target_actions) = Ok critic_value_ ∧
     td_target (99 / 100) (b_rewards b) critic_value_ (b_terminal b) 1 = Ok target ∧
     critic_loss self' = Some (mse_loss (map (fun x => [x]) (concat target)) critic_value)).
Proof.
  pose proof (td_target_law demo_critic_update demo_actor_update) as (_ & Hlaw & Hlearn).
  split.
  - destruct (Hlaw (99 / 100)%R [1; 5]%R [[3]; [4]]%R
                   [one_minus false; one_minus true] 2 eq_refl eq_refl eq_refl)
      as (target & Ht & _ & Hj).
    exists target. split; [exact Ht|]. split.
    + exact (proj2 (proj2 (Hj 0 1%R 3%R false eq_refl eq_refl eq_refl)) eq_refl).
    + exact (proj1 (proj2 (Hj 1 5%R 4%R true eq_refl eq_refl eq_refl)) eq_refl).
  - destruct demo_learn_succeeds as [self' Hself'].
    assert (¬ mem_cntr (memory (set_memory demo_agent demo_buffer))
              < batch_size (set_memory demo_agent demo_buffer)) as Hfull.
    { change (¬ 1 < 1). lia. }
    destruct (Hlearn _ _ _ Hself' Hfull)
      as (batch & b & ta & cv_ & cv & target & _ & H1 & _ & H2 & H3 & _ & H4 & _ & _ & H5).
    exists self', b, ta, cv_, cv, target.
    split; [exact Hself'|]. split; [exact H1|]. split; [exact H2|]. split; [exact H3|].
    split; [exact H4|exact H5].
Defined.

(** Witness of C2: the example agent and the rate one half; parameter 0
    is the actor's first weight, parameter 22 the target actor's. *)
Lemma soft_update_law_witness :
  agent_wf demo_agent ∧
  ∃ self' s old new,
    update_network_parameters demo_agent (Some (1 / 2)%R) = Ok self' ∧
    params demo_agent !! 0 = Some s ∧ params demo_agent !! 22 = Some old ∧
    params self' !! 22 = Some new ∧
    ∀ i x y, data s !! i = Some x → data old !! i = Some y →
             data new !! i = Some (1 / 2 * x + (1 - 1 / 2) * y)%R.
Proof.
  split; [exact demo_agent_wf|].
  destruct (soft_update_law demo_agent (Some (1 / 2)%R) demo_agent_wf) as (self' & Hup & Hlaw).
  destruct (Hlaw (actor demo_agent) (target_actor demo_agent) (or_intror (conj eq_refl eq_refl))
              "fc1.weight" 0 22 _ _
              (list_elem_of_here _ _)
              (list_elem_of_here _ _) eq_refl eq_refl)
    as (new & Hnew & _ & _ & Hdata & _).
  eexists self', _, _, new. 
  split; [exact Hup|]. 
  split. { reflexivity. }
  split. { reflexivity. }
  split. { exact Hnew. }
  exact Hdata.
Defined.

(** Witness of C3: the example agent has an empty buffer. *)
Lemma learn_underfilled_witness :
  mem_cntr (memory demo_agent) < batch_size demo_agent ∧
  learn demo_critic_update demo_actor_update (fun _ => 0) demo_agent = Ok demo_agent.
Proof.
  assert (mem_cntr (memory demo_agent) < batch_size demo_agent) as H.
  { change (0 < 1). lia. }
  split; [exact H|].
  exact (learn_underfilled demo_critic_update demo_actor_update (fun _ => 0) demo_agent H).
Defined.

(** Counterexample to C4 as stated: a buffer of capacity zero, which the
    constructor builds, raises on the first insertion; and a buffer for
    states of four numbers raises on a state of two. *)
Lemma store_transition_raises :
  (buffer_wf (ReplayBuffer_init 0 1 1) ∧
   store_transition (ReplayBuffer_init 0 1 1) [1%R] [0%R] 1%R [2%R] false
     = Raise ZeroDivisionError) ∧
  store_transition (ReplayBuffer_init 2 4 2) [1%R; 2%R] [0%R; 0%R] 1%R
                   [1%R; 2%R; 3%R; 4%R] false
    = Raise ValueError.
Proof. split; [split; [apply ReplayBuffer_init_wf|reflexivity]|reflexivity]. Qed.

(** Witness of C4: three insertions into a buffer of two slots, and a
    state of two numbers offered to it. *)
Lemma store_transition_circular_witness :
  0 < 2 ∧ Forall (transition_fits 1 1) demo_transitions ∧
  ∃ b, store_all (ReplayBuffer_init 2 1 1) demo_transitions = Ok b ∧
       mem_cntr b = 3 ∧
       slot b 0 = Some ([3%R], [0%R], 5%R, [4%R], false) ∧
       slot b 1 = Some ([2%R], [1%R], 2%R, [3%R], true) ∧
       store_transition b [1%R; 2%R] [0%R] 1%R [2%R] false = Raise ValueError.
Proof.
  assert (0 < 2) as H by lia.
  assert (Forall (transition_fits 1 1) demo_transitions) as Hfits.
  { repeat constructor. }
  split; [exact H|]. split; [exact Hfits|].
  destruct (store_transition_circular 2 1 1 demo_transitions H Hfits)
    as (b & Hb & _ & Hcntr & _ & Hbad & Hrecent & _).
  exists b. split; [exact Hb|]. split; [exact Hcntr|]. split; [|split].
  - apply (Hrecent 2 _ eq_refl). simpl. lia.
  - apply (Hrecent 1 _ eq_refl). simpl. lia.
  - apply Hbad; simpl; lia.
Defined.

(** Nothing was inserted and no sample is asked for: [sample_buffer(0)]
    draws nothing and returns five empty arrays. *)
Lemma sample_buffer_empty_request :
  mem_cntr (ReplayBuffer_init 2 1 1) = 0 ∧
  sample_buffer (fun _ => 0) (ReplayBuffer_init 2 1 1) 0
    = Ok ({| b_states := []; b_actions := []; b_rewards := []; b_states_ := [];
             b_terminal := [] |}, ReplayBuffer_init 2 1 1).
Proof. split; reflexivity. Qed.

Lemma demo_full_buffer_wf : buffer_wf demo_full_buffer.
Proof. by repeat split. Qed.

(** Witness of C5: two draws from the buffer of two slots after three
    insertions; of the 36 pairs of raw outputs below 6, nine stand for
    the indices 1 and 0. *)
Lemma sample_buffer_draws_witness :
  buffer_wf demo_full_buffer ∧
  (∃ b, sample_buffer (fun j => j) demo_full_buffer 2 = Ok (b, demo_full_buffer) ∧
        b_rewards b = [5%R; 2%R] ∧ b_terminal b = [false; true]) ∧
  sample_buffer (fun j => j) (ReplayBuffer_init 2 1 1) 2 = Raise ValueError ∧
  length (raw_outputs 6 2) = 36 ∧
  length (filter (fun rs => np_random_choice (generator rs) 2 2 = Ok [1; 0])
                 (raw_outputs 6 2)) = 9.
Proof.
  split; [exact demo_full_buffer_wf|].
  pose proof (sample_buffer_draws (fun j => j) demo_full_buffer 2 demo_full_buffer_wf) as H.
  cbv zeta in H. destruct H as (_ & Hok & _ & _ & Huniform).
  pose proof (sample_buffer_draws (fun j => j) (ReplayBuffer_init 2 1 1) 2
                (ReplayBuffer_init_wf 2 1 1)) as H.
  cbv zeta in H. destruct H as (Hraise & _).
  split; [|split].
  - destruct Hok as (batch & b & _ & Hb & _ & _ & _ & _ & _ & _ & _).
    { left. simpl. lia. }
    exists b. split; [exact Hb|].
    vm_compute in Hb. injection Hb as <-. split; reflexivity.
  - apply Hraise; [reflexivity|lia].
  - assert (Forall (fun i => i < 2) [1; 0]) as Hall by (repeat constructor).
    exact (Huniform 3 [1; 0] eq_refl Hall).
Defined.

Lemma sqrt_4 : sqrt (INR 4) = 2%R.
Proof.
  replace (INR 4) with (2 * 2)%R by (simpl; lra).
  apply sqrt_square. lra.
Qed.

(** C6.  The bound of the hidden layers is computed from
    [weight.size()[0]], which for [nn.Linear] is the number of output
    units: a first layer of four inputs and one unit with raw draws of
    nine tenths gets the weight [4/5], outside the range
    [-1/sqrt(4), 1/sqrt(4)] of a layer of four inputs. *)
Lemma init_outside_fan_in_range :
  let net := ActorNetwork_init demo_Adam (fun _ _ => (9 / 10)%R) (1 / 10000) 4 1 1 1 [] in
  (0 <= 9 / 10 < 1)%R ∧
  ∃ t x, parameter net.2 net.1 "fc1.weight" = Ok t ∧ shape t = [1; 4] ∧
         data t !! 0 = Some x ∧ x = (4 / 5)%R ∧
         ¬ (- (1 / sqrt (INR 4)) <= x <= 1 / sqrt (INR 4))%R.
Proof.
  intros net. split; [lra|].
  eexists _, _. split.
  { apply (ActorNetwork_init_parameter demo_Adam _ _ 4 1 1 1 [] 0). reflexivity. }
  split; [reflexivity|]. split; [reflexivity|].
  assert ((- (1 / sqrt (INR (size0 [1%nat; 4%nat]))) +
           (1 / sqrt (INR (size0 [1%nat; 4%nat])) - - (1 / sqrt (INR (size0 [1%nat; 4%nat])))) * (9 / 10))%R
          = (4 / 5)%R) as E.
  { unfold size0. simpl. rewrite sqrt_1. lra. }
  split; [exact E|]. rewrite E, sqrt_4. lra.
Qed.

(** The ranges of networks of four inputs and one unit a layer. *)
Lemma init_ranges_witness :
  0 < 1 ∧ (∀ name i, (0 <= demo_draws "Actor" name i < 1)%R) ∧
  initialised (ActorNetwork_init demo_Adam (demo_draws "Actor") (1 / 10000) 4 1 1 1 [])
              "fc1.weight" (demo_draws "Actor" "fc1.weight") [1; 4] (1 / sqrt (INR 1)) ∧
  initialised (CriticNetwork_init demo_Adam (demo_draws "Actor") (1 / 10000) 4 1 1 1 [])
              "q.bias" (demo_draws "Actor" "q.bias") [1] (3 / 1000).
Proof.
  assert (0 < 1) as H by lia.
  assert (∀ name i, (0 <= demo_draws "Actor" name i < 1)%R) as Hu.
  { intros name i. unfold demo_draws. lra. }
  split; [exact H|]. split; [exact Hu|].
  pose proof (init_ranges demo_Adam (demo_draws "Actor") (1 / 10000) 4 1 1 1 [] H H H Hu)
    as (Hhidden & _ & _ & _ & Hq & _).
  split; [|exact Hq].
  exact (proj1 (Hhidden _ (or_introl eq_refl))).
Defined.

(** Witness of C7: an actor as the constructor builds it. *)
Lemma actor_output_bounded_witness :
  let net := ActorNetwork_init demo_Adam (demo_draws "Actor") (1 / 10000) 2 3 2 1 [] in
  ∃ out, ActorNetwork_forward net.2 net.1 [1; -1]%R = Ok out ∧ length out = 1 ∧
         Forall (fun y => (-1 <= y <= 1)%R) out.
Proof.
  intros net.
  exact (proj2 (actor_output_bounded net.2 net.1 [1; -1]%R) 2 3 2 1
               (ActorNetwork_init_shaped demo_Adam _ _ 2 3 2 1 []) eq_refl).
Defined.

(** Counterexample to C8 as stated: the task number [-1] is none of the
    numbers the prompt offers, and the runs start, on the last task. *)
Lemma DDPG_main_accepts_negative_index :
  ¬ offered task_list (-1) ∧
  DDPG_main (-1) 0 1 = Ok [gym_make "PandaStackDense-v2"; Agent_constructed 0].
Proof. split; [unfold offered; lia|reflexivity]. Qed.

(** Witness of C8: a task number too large, no run, and two runs. *)
Lemma DDPG_main_rejects_witness :
  DDPG_main 7 0 1 = Raise IndexError ∧
  DDPG_main 0 1 0 = Raise ValueError ∧
  DDPG_main 0 1 2
    = Ok [gym_make "PandaReach-v2"; Agent_constructed 0;
          gym_make "PandaReach-v2"; Agent_constructed 1].
Proof.
  pose proof (DDPG_main_rejects 7 0 1) as [H1 _].
  pose proof (DDPG_main_rejects 0 1 0) as [H2 _].
  pose proof (DDPG_main_rejects 0 1 2) as [_ H3].
  destruct H1 as [e1 E1]; [lia|]. destruct H2 as [e2 E2]; [lia|].
  destruct H3 as (T & W & HT & HW & E3); [lia|lia|lia|].
  split; [|split].
  - rewrite E1. vm_compute in E1. by injection E1 as <-.
  - rewrite E2. vm_compute in E2. by injection E2 as <-.
  - rewrite E3. vm_compute in HT, HW. injection HT as <-. injection HW as <-. reflexivity.
Defined.

(** Witness of C9: the example agent. *)
Lemma update_keeps_sources_witness :
  agent_wf demo_agent ∧
  ∃ self', update_network_parameters demo_agent None = Ok self' ∧
           actor self' = actor demo_agent ∧ critic self' = critic demo_agent ∧
           params self' !! 0 = params demo_agent !! 0.
Proof.
  split; [exact demo_agent_wf|].
  destruct (update_network_parameters_spec demo_agent None demo_agent_wf) as (h' & Hh' & _).
  exists (set_params demo_agent h').
  destruct (update_keeps_sources demo_agent _ None demo_agent_wf Hh')
    as (Ha & Hc & Hsrc & _).
  split; [exact Hh'|]. split; [exact Ha|]. split; [exact Hc|].
  apply (Hsrc "fc1.weight" 0). apply list_elem_of_here.
Defined.

(** Witness of C10: a run of [learn] on the example agent. *)
Lemma buffer_unchanged_witness :
  ∃ self',
    learn demo_critic_update demo_actor_update (fun _ => 0)
          (set_memory demo_agent demo_buffer) = Ok self' ∧
    memory self' = demo_buffer.
Proof.
  destruct demo_learn_succeeds as [self' Hself'].
  exists self'. split; [exact Hself'|].
  exact (proj2 (buffer_unchanged demo_critic_update demo_actor_update) _ _ _ Hself').
Defined.

(** * Further properties *)

(** ** ReplayBuffer: what was stored is what is sampled *)

Lemma slot_Some_inv self i s a r s' c :
  slot self i = Some (s, a, r, s', c) →
  state_memory self !! i = Some s ∧ action_memory self !! i = Some a ∧
  reward_memory self !! i = Some r ∧ new_state_memory self !! i = Some s' ∧
  terminal_memory self !! i = Some c.
Proof.
  unfold slot. intros H.
  destruct (state_memory self !! i); [|done].
  destruct (action_memory self !! i); [|done].
  destruct (reward_memory self !! i); [|done].
  destruct (new_state_memory self !! i); [|done].
  destruct (terminal_memory self !! i); [|done].
  simpl in H. by injection H as -> -> -> -> ->.
Qed.

(** X1.  A batch sampled from a buffer of capacity [N ≥ 1] for states
    of dimension [D] and actions of dimension [A] that has received the
    transitions [ts], all of these dimensions, consists of stored
    transitions only: every row of the batch carries the five fields of
    one of the last [N] transitions of [ts], its flag being
    [1 - done]. *)
Theorem sample_returns_stored (rand : nat → nat) (N D A : nat) (ts : list Transition)
    (batch_size : nat) :
  0 < N → ts ≠ [] → Forall (transition_fits D A) ts →
  ∃ buf b,
    store_all (ReplayBuffer_init N D A) ts = Ok buf ∧
    sample_buffer rand buf batch_size = Ok (b, buf) ∧
    ∀ j, j < batch_size →
         ∃ k t, ts !! k = Some t ∧ length ts ≤ k + N ∧
                b_states b !! j = Some (t_state t) ∧
                b_actions b !! j = Some (t_action t) ∧
                b_rewards b !! j = Some (t_reward t) ∧
                b_states_ b !! j = Some (t_state_ t) ∧
                b_terminal b !! j = Some (negb (t_done t)).
Proof.
  intros HN Hts Hfits.
  destruct (store_all_init N D A ts HN Hfits)
    as (buf & Hbuf & Hwf & Hsize & Hcntr & Hrecent & _).
  assert (0 < length ts) as Hlen by (destruct ts; [done|simpl; lia]).
  destruct (sample_buffer_succeeds rand buf batch_size Hwf) as [b Hb].
  { left. rewrite Hsize, Hcntr. lia. }
  exists buf, b. split_and!; try done.
  intros j Hj.
  destruct (sample_buffer_inv _ _ _ _ _ Hb) as (_ & batch & Hbatch & Hs & Ha & Hr & Hs' & Ht).
  destruct (np_random_choice_Ok _ _ _ _ Hbatch) as [Hblen Hball].
  destruct (lookup_lt_is_Some_2 batch j) as [i Hi]; [lia|].
  pose proof (Forall_lookup_1 _ _ _ _ Hball Hi) as HiN. simpl in HiN.
  rewrite Hsize, Hcntr in HiN.
  destruct (latest_index (length ts) N i) as (k & Hk & Hle & Hmod); [lia|lia|].
  destruct (lookup_lt_is_Some_2 ts k Hk) as [t Hkt].
  pose proof (Hrecent k t Hkt Hle) as Hslot. rewrite Hmod in Hslot.
  apply slot_Some_inv in Hslot as (E1 & E2 & E3 & E4 & E5). unfold one_minus in E5.
  exists k, t. split_and!; try done.
  - rewrite <- E1. by eapply np_take_Ok_lookup.
  - rewrite <- E2. by eapply np_take_Ok_lookup.
  - rewrite <- E3. by eapply np_take_Ok_lookup.
  - rewrite <- E4. by eapply np_take_Ok_lookup.
  - rewrite <- E5. by eapply np_take_Ok_lookup.
Qed.

(** ** The noise process *)

Lemma OUActionNoise_call_lookup (normal : vec) (self : OUActionNoise) i p m n :
  x_prev self !! i = Some p → mu self !! i = Some m → normal !! i = Some n →
  (OUActionNoise_call normal self).1 !! i
  = Some (p + theta self * (m - p) * dt self + sigma self * sqrt (dt self) * n)%R.
Proof.
  intros Hp Hm Hn. unfold OUActionNoise_call. simpl.
  rewrite !lookup_zip_with, !list_lookup_fmap, lookup_zip_with, Hp, Hm, Hn. done.
Qed.

Lemma OUActionNoise_call_length (normal : vec) (self : OUActionNoise) :
  length (x_prev self) = length (mu self) → length normal = length (mu self) →
  length (OUActionNoise_call normal self).1 = length (mu self).
Proof.
  intros H1 H2. unfold OUActionNoise_call. simpl.
  rewrite !length_zip_with, !length_map, length_zip_with. lia.
Qed.

Lemma OUActionNoise_calls_fields (normals : list vec) (self : OUActionNoise) :
  theta (OUActionNoise_calls normals self) = theta self ∧
  mu (OUActionNoise_calls normals self) = mu self ∧
  sigma (OUActionNoise_calls normals self) = sigma self ∧
  dt (OUActionNoise_calls normals self) = dt self ∧
  x0 (OUActionNoise_calls normals self) = x0 self.
Proof.
  revert self. induction normals as [|n normals IH]; intros self; [done|].
  change (OUActionNoise_calls (n :: normals) self)
    with (OUActionNoise_calls normals (OUActionNoise_call n self).2).
  destruct (IH (OUActionNoise_call n self).2) as (H1 & H2 & H3 & H4 & H5).
  by rewrite H1, H2, H3, H4, H5.
Qed.

(** X2.  One call of the noise process moves every component by
    [theta * (mu - x) * dt] plus the scaled draw and keeps the result as
    the next state; with draws that are zero, [k] calls bring a
    component from [p] to [m + (1 - theta * dt)^k * (p - m)], where [m]
    is its mean: the process reverts to [mu] geometrically. *)
Theorem OUActionNoise_reverts (self : OUActionNoise) (i : nat) (p m : R) :
  length (x_prev self) = length (mu self) →
  x_prev self !! i = Some p → mu self !! i = Some m →
  (∀ normal n, normal !! i = Some n →
     (OUActionNoise_call normal self).1 !! i
     = Some (p + theta self * (m - p) * dt self + sigma self * sqrt (dt self) * n)%R ∧
     x_prev (OUActionNoise_call normal self).2 = (OUActionNoise_call normal self).1) ∧
  (∀ k,
     x_prev (OUActionNoise_calls (replicate k (np_zeros (length (mu self)))) self) !! i
     = Some (m + (1 - theta self * dt self) ^ k * (p - m))%R).
Proof.
  intros Hlen Hp Hm. split.
  - intros normal n Hn. split; [by apply OUActionNoise_call_lookup|done].
  - intros k. revert self p Hlen Hp Hm. induction k as [|k IH]; intros self p Hlen Hp Hm.
    + simpl. rewrite Hp. f_equal. lra.
    + assert (np_zeros (length (mu self)) !! i = Some 0%R) as Hz.
      { apply lookup_replicate_2. by eapply lookup_lt_Some. }
      pose proof (OUActionNoise_call_lookup _ self i p m 0%R Hp Hm Hz) as Hx.
      set (self1 := (OUActionNoise_call (np_zeros (length (mu self))) self).2).
      set (p1 := (p + theta self * (m - p) * dt self + sigma self * sqrt (dt self) * 0)%R)
        in Hx.
      change (x_prev (OUActionNoise_calls (replicate k (np_zeros (length (mu self1)))) self1)
                !! i = Some (m + (1 - theta self * dt self) ^ S k * (p - m))%R).
      rewrite (IH self1 p1).
      * f_equal. change (theta self1) with (theta self). change (dt self1) with (dt self).
        unfold p1. simpl. ring.
      * change (mu self1) with (mu self). apply OUActionNoise_call_length; [done|].
        unfold np_zeros. by rewrite length_replicate.
      * exact Hx.
      * exact Hm.
Qed.

(** X3.  [reset] forgets the past: whatever calls came before, the state
    after [reset] is the state after a [reset] of the initial process,
    the vector [x0] when one was given and zeros of the dimension of
    [mu] otherwise. *)
Theorem OUActionNoise_reset_forgets (normals : list vec) (self : OUActionNoise) :
  OUActionNoise_reset (OUActionNoise_calls normals self) = OUActionNoise_reset self ∧
  x_prev (OUActionNoise_reset (OUActionNoise_calls normals self))
  = match x0 self with
    | Some x => x
    | None => np_zeros (length (mu self))
    end.
Proof.
  destruct (OUActionNoise_calls_fields normals self) as (H1 & H2 & H3 & H4 & H5).
  unfold OUActionNoise_reset. rewrite H1, H2, H3, H4, H5. done.
Qed.

(** ** Acting *)

Section ActingProperties.

Context {Optim : Type}.
Implicit Types (self : @Agent Optim) (net : @Network Optim).

Lemma T_add_Ok (a b : vec) :
  length a = length b → T_add a b = Ok (zip_with Rplus a b).
Proof. intros H. unfold T_add. by rewrite decide_True. Qed.

Lemma choose_action_unfold (normal : vec) self (observation : vec) :
  choose_action normal self observation
  = mu ← ActorNetwork_forward (params self) (actor self) observation;
    mu_prime ← T_add mu (OUActionNoise_call normal (noise self)).1;
    Ok (mu_prime,
        set_actor (set_noise (set_actor self (eval (actor self)))
                             (OUActionNoise_call normal (noise self)).2)
                  (train (actor self))).
Proof. reflexivity. Qed.

Lemma ActorNetwork_forward_Ok (h : heap) net (D F1 F2 A : nat) (state : vec) :
  ActorNetwork_shaped h net D F1 F2 A → length state = D →
  ∃ out, ActorNetwork_forward h net state = Ok out ∧ length out = A.
Proof.
  intros (W1 & B1 & G1 & E1 & W2 & B2 & G2 & E2 & W3 & B3) Hobs.
  destruct (Linear_forward_Ok _ _ "fc1" state F1 D W1 B1 Hobs) as (x1 & Hx1 & L1).
  destruct (LayerNorm_forward_Ok _ _ "bn1" x1 F1 G1 E1 L1) as (x2 & Hx2 & L2).
  destruct (Linear_forward_Ok _ _ "fc2" (map relu x2) F2 F1 W2 B2) as (x3 & Hx3 & L3).
  { by rewrite length_map. }
  destruct (LayerNorm_forward_Ok _ _ "bn2" x3 F2 G2 E2 L3) as (x4 & Hx4 & L4).
  destruct (Linear_forward_Ok _ _ "mu" (map relu x4) A F2 W3 B3) as (x5 & Hx5 & L5).
  { by rewrite length_map. }
  exists (map tanh x5). split; [|by rewrite length_map].
  unfold ActorNetwork_forward. rewrite Hx1; simpl. rewrite Hx2; simpl.
  rewrite Hx3; simpl. rewrite Hx4; simpl. by rewrite Hx5.
Qed.

Lemma CriticNetwork_forward_Ok (h : heap) net (D F1 F2 A : nat) (state action : vec) :
  CriticNetwork_shaped h net D F1 F2 A → length state = D → length action = A →
  ∃ q, CriticNetwork_forward h net state action = Ok q ∧ length q = 1.
Proof.
  intros (W1 & B1 & G1 & E1 & W2 & B2 & G2 & E2 & Wa & Ba & Wq & Bq) Hstate Haction.
  destruct (Linear_forward_Ok h net "fc1" state F1 D W1 B1 Hstate) as (x1 & Hx1 & L1).
  destruct (LayerNorm_forward_Ok h net "bn1" x1 F1 G1 E1 L1) as (x2 & Hx2 & L2).
  destruct (Linear_forward_Ok h net "fc2" (map relu x2) F2 F1 W2 B2) as (x3 & Hx3 & L3).
  { by rewrite length_map. }
  destruct (LayerNorm_forward_Ok h net "bn2" x3 F2 G2 E2 L3) as (x4 & Hx4 & L4).
  destruct (Linear_forward_Ok h net "action_value" action F2 A Wa Ba Haction)
    as (a1 & Ha1 & La).
  destruct (Linear_forward_Ok h net "q"
              (map relu (zip_with Rplus (map relu x4) (map relu a1))) 1 F2 Wq Bq)
    as (q & Hq & Lq).
  { rewrite length_map, length_zip_with, !length_map. lia. }
  exists q. split; [|done]. unfold CriticNetwork_forward.
  rewrite Hx1; simpl. rewrite Hx2; simpl. rewrite Hx3; simpl. rewrite Hx4; simpl.
  rewrite Ha1; simpl. rewrite T_add_Ok by (rewrite !length_map; lia). simpl.
  exact Hq.
Qed.

(** X4.  [choose_action] returns the output of the actor plus one draw
    of the noise process, so every component of the action is within one
    of its noise term; it advances the noise process, leaves the actor in
    training mode and changes nothing else of the agent.  On an actor of
    the constructor's shapes, an observation of the input dimension and
    a noise process of the dimension of the actions it does return. *)
Theorem choose_action_spec (normal : vec) self (observation : vec) :
  (∀ action self',
     choose_action normal self observation = Ok (action, self') →
     ∃ mu,
       ActorNetwork_forward (params self) (actor self) observation = Ok mu ∧
       action = zip_with Rplus mu (OUActionNoise_call normal (noise self)).1 ∧
       length action = length mu ∧
       (∀ i a n, action !! i = Some a →
                 (OUActionNoise_call normal (noise self)).1 !! i = Some n →
                 (-1 <= a - n <= 1)%R) ∧
       noise self' = (OUActionNoise_call normal (noise self)).2 ∧
       actor self' = train (actor self) ∧
       params self' = params self ∧ memory self' = memory self ∧
       critic self' = critic self ∧ target_actor self' = target_actor self ∧
       target_critic self' = target_critic self ∧
       actor_loss self' = actor_loss self ∧ critic_loss self' = critic_loss self) ∧
  (∀ D F1 F2 A,
     ActorNetwork_shaped (params self) (actor self) D F1 F2 A →
     length observation = D → length normal = A →
     length (mu (noise self)) = A → length (x_prev (noise self)) = A →
     ∃ action self', choose_action normal self observation = Ok (action, self') ∧
                     length action = A).
Proof.
  rewrite choose_action_unfold.
  set (x := (OUActionNoise_call normal (noise self)).1).
  split.
  - intros action self' H.
    apply bind_Ok in H as (m & Hm & H).
    apply bind_Ok in H as (mu_prime & Hadd & H). injection H as <- <-.
    unfold T_add in Hadd. case_decide as Hlen; [|done]. injection Hadd as <-.
    exists m. split_and!; try done.
    + rewrite length_zip_with. lia.
    + intros i a n Ha Hn. rewrite lookup_zip_with in Ha.
      destruct (m !! i) as [y|] eqn:Hy; [|done]. simpl in Ha.
      rewrite Hn in Ha. simpl in Ha. injection Ha as <-.
      destruct (ActorNetwork_forward_tanh _ _ _ _ Hm) as [z ->].
      rewrite list_lookup_fmap in Hy. destruct (z !! i) as [w|]; [|done].
      injection Hy as <-. pose proof (tanh_bounds w). lra.
  - intros D F1 F2 A Hnet Hobs Hnormal Hmu Hx.
    destruct (ActorNetwork_forward_Ok _ _ _ _ _ _ _ Hnet Hobs) as (out & Hout & Lout).
    assert (length x = A) as Hn.
    { rewrite <- Hmu. apply OUActionNoise_call_length; lia. }
    rewrite Hout. simpl. rewrite T_add_Ok by lia. simpl.
    eexists _, _. split; [done|].
    rewrite length_zip_with. lia.
Qed.

(** X5.  On a critic of the constructor's shapes, a state of the input
    dimension and an action of the action dimension, [forward] returns
    one value, the estimate of Q. *)
Theorem CriticNetwork_forward_scalar (h : heap) net (D F1 F2 A : nat) (state action : vec) :
  CriticNetwork_shaped h net D F1 F2 A → length state = D → length action = A →
  ∃ q, CriticNetwork_forward h net state action = Ok [q].
Proof.
  intros Hnet Hstate Haction.
  destruct (CriticNetwork_forward_Ok _ _ _ _ _ _ _ _ Hnet Hstate Haction) as (q & Hq & Lq).
  destruct q as [|q0 [|q1 q]]; simpl in Lq; try lia. by exists q0.
Qed.

End ActingProperties.

(** ** The agent after its construction *)

Lemma assoc_Some_elem_of {A} (name : string) (ps : list (string * A)) (v : A) :
  assoc name ps = Some v → (name, v) ∈ ps.
Proof.
  induction ps as [|[k w] ps IH]; simpl; [done|].
  case_decide as Hk.
  - intros [= ->]. subst. apply list_elem_of_here.
  - intros H. apply list_elem_of_further. by apply IH.
Qed.

Lemma assoc_elem_of {A} (name : string) (ps : list (string * A)) (v : A) :
  NoDup ps.*1 → (name, v) ∈ ps → assoc name ps = Some v.
Proof.
  intros Hnd Hin. destruct (assoc name ps) as [w|] eqn:Hw.
  - apply assoc_Some_elem_of in Hw. f_equal. by eapply NoDup_fst_inj.
  - exfalso. clear Hnd. induction ps as [|[k w] ps IH]; simpl in *.
    + by apply elem_of_nil in Hin.
    + case_decide as Hk; [done|]. apply elem_of_cons in Hin as [[= -> ->]|Hin]; [done|].
      by apply IH.
Qed.

Lemma bind_ext {A B} (m m' : result A) (f f' : A → result B) :
  m = m' → (∀ a, f a = f' a) → m ≫= f = m' ≫= f'.
Proof. intros -> Hf. destruct m'; simpl; [apply Hf|done]. Qed.

Section AgentInitProperties.

Context {Optim : Type}.
Variable Adam : R → Optim.
Implicit Types (self : @Agent Optim) (source target : @Network Optim).

(** A target whose parameters hold the values of the like-named
    parameters of its source reads the same [parameter]s. *)
Lemma parameter_copy (h : heap) source target :
  tracks h source target →
  (∀ name ls lt, (name, ls) ∈ named_parameters source →
                 (name, lt) ∈ named_parameters target → h !! lt = h !! ls) →
  ∀ name, parameter h target name = parameter h source name.
Proof.
  intros Htr Hval name. pose proof Htr as (Hnames & Hnd & _).
  unfold parameter.
  destruct (assoc name (named_parameters source)) as [ls|] eqn:Hs.
  - apply assoc_Some_elem_of in Hs.
    destruct (tracks_source _ _ _ _ _ Htr Hs) as (lt & Hlt & _).
    rewrite (assoc_elem_of name _ lt) by (by rewrite <- Hnames || done).
    simpl. by rewrite (Hval name ls lt).
  - destruct (assoc name (named_parameters target)) as [lt|] eqn:Ht; [|done].
    apply assoc_Some_elem_of in Ht.
    destruct (tracks_target _ _ _ _ _ Htr Ht) as (ls & Hls & _).
    by rewrite (assoc_elem_of name _ ls) in Hs.
Qed.

Lemma Linear_forward_ext (h : heap) source target (layer : string) (x : vec) :
  (∀ name, parameter h target name = parameter h source name) →
  Linear_forward h target layer x = Linear_forward h source layer x.
Proof.
  intros Hp. unfold Linear_forward.
  apply bind_ext; [apply Hp|intros W]. apply bind_ext; [apply Hp|done].
Qed.

Lemma LayerNorm_forward_ext (h : heap) source target (layer : string) (x : vec) :
  (∀ name, parameter h target name = parameter h source name) →
  LayerNorm_forward h target layer x = LayerNorm_forward h source layer x.
Proof.
  intros Hp. unfold LayerNorm_forward.
  apply bind_ext; [apply Hp|intros W]. apply bind_ext; [apply Hp|done].
Qed.

Lemma ActorNetwork_forward_ext (h : heap) source target (state : vec) :
  (∀ name, parameter h target name = parameter h source name) →
  ActorNetwork_forward h target state = ActorNetwork_forward h source state.
Proof.
  intros Hp. unfold ActorNetwork_forward.
  repeat (apply bind_ext;
          [by (apply Linear_forward_ext || apply LayerNorm_forward_ext)|intros ?]).
  done.
Qed.

Lemma CriticNetwork_forward_ext (h : heap) source target (state action : vec) :
  (∀ name, parameter h target name = parameter h source name) →
  CriticNetwork_forward h target state action = CriticNetwork_forward h source state action.
Proof.
  intros Hp. unfold CriticNetwork_forward.
  repeat (apply bind_ext;
          [by (apply Linear_forward_ext || apply LayerNorm_forward_ext)|intros ?]).
  apply bind_ext; [done|intros ?]. by apply Linear_forward_ext.
Qed.

(** X6.  [Agent.__init__] returns an agent with an empty buffer and no
    recorded loss whose target networks are exact copies: every
    parameter of a target holds the value of the like-named parameter of
    its source, so the target actor and the target critic compute what
    the actor and the critic compute. *)
Theorem Agent_init_targets_copy (u : string → string → nat → R) (alpha beta tau : R)
    (A D F1 F2 bs : nat) (g : R) (N : nat) :
  ∃ self,
    Agent_init Adam u alpha beta tau A D F1 F2 bs g N = Ok self ∧
    memory self = ReplayBuffer_init N D A ∧ batch_size self = bs ∧
    actor_loss self = None ∧ critic_loss self = None ∧
    (∀ source target,
       source = critic self ∧ target = target_critic self ∨
       source = actor self ∧ target = target_actor self →
       ∀ name ls lt,
         (name, ls) ∈ named_parameters source → (name, lt) ∈ named_parameters target →
         is_Some (params self !! ls) ∧ params self !! lt = params self !! ls) ∧
    (∀ state,
       ActorNetwork_forward (params self) (target_actor self) state
       = ActorNetwork_forward (params self) (actor self) state) ∧
    (∀ state action,
       CriticNetwork_forward (params self) (target_critic self) state action
       = CriticNetwork_forward (params self) (critic self) state action).
Proof.
  set (self0 := Agent_fields Adam u alpha beta tau A D F1 F2 bs g N).
  pose proof (Agent_fields_wf Adam u alpha beta tau A D F1 F2 bs g N) as Hwf.
  fold self0 in Hwf.
  destruct (update_network_parameters_spec self0 (Some 1%R) Hwf)
    as (h' & Hh' & _ & Hout & Hnew).
  pose proof (update_network_parameters_wf _ _ _ Hwf Hh') as Hwf'.
  assert (∀ source target,
            source = critic self0 ∧ target = target_critic self0 ∨
            source = actor self0 ∧ target = target_actor self0 →
            ∀ name ls lt,
              (name, ls) ∈ named_parameters source → (name, lt) ∈ named_parameters target →
              is_Some (h' !! ls) ∧ h' !! lt = h' !! ls) as Hcopy.
  { intros source target Hpair name ls lt H1 H2.
    assert (same_shape (params self0) ls lt) as Hsame.
    { destruct Hwf as (Hc & Ha & _). destruct Hpair as [[-> ->]|[-> ->]].
      - by apply (pair_same_shape _ _ _ name ls lt Hc).
      - by apply (pair_same_shape _ _ _ name ls lt Ha). }
    pose proof Hsame as (s & old & Hs & Hold & _).
    destruct (same_shape_length _ _ _ _ _ Hsame Hs Hold) as [_ Hlen].
    assert (h' !! ls = Some s) as Hls.
    { rewrite Hout; [done|].
      destruct Hwf as (_ & _ & Hnd). apply NoDup_app in Hnd as (_ & Hdisj & _).
      apply Hdisj. unfold source_locs. rewrite fmap_app.
      destruct Hpair as [[-> ->]|[-> ->]]; apply elem_of_app; [right|left];
        by eapply elem_of_locs. }
    rewrite Hls. split; [by eexists|].
    rewrite (Hnew source target Hpair name ls lt s old H1 H2 Hs Hold).
    f_equal. by apply blend_one. }
  exists (set_params self0 h'). split_and!; try done.
  - intros state. apply ActorNetwork_forward_ext, parameter_copy.
    + by destruct Hwf' as (_ & Ha & _).
    + intros name ls lt H1 H2. by eapply (Hcopy _ _ (or_intror (conj eq_refl eq_refl))).
  - intros state action. apply CriticNetwork_forward_ext, parameter_copy.
    + by destruct Hwf' as (Hc & _ & _).
    + intros name ls lt H1 H2. by eapply (Hcopy _ _ (or_introl (conj eq_refl eq_refl))).
Qed.

End AgentInitProperties.

(** ** Learning *)

Section LearningProperties.

Context {Optim : Type}.
Variable critic_update :
  Optim → list (string * tensor) → list vec → list vec → list vec →
  list (string * tensor) * Optim.
Variable actor_update :
  Optim → list (string * tensor) → list (string * tensor) → list vec →
  list (string * tensor) * Optim.
Implicit Types self : @Agent Optim.

(** X7.  A call of [learn] that passes the guard records both losses
    and leaves the actor in training mode and the critic and the two
    target networks in inference mode; it keeps the discount, the rate,
    the batch size, the noise process, the buffer and the tables of the
    parameters of the four networks. *)
Theorem learn_leaves_modes (rand : nat → nat) self self' :
  learn critic_update actor_update rand self = Ok self' →
  ¬ mem_cntr (memory self) < batch_size self →
  training (actor self') = true ∧ training (critic self') = false ∧
  training (target_actor self') = false ∧ training (target_critic self') = false ∧
  is_Some (actor_loss self') ∧ is_Some (critic_loss self') ∧
  gamma self' = gamma self ∧ tau self' = tau self ∧ batch_size self' = batch_size self ∧
  noise self' = noise self ∧ memory self' = memory self ∧
  named_parameters (actor self') = named_parameters (actor self) ∧
  named_parameters (critic self') = named_parameters (critic self) ∧
  named_parameters (target_actor self') = named_parameters (target_actor self) ∧
  named_parameters (target_critic self') = named_parameters (target_critic self) ∧
  optimizer (target_actor self') = optimizer (target_actor self) ∧
  optimizer (target_critic self') = optimizer (target_critic self).
Proof.
  unfold learn. intros H Hfull. rewrite decide_False in H by done.
  apply bind_Ok in H as ([b m] & Hsample & H).
  apply sample_buffer_inv in Hsample as Hs. destruct Hs as [-> _].
  apply bind_Ok in H as (target_actions & _ & H).
  apply bind_Ok in H as (critic_value_ & _ & H).
  apply bind_Ok in H as (critic_value & _ & H).
  apply bind_Ok in H as (td & _ & H).
  apply bind_Ok in H as (target & _ & H).
  apply bind_Ok in H as (cvals & _ & H).
  destruct (critic_update _ _ _ _ _) as [new o].
  apply bind_Ok in H as (mu & _ & H).
  apply bind_Ok in H as (q & _ & H).
  apply bind_Ok in H as (avals & _ & H).
  apply bind_Ok in H as (cvals' & _ & H).
  destruct (actor_update _ _ _ _) as [new' o'].
  apply update_network_parameters_inv in H as [h ->].
  cbn [training actor critic target_actor target_critic actor_loss critic_loss gamma tau
       batch_size noise memory named_parameters optimizer set_params set_actor set_critic
       set_target_actor set_target_critic set_actor_loss set_critic_loss set_memory
       with_optimizer train eval].
  split_and!; try reflexivity; by eexists.
Qed.

(** X8.  Successive soft updates, the actor and the critic being left
    alone in between, bring every parameter of a target towards the
    like-named parameter of its source geometrically: after [n] updates
    at rate [t] an element that was [y] is [x + (1 - t)^n * (y - x)],
    where [x] is the element of the source.  Every update returns and
    the source parameters keep their values. *)
Theorem update_n_geometric (n : nat) self (tau_arg : option R) :
  agent_wf self →
  let t := default (tau self) tau_arg in
  ∃ self',
    update_n n self tau_arg = Ok self' ∧ agent_wf self' ∧
    ∀ source target,
      source = critic self ∧ target = target_critic self ∨
      source = actor self ∧ target = target_actor self →
      ∀ name ls lt s old,
        (name, ls) ∈ named_parameters source → (name, lt) ∈ named_parameters target →
        params self !! ls = Some s → params self !! lt = Some old →
        ∃ new,
          params self' !! ls = Some s ∧ params self' !! lt = Some new ∧
          shape new = shape old ∧ length (data new) = length (data old) ∧
          ∀ i x y, data s !! i = Some x → data old !! i = Some y →
                   data new !! i = Some (x + (1 - t) ^ n * (y - x))%R.
Proof.
  intros Hwf t. revert self Hwf t. induction n as [|n IH]; intros self Hwf t.
  - exists self. split_and!; try done.
    intros source target Hpair name ls lt s old H1 H2 Hs Hold.
    exists old. split_and!; try done.
    intros i x y Hx Hy. rewrite Hy. f_equal. simpl. lra.
  - destruct (update_network_parameters_spec self tau_arg Hwf)
      as (h1 & Hh1 & _ & Hout & Hnew).
    pose proof (update_network_parameters_wf _ _ _ Hwf Hh1) as Hwf1.
    destruct (IH (set_params self h1) Hwf1) as (self' & Hself' & Hwf' & Hlaw).
    exists self'. simpl. rewrite Hh1. simpl. split_and!; try done.
    intros source target Hpair name ls lt s old H1 H2 Hs Hold.
    assert (same_shape (params self) ls lt) as Hsame.
    { destruct Hwf as (Hc & Ha & _). destruct Hpair as [[-> ->]|[-> ->]].
      - by apply (pair_same_shape _ _ _ name ls lt Hc).
      - by apply (pair_same_shape _ _ _ name ls lt Ha). }
    destruct (same_shape_length _ _ _ _ _ Hsame Hs Hold) as [Hshape Hlen].
    assert (h1 !! ls = Some s) as Hs1.
    { rewrite Hout; [done|].
      destruct Hwf as (_ & _ & Hnd). apply NoDup_app in Hnd as (_ & Hdisj & _).
      apply Hdisj. unfold source_locs. rewrite fmap_app.
      destruct Hpair as [[-> ->]|[-> ->]]; apply elem_of_app; [right|left];
        by eapply elem_of_locs. }
    pose proof (Hnew source target Hpair name ls lt s old H1 H2 Hs Hold) as Hlt1.
    destruct (Hlaw source target Hpair name ls lt s (blend t s old) H1 H2 Hs1 Hlt1)
      as (new & Hls & Hlt & Hsh & Hln & Hdata).
    assert (length (data (blend t s old)) = length (data old)) as Hbl.
    { simpl. rewrite length_zip_with, !length_map. lia. }
    exists new. split; [exact Hls|]. split; [exact Hlt|].
    split; [by rewrite Hsh|]. split; [by rewrite Hln|].
    intros i x y Hx Hy.
    rewrite (Hdata i x (t * x + (1 - t) * y)%R Hx (blend_lookup t s old i x y Hx Hy)).
    f_equal. change (default (tau (set_params self h1)) tau_arg) with t.
    clearbody t. simpl. ring.
Qed.

End LearningProperties.

(** ** Checkpoints *)

Lemma checkpoint_files_differ :
  NoDup [checkpoint_file "Actor"; checkpoint_file "TargetActor";
         checkpoint_file "Critic"; checkpoint_file "TargetCritic"].
Proof. apply (bool_decide_unpack _). by vm_compute. Qed.

Section CheckpointProperties.

Context {Optim : Type}.
Implicit Types (self : @Agent Optim) (net : @Network Optim).

Lemma parameter_values_inv (h : heap) net sd :
  parameter_values h net = Ok sd →
  sd.*1 = (named_parameters net).*1 ∧
  ∀ name l, (name, l) ∈ named_parameters net →
            ∃ t, h !! l = Some t ∧ (name, t) ∈ sd.
Proof.
  unfold parameter_values. generalize (named_parameters net). intros ps. revert sd.
  induction ps as [|[n l] ps IH]; intros sd H; simpl in H.
  - injection H as <-. split; [done|]. intros name l Hin. by apply elem_of_nil in Hin.
  - apply bind_Ok in H as ([n' t] & Ht & H).
    apply bind_Ok in H as (sd' & Hsd' & H). injection H as <-.
    destruct (h !! l) as [t'|] eqn:Hl; [|done]. simpl in Ht. injection Ht as <- <-.
    destruct (IH sd' Hsd') as [Hnames Hall]. split.
    + rewrite !fmap_cons. simpl. f_equal. exact Hnames.
    + intros name l' Hin. apply elem_of_cons in Hin as [[= -> ->]|Hin].
      * exists t'. split; [done|]. apply list_elem_of_here.
      * destruct (Hall name l' Hin) as (t & Ht & Hin'). exists t. split; [done|].
        by apply list_elem_of_further.
Qed.

Lemma parameter_values_succeeds (h : heap) net :
  (∀ name l, (name, l) ∈ named_parameters net → is_Some (h !! l)) →
  ∃ sd, parameter_values h net = Ok sd.
Proof.
  intros Hall. apply traverse_succeeds, Forall_forall. intros [n l] Hin.
  destruct (Hall n l Hin) as [t Ht]. simpl. rewrite Ht. by eexists.
Qed.

Lemma loaded_names (sd : list (string * tensor)) :
  ((fun '(name, t) => (name, Fresh t)) <$> sd).*1 = sd.*1.
Proof. induction sd as [|[n t] sd IH]; simpl; [done|]. by f_equal. Qed.

(** Loading the file that [save_checkpoint] wrote for a network gives its
    parameters the saved values and leaves the rest of the store alone. *)
Lemma checkpoint_restore (fs : Storage) (h h2 : heap) net (name : string) sd :
  NoDup (named_parameters net).*1 → NoDup (named_parameters net).*2 →
  (∀ n l, (n, l) ∈ named_parameters net →
          ∃ t t2, h !! l = Some t ∧ h2 !! l = Some t2 ∧ shape t = shape t2) →
  parameter_values h net = Ok sd →
  files fs !! checkpoint_file name = Some sd →
  ∃ h3, load_checkpoint fs h2 net name = Done h3 ∧
        (∀ n l, (n, l) ∈ named_parameters net → h3 !! l = h !! l) ∧
        (∀ l, l ∉ (named_parameters net).*2 → h3 !! l = h2 !! l).
Proof.
  intros Hnames Hlocs Hshape Hsd Hfile.
  destruct (parameter_values_inv _ _ _ Hsd) as [Hsdn Hsdv].
  set (d := dict ((fun '(name, t) => (name, Fresh t)) <$> sd)).
  assert (∀ n t, (n, t) ∈ sd → d !! n = Some (Fresh t)) as Hd.
  { intros n t Hin. apply dict_lookup.
    - by rewrite loaded_names, Hsdn.
    - apply list_elem_of_fmap. by exists (n, t). }
  assert (dom d = list_to_set (named_parameters net).*1) as Hdom.
  { unfold d. by rewrite dict_dom, loaded_names, Hsdn. }
  destruct (load_loop d (named_parameters net) h2 Hlocs) as (h3 & Hh3 & _ & Hout & Hnew).
  { intros n l Hin. destruct (Hshape n l Hin) as (t & t2 & Ht & Ht2 & Hs).
    destruct (Hsdv n l Hin) as (t' & Ht' & Hin'). rewrite Ht in Ht'. injection Ht' as <-.
    exists t, t2. split_and!; try done. by apply Hd. }
  exists h3. unfold load_checkpoint, T_load. rewrite Hfile. simpl. fold d.
  unfold load_state_dict. rewrite decide_True by done. rewrite Hh3.
  split_and!; try done.
  intros n l Hin. destruct (Hsdv n l Hin) as (t & Ht & Hin').
  rewrite Ht. eapply Hnew; [done|]. by apply Hd.
Qed.

Lemma save_checkpoint_Done (fs : Storage) (h : heap) net (name : string) sd :
  chkpt_dir ∈ directories fs → parameter_values h net = Ok sd →
  save_checkpoint fs h net name
  = Done {| directories := directories fs;
            files := <[checkpoint_file name := sd]> (files fs) |}.
Proof.
  intros Hdir Hsd. unfold save_checkpoint, T_save. rewrite Hsd. by rewrite decide_True.
Qed.

Lemma NoDup_app4 (a b c d : list loc) :
  NoDup ((a ++ b) ++ (c ++ d)) →
  NoDup a ∧ NoDup b ∧ NoDup c ∧ NoDup d ∧
  (∀ x, x ∈ a → (x ∉ b) ∧ (x ∉ c) ∧ (x ∉ d)) ∧
  (∀ x, x ∈ b → (x ∉ c) ∧ (x ∉ d)) ∧
  (∀ x, x ∈ c → x ∉ d).
Proof.
  intros H. apply NoDup_app in H as (Hab & Hdisj & Hcd).
  apply NoDup_app in Hab as (Ha & Hab & Hb).
  apply NoDup_app in Hcd as (Hc & Hcd & Hd).
  split_and!; try done.
  - intros x Hx. split_and!; [by apply Hab| |].
    + intros Hc'. apply (Hdisj x); set_solver.
    + intros Hd'. apply (Hdisj x); set_solver.
  - intros x Hx. split.
    + intros Hc'. apply (Hdisj x); set_solver.
    + intros Hd'. apply (Hdisj x); set_solver.
Qed.

Lemma tracks_alive (h : heap) (source target : @Network Optim) :
  tracks h source target →
  (∀ n l, (n, l) ∈ named_parameters source → is_Some (h !! l)) ∧
  (∀ n l, (n, l) ∈ named_parameters target → is_Some (h !! l)) ∧
  NoDup (named_parameters source).*1 ∧ NoDup (named_parameters target).*1.
Proof.
  intros Htr. pose proof Htr as (Hnames & Hnd & _). split_and!; try done.
  - intros n l Hin. destruct (tracks_source _ _ _ _ _ Htr Hin) as (lt & _ & s & t & Hs & _).
    by eexists.
  - intros n l Hin. destruct (tracks_target _ _ _ _ _ Htr Hin) as (ls & _ & s & t & _ & Ht & _).
    by eexists.
  - by rewrite <- Hnames.
Qed.

(** X9.  [save_models] followed by [load_models] restores the agent:
    whatever values of the same shapes the parameters hold in between,
    after [load_models] every parameter of the four networks holds the
    value it had when [save_models] was called, and the rest of the
    store is as [load_models] found it.  The four checkpoint files are
    different files. *)
Theorem save_load_round_trip (fs : Storage) self (h2 : heap) :
  agent_wf self → chkpt_dir ∈ directories fs →
  (∀ l t, l ∈ source_locs self ++ target_locs self → params self !! l = Some t →
          ∃ t2, h2 !! l = Some t2 ∧ shape t2 = shape t) →
  ∃ fs' h3,
    save_models fs self = Done fs' ∧
    load_models fs' (set_params self h2) = Done (set_params self h3) ∧
    (∀ l, l ∈ source_locs self ++ target_locs self → h3 !! l = params self !! l) ∧
    (∀ l, l ∉ source_locs self ++ target_locs self → h3 !! l = h2 !! l).
Proof.
  intros (Hc & Ha & Hnd) Hdir Hshape.
  unfold source_locs, target_locs in *. rewrite !fmap_app in *.
  set (LA := (named_parameters (actor self)).*2) in *.
  set (LC := (named_parameters (critic self)).*2) in *.
  set (LTA := (named_parameters (target_actor self)).*2) in *.
  set (LTC := (named_parameters (target_critic self)).*2) in *.
  destruct (NoDup_app4 _ _ _ _ Hnd) as (NA & NC & NTA & NTC & DA & DC & DTA).
  destruct (tracks_alive _ _ _ Hc) as (AC & ATC & NnC & NnTC).
  destruct (tracks_alive _ _ _ Ha) as (AA & ATA & NnA & NnTA).
  destruct (parameter_values_succeeds _ _ AA) as [sdA HsdA].
  destruct (parameter_values_succeeds _ _ ATA) as [sdTA HsdTA].
  destruct (parameter_values_succeeds _ _ AC) as [sdC HsdC].
  destruct (parameter_values_succeeds _ _ ATC) as [sdTC HsdTC].
  pose proof checkpoint_files_differ as Hfiles.
  apply NoDup_cons in Hfiles as [F1 Hfiles]. apply NoDup_cons in Hfiles as [F2 Hfiles].
  apply NoDup_cons in Hfiles as [F3 _].
  set (fA := checkpoint_file "Actor") in *. set (fTA := checkpoint_file "TargetActor") in *.
  set (fC := checkpoint_file "Critic") in *. set (fTC := checkpoint_file "TargetCritic") in *.
  assert (fA ≠ fTA ∧ fA ≠ fC ∧ fA ≠ fTC ∧ fTA ≠ fC ∧ fTA ≠ fTC ∧ fC ≠ fTC)
    as (D1 & D2 & D3 & D4 & D5 & D6) by set_solver.
  set (fs' := {| directories := directories fs;
                 files := <[fTC := sdTC]> (<[fC := sdC]> (<[fTA := sdTA]>
                            (<[fA := sdA]> (files fs)))) |}).
  assert (save_models fs self = Done fs') as Hsave.
  { unfold save_models.
    rewrite (save_checkpoint_Done _ _ _ _ sdA) by done. simpl.
    rewrite (save_checkpoint_Done _ _ _ _ sdTA) by done. simpl.
    rewrite (save_checkpoint_Done _ _ _ _ sdC) by done. simpl.
    by rewrite (save_checkpoint_Done _ _ _ _ sdTC) by done. }
  assert (files fs' !! fA = Some sdA) as HfA.
  { simpl. rewrite !lookup_insert_ne by done. apply lookup_insert_eq. }
  assert (files fs' !! fTA = Some sdTA) as HfTA.
  { simpl. rewrite !lookup_insert_ne by done. apply lookup_insert_eq. }
  assert (files fs' !! fC = Some sdC) as HfC.
  { simpl. rewrite lookup_insert_ne by done. apply lookup_insert_eq. }
  assert (files fs' !! fTC = Some sdTC) as HfTC by (simpl; apply lookup_insert_eq).
  (* the shapes of a network's parameters in a heap that agrees with [h2] there *)
  assert (∀ (net : @Network Optim) (hc : heap),
            (∀ n l, (n, l) ∈ named_parameters net → is_Some (params self !! l)) →
            (∀ l, l ∈ (named_parameters net).*2 → l ∈ (LA ++ LC) ++ LTA ++ LTC) →
            (∀ l, l ∈ (named_parameters net).*2 → hc !! l = h2 !! l) →
            ∀ n l, (n, l) ∈ named_parameters net →
                   ∃ t t2, params self !! l = Some t ∧ hc !! l = Some t2 ∧ shape t = shape t2)
    as Hsh.
  { intros net hc Halive Hsub Hagree n l Hin.
    destruct (Halive n l Hin) as [t Ht].
    pose proof (elem_of_locs _ _ _ Hin) as Hl.
    destruct (Hshape l t (Hsub l Hl) Ht) as (t2 & Ht2 & Hs).
    exists t, t2. split_and!; try done. by rewrite Hagree. }
  destruct (checkpoint_restore fs' (params self) h2 (actor self) "Actor" sdA NnA NA)
    as (hA & HhA & HinA & HoutA); try done.
  { apply Hsh; try done. intros l Hl. set_solver. }
  destruct (checkpoint_restore fs' (params self) hA (target_actor self) "TargetActor" sdTA
              NnTA NTA) as (hTA & HhTA & HinTA & HoutTA); try done.
  { apply Hsh; try done; [intros l Hl; set_solver|].
    intros l Hl. apply HoutA. intros Hl'. by destruct (DA l Hl') as (_ & ? & _). }
  destruct (checkpoint_restore fs' (params self) hTA (critic self) "Critic" sdC NnC NC)
    as (hC & HhC & HinC & HoutC); try done.
  { apply Hsh; try done; [intros l Hl; set_solver|].
    intros l Hl. rewrite HoutTA, HoutA; try done.
    - intros Hl'. by destruct (DA l Hl') as (? & _).
    - intros Hl'. by destruct (DC l Hl) as (? & _). }
  destruct (checkpoint_restore fs' (params self) hC (target_critic self) "TargetCritic" sdTC
              NnTC NTC) as (hTC & HhTC & HinTC & HoutTC); try done.
  { apply Hsh; try done; [intros l Hl; set_solver|].
    intros l Hl. rewrite HoutC, HoutTA, HoutA; try done.
    - intros Hl'. by destruct (DA l Hl') as (_ & _ & ?).
    - intros Hl'. by destruct (DTA l Hl').
    - intros Hl'. by destruct (DC l Hl') as (_ & ?). }
  exists fs', hTC. split; [done|]. split.
  { unfold load_models. simpl. rewrite HhA. simpl. rewrite HhTA. simpl.
    rewrite HhC. simpl. by rewrite HhTC. }
  assert (∀ (ps : list (string * loc)) l, l ∈ ps.*2 → ∃ n, (n, l) ∈ ps) as Hname.
  { intros ps l Hl. apply list_elem_of_fmap in Hl as ([n l'] & -> & Hin). by exists n. }
  split.
  - intros l Hl. apply elem_of_app in Hl as [Hl|Hl]; apply elem_of_app in Hl as [Hl|Hl].
    + destruct (Hname _ _ Hl) as [n Hn]. destruct (DA l Hl) as (H1 & H2 & H3).
      rewrite HoutTC, HoutC, HoutTA by done. by eapply HinA.
    + destruct (Hname _ _ Hl) as [n Hn]. destruct (DC l Hl) as (H1 & H2).
      rewrite HoutTC by done. by eapply HinC.
    + destruct (Hname _ _ Hl) as [n Hn]. pose proof (DTA l Hl) as H1.
      rewrite HoutTC, HoutC; try done.
      * by eapply HinTA.
      * intros Hl'. by destruct (DC l Hl') as (? & _).
    + destruct (Hname _ _ Hl) as [n Hn]. by eapply HinTC.
  - intros l Hl. rewrite HoutTC, HoutC, HoutTA, HoutA; set_solver.
Qed.

End CheckpointProperties.

(** ** The training loop *)

Section EpisodeProperties.

Context {Optim Env : Type}.
Variable critic_update :
  Optim → list (string * tensor) → list vec → list vec → list vec →
  list (string * tensor) * Optim.
Variable actor_update :
  Optim → list (string * tensor) → list (string * tensor) → list vec →
  list (string * tensor) * Optim.
Variable env_reset : Env → Obs * Env.
Variable env_step : Env → vec → Obs * R * bool * Env.
Implicit Types (self agent : @Agent Optim) (env : Env).

Lemma choose_action_memory (normal : vec) self (observation action : vec) self' :
  choose_action normal self observation = Ok (action, self') →
  memory self' = memory self.
Proof.
  rewrite choose_action_unfold. intros H.
  apply bind_Ok in H as (m & _ & H). apply bind_Ok in H as (mu_prime & _ & H).
  by injection H as <- <-.
Qed.

Lemma learn_memory (rand : nat → nat) self self' :
  learn critic_update actor_update rand self = Ok self' → memory self' = memory self.
Proof.
  intros H. destruct (decide (mem_cntr (memory self) < batch_size self)) as [Hlt|Hfull].
  - unfold learn in H. rewrite decide_True in H by done. by injection H as <-.
  - destruct (learn_inv _ _ _ _ _ H Hfull) as (? & ? & ? & ? & ? & ? & H'). apply H'.
Qed.

Lemma sum_rewards (acc : R) (rs : list R) : (acc + sum rs = foldl Rplus acc rs)%R.
Proof.
  revert acc. induction rs as [|r rs IH]; intros acc; simpl.
  - unfold sum. simpl. lra.
  - rewrite <- IH. unfold sum. simpl. lra.
Qed.

(** The transitions that the loop hands to [remember], oldest first. *)
Lemma while_not_done_inv (fuel : nat) (normal : nat → vec) (rand : nat → nat → nat)
    (observation : vec) (k : nat) agent env (done : bool) (score : R) agent' env' score' :
  while_not_done critic_update actor_update env_step fuel normal rand observation k
                 agent env done score = Ok (Some (agent', env', score')) →
  ∃ ts,
    length ts ≤ fuel ∧ (done = true → ts = []) ∧ (done = false → ts ≠ []) ∧
    store_all (memory agent) ts = Ok (memory agent') ∧
    (∀ i t, ts !! i = Some t →
            t_state t = observation ∧ t_done t = bool_decide (S i = length ts)) ∧
    score' = (score + sum (t_reward <$> ts))%R ∧
    ∀ fuel', fuel ≤ fuel' →
             while_not_done critic_update actor_update env_step fuel' normal rand observation k
                            agent env done score = Ok (Some (agent', env', score')).
Proof.
  revert k agent env done score.
  induction fuel as [|fuel IH]; intros k agent env done score H.
  - destruct done; [|done]. injection H as <- <- <-.
    exists []. split_and!; try done.
    + unfold sum. simpl. lra.
    + intros fuel' _. by destruct fuel'.
  - destruct done.
    { injection H as <- <- <-. exists []. split_and!; try done.
      + simpl. lia.
      + unfold sum. simpl. lra.
      + intros fuel' _. by destruct fuel'. }
    simpl in H.
    apply bind_Ok in H as ([action agent1] & Hact & H).
    destruct (env_step env action) as [[[new_state reward] done'] env1] eqn:Hstep.
    apply bind_Ok in H as (agent2 & Hrem & H).
    apply bind_Ok in H as (agent3 & Hlearn & H).
    unfold remember in Hrem. apply bind_Ok in Hrem as (m & Hm & Hrem).
    injection Hrem as <-.
    pose proof (choose_action_memory _ _ _ _ _ Hact) as Hm1.
    pose proof (learn_memory _ _ _ Hlearn) as Hm3. simpl in Hm3.
    destruct (IH _ _ _ _ _ H) as (ts & Hlen & Hnil & Hcons & Hstore & Hts & Hscore & Hfuel).
    exists ({| t_state := observation; t_action := action; t_reward := reward;
               t_state_ := flatten_obs new_state; t_done := done' |} :: ts).
    split_and!; try done.
    + simpl. lia.
    + simpl. unfold store. simpl. rewrite <- Hm1, Hm. simpl. by rewrite <- Hm3.
    + intros [|i] t Hi; simpl in Hi.
      * injection Hi as <-. simpl. split; [done|].
        destruct done'.
        -- rewrite Hnil by done. by rewrite bool_decide_eq_true_2.
        -- rewrite bool_decide_eq_false_2; [done|].
           intros [= Hl]. apply Hcons; [done|]. by destruct ts.
      * destruct (Hts i t Hi) as [-> ->]. split; [done|].
        apply bool_decide_ext. simpl. lia.
    + rewrite Hscore. rewrite fmap_cons. unfold sum. simpl. lra.
    + intros [|fuel'] Hle; [lia|]. simpl. rewrite Hact. simpl. rewrite Hstep.
      unfold remember. rewrite Hm. simpl. rewrite Hlearn. simpl.
      apply Hfuel. lia.
Qed.

(** X11.  An episode of [run] that ends hands [remember] one transition
    per step, and every one of them has the first observation of the
    episode as its state: the loop assigns the new observation to [obs],
    not to [observation].  The transitions are stored in order into the
    buffer the agent had, only the last is marked done, the score is the
    sum of their rewards, and more iterations than the episode needed do
    not change what it returns. *)
Theorem episode_transitions (fuel : nat) (normal : nat → vec) (rand : nat → nat → nat)
    agent env agent' env' (score : R) :
  episode critic_update actor_update env_reset env_step fuel normal rand agent env
  = Ok (Some (agent', env', score)) →
  ∃ ts,
    ts ≠ [] ∧ length ts ≤ fuel ∧
    store_all (memory agent) ts = Ok (memory agent') ∧
    mem_cntr (memory agent') = mem_cntr (memory agent) + length ts ∧
    (∀ i t, ts !! i = Some t →
            t_state t = flatten_obs (env_reset env).1 ∧
            t_done t = bool_decide (S i = length ts)) ∧
    score = sum (t_reward <$> ts) ∧
    ∀ fuel', fuel ≤ fuel' →
             episode critic_update actor_update env_reset env_step fuel' normal rand agent env
             = Ok (Some (agent', env', score)).
Proof.
  unfold episode. destruct (env_reset env) as [obs env0]. intros H.
  destruct (while_not_done_inv _ _ _ _ _ _ _ _ _ _ _ _ H)
    as (ts & Hlen & _ & Hcons & Hstore & Hts & Hscore & Hfuel).
  exists ts. split_and!; try done.
  - by apply Hcons.
  - simpl in Hstore. clear -Hstore. revert Hstore. generalize (memory agent).
    induction ts as [|t ts IH]; intros m Hstore; simpl in Hstore.
    + injection Hstore as <-. simpl. lia.
    + apply bind_Ok in Hstore as (m1 & Hm1 & Hstore). rewrite (IH _ Hstore).
      unfold store, store_transition in Hm1. bind_inv Hm1. injection Hm1 as <-. simpl. lia.
  - rewrite Hscore. lra.
Qed.

End EpisodeProperties.

(** ** The shapes of the parameters *)

Lemma same_shapes_refl (h : heap) : same_shapes h h.
Proof. split; [done|]. intros l t Hl. by exists t. Qed.

Lemma same_shapes_trans (h1 h2 h3 : heap) :
  same_shapes h1 h2 → same_shapes h2 h3 → same_shapes h1 h3.
Proof.
  intros [L12 H12] [L23 H23]. split; [congruence|].
  intros l t Hl. destruct (H12 l t Hl) as (t2 & Hl2 & Hs2 & Hw2).
  destruct (H23 l t2 Hl2) as (t3 & Hl3 & Hs3 & Hw3).
  exists t3. split_and!; [done|congruence|tauto].
Qed.

Lemma same_shapes_insert (h h' : heap) (l : nat) (t t0 : tensor) :
  same_shapes h h' → h !! l = Some t0 → shape t = shape t0 →
  (tensor_wf t0 → tensor_wf t) → same_shapes h (<[l := t]> h').
Proof.
  intros [Hlen Hall] Hl Hs Hwf. split; [by rewrite length_insert|].
  intros l' t1 Hl'. destruct (decide (l = l')) as [Heq|Hne].
  - subst l'. rewrite Hl in Hl'. injection Hl' as <-. exists t. split_and!; try done.
    apply list_lookup_insert_eq. rewrite Hlen. by eapply lookup_lt_Some.
  - rewrite list_lookup_insert_ne by done. by apply Hall.
Qed.

Lemma length_concat_singletons (l : list vec) :
  Forall (fun v => length v = 1) l → length (concat l) = length l.
Proof.
  induction 1 as [|v l Hv _ IH]; simpl; [done|]. rewrite length_app, Hv, IH. lia.
Qed.

Lemma traverse_total {A B} (f : A → result B) (P : A → Prop) (Q : B → Prop) (l : list A) :
  (∀ x, P x → ∃ y, f x = Ok y ∧ Q y) → Forall P l →
  ∃ ys, traverse f l = Ok ys ∧ length ys = length l ∧ Forall Q ys.
Proof.
  intros Hf. induction 1 as [|x l Hx _ (ys & Hys & Hlen & HQ)]; simpl.
  - by exists [].
  - destruct (Hf x Hx) as (y & Hy & Qy). rewrite Hy, Hys. simpl.
    exists (y :: ys). split_and!; [done|simpl; lia|by constructor].
Qed.

Lemma Forall_zip_pair {A B} (P : A → Prop) (Q : B → Prop) (l : list A) (k : list B) :
  Forall P l → Forall Q k → Forall (fun p => P p.1 ∧ Q p.2) (zip l k).
Proof.
  intros Hl. revert k. induction Hl as [|x l Hx _ IH]; intros k Hk; simpl; [constructor|].
  destruct Hk as [|y k Hy Hk]; [constructor|]. constructor; [done|]. by apply IH.
Qed.

Lemma np_take_Forall {A} (P : A → Prop) (arr : list A) (batch : list nat) (r : list A) :
  np_take arr batch = Ok r → Forall P arr → length r = length batch ∧ Forall P r.
Proof.
  intros H Harr. split; [by eapply traverse_Ok_length|].
  apply Forall_lookup. intros j x Hj.
  assert (j < length batch) as Hlt.
  { rewrite <- (traverse_Ok_length _ _ _ H). by eapply lookup_lt_Some. }
  destruct (lookup_lt_is_Some_2 batch j Hlt) as [i Hi].
  destruct (np_take_Ok_lookup _ _ _ _ _ H Hi) as [_ Heq].
  rewrite Hj in Heq. symmetry in Heq. by eapply (proj1 (Forall_lookup _ _) Harr).
Qed.

Section ShapeProperties.

Context {Optim : Type}.
Implicit Types (self : @Agent Optim) (net : @Network Optim).

Lemma has_parameter_same_shapes (h h' : heap) net net' (name : string) (shp : list nat) :
  same_shapes h h' → named_parameters net' = named_parameters net →
  has_parameter h net name shp → has_parameter h' net' name shp.
Proof.
  intros [_ Hall] Hnames (t & Ht & Hs & Hwf). unfold has_parameter, parameter in *.
  rewrite Hnames. destruct (assoc name (named_parameters net)) as [l|]; [|done].
  simpl in *. unfold loc in *. destruct (h !! l) as [t0|] eqn:Hl; [|done]. injection Ht as ->.
  destruct (Hall l t Hl) as (t' & -> & Hs' & Hwf').
  exists t'. split_and!; [done|congruence|tauto].
Qed.

Lemma ActorNetwork_shaped_same_shapes (h h' : heap) net net' (D F1 F2 A : nat) :
  same_shapes h h' → named_parameters net' = named_parameters net →
  ActorNetwork_shaped h net D F1 F2 A → ActorNetwork_shaped h' net' D F1 F2 A.
Proof.
  intros Hh Hn H. unfold ActorNetwork_shaped in *.
  destruct H as (H1 & H2 & H3 & H4 & H5 & H6 & H7 & H8 & H9 & H10).
  split_and!; by eapply has_parameter_same_shapes.
Qed.

Lemma CriticNetwork_shaped_same_shapes (h h' : heap) net net' (D F1 F2 A : nat) :
  same_shapes h h' → named_parameters net' = named_parameters net →
  CriticNetwork_shaped h net D F1 F2 A → CriticNetwork_shaped h' net' D F1 F2 A.
Proof.
  intros Hh Hn H. unfold CriticNetwork_shaped in *.
  destruct H as (H1 & H2 & H3 & H4 & H5 & H6 & H7 & H8 & H9 & H10 & H11 & H12).
  split_and!; by eapply has_parameter_same_shapes.
Qed.

Lemma tracks_same_shapes (h h' : heap) (source target source' target' : @Network Optim) :
  same_shapes h h' →
  named_parameters source' = named_parameters source →
  named_parameters target' = named_parameters target →
  tracks h source target → tracks h' source' target'.
Proof.
  intros [_ Hall] Hs Ht (Hnames & Hnd & HF). unfold tracks. rewrite Hs, Ht.
  split_and!; try done. eapply Forall2_impl; [exact HF|].
  intros p q (s & t & H1 & H2 & Hshape & Hw1 & Hw2).
  destruct (Hall _ _ H1) as (s' & Hs1 & Hs2 & Hs3).
  destruct (Hall _ _ H2) as (t' & Ht1 & Ht2 & Ht3).
  exists s', t'. split_and!; [done|done|congruence|tauto|tauto].
Qed.

(** In-place updates of the parameters, changes of mode and of
    optimiser state keep an agent fit for its dimensions. *)
Lemma agent_shaped_same_shapes self self' (D F1 F2 A : nat) :
  same_shapes (params self) (params self') →
  named_parameters (actor self') = named_parameters (actor self) →
  named_parameters (critic self') = named_parameters (critic self) →
  named_parameters (target_actor self') = named_parameters (target_actor self) →
  named_parameters (target_critic self') = named_parameters (target_critic self) →
  buffer_rows (memory self') D A → noise_dim (noise self') A →
  agent_shaped self D F1 F2 A → agent_shaped self' D F1 F2 A.
Proof.
  intros Hh Na Nc Nta Ntc Hm Hn ((Hc & Ha & Hnd) & Sa & Sta & Sc & Stc & _).
  unfold agent_shaped, agent_wf, source_locs, target_locs.
  rewrite Na, Nc, Nta, Ntc. split_and!; try done.
  - by eapply tracks_same_shapes.
  - by eapply tracks_same_shapes.
  - by eapply ActorNetwork_shaped_same_shapes.
  - by eapply ActorNetwork_shaped_same_shapes.
  - by eapply CriticNetwork_shaped_same_shapes.
  - by eapply CriticNetwork_shaped_same_shapes.
Qed.

(** [optimizer.step()] keeps the shapes of what is in the store. *)
Lemma step_parameters_shapes (h : heap) net (vals new : list (string * tensor)) :
  NoDup (named_parameters net).*1 →
  parameter_values h net = Ok vals → step_keeps_shapes vals new →
  same_shapes h (step_parameters h net new).
Proof.
  intros Hnd Hvals Hstep. destruct (parameter_values_inv _ _ _ Hvals) as [Hnames Hin].
  unfold step_parameters.
  assert (∀ (ps : list (string * loc)) (h' : heap),
            (∀ p, p ∈ ps → p ∈ named_parameters net) → same_shapes h h' →
            same_shapes h (foldl (fun h' '(name, l) =>
                                    match assoc name new with
                                    | Some t => <[l := t]> h'
                                    | None => h'
                                    end) h' ps)) as Hloop.
  { induction ps as [|[name l] ps IH]; intros h' Hsub Hh'; simpl; [done|].
    apply IH; [intros p Hp; apply Hsub; by apply list_elem_of_further|].
    destruct (assoc name new) as [t|] eqn:Hnew; [|done].
    destruct (Hstep name t Hnew) as (t0 & Hold & Hs & Hlen).
    destruct (Hin name l) as (t1 & Hl & Hin1); [apply Hsub, list_elem_of_here|].
    assert (t1 = t0) as ->.
    { apply assoc_Some_elem_of in Hold. eapply NoDup_fst_inj; [|exact Hin1|exact Hold].
      by rewrite Hnames. }
    eapply same_shapes_insert; try done.
    unfold tensor_wf. intros Hwf. by rewrite Hlen, Hs. }
  apply Hloop; [done|apply same_shapes_refl].
Qed.

(** The soft update keeps the shapes of what is in the store. *)
Lemma update_network_parameters_shapes self self' (tau_arg : option R) :
  agent_wf self → update_network_parameters self tau_arg = Ok self' →
  same_shapes (params self) (params self') ∧ self' = set_params self (params self').
Proof.
  intros Hwf H.
  destruct (update_network_parameters_spec self tau_arg Hwf) as (h' & Hh' & Hlen & Hout & Hnew).
  rewrite Hh' in H. injection H as <-. simpl. split; [|done].
  split; [done|]. intros l t Hl.
  destruct (decide (l ∈ target_locs self)) as [Hin|Hnin].
  2:{ exists t. by rewrite Hout. }
  destruct Hwf as (Hc & Ha & Hnd).
  unfold target_locs in Hin. rewrite fmap_app in Hin.
  assert (∀ source target,
            source = critic self ∧ target = target_critic self ∨
            source = actor self ∧ target = target_actor self →
            tracks (params self) source target →
            l ∈ (named_parameters target).*2 →
            ∃ t', h' !! l = Some t' ∧ shape t' = shape t ∧ (tensor_wf t → tensor_wf t'))
    as Hcase.
  { intros source target Hpair Htr Hl'.
    apply list_elem_of_fmap in Hl' as ([name l'] & -> & Hl').
    destruct (tracks_target _ _ _ _ _ Htr Hl') as (ls & Hls & Hsame).
    pose proof Hsame as (s & old & Hs & Hold & Hshape & Hws & Hwold).
    simpl in Hl. unfold loc in *. rewrite Hl in Hold. injection Hold as <-.
    exists (blend (default (tau self) tau_arg) s t). split_and!.
    - by eapply Hnew.
    - simpl. done.
    - intros _. apply blend_wf; [done|].
      unfold tensor_wf in *. by rewrite Hws, Hwold, Hshape. }
  apply elem_of_app in Hin as [Hin|Hin].
  - by apply (Hcase (actor self) (target_actor self)); [right| |].
  - by apply (Hcase (critic self) (target_critic self)); [left| |].
Qed.

End ShapeProperties.

(** ** The training loop never raises *)

Lemma bind_total {A B} (m : result A) (k : A → result B) (P : B → Prop) (a : A) :
  m = Ok a → (∃ b, k a = Ok b ∧ P b) → ∃ b, m ≫= k = Ok b ∧ P b.
Proof. by intros ->. Qed.

Lemma td_target_total (gamma : R) (reward : list R) (critic_value_ : list vec)
    (done : list bool) (n : nat) :
  n ≤ length reward → n ≤ length critic_value_ → n ≤ length done →
  Forall (fun q => length q = 1) critic_value_ →
  ∃ td, td_target gamma reward critic_value_ done n = Ok td ∧
        length td = n ∧ Forall (fun v => length v = 1) td.
Proof.
  intros Hr Hq Hd Hone. unfold td_target.
  edestruct (traverse_total
               (fun j => match reward !! j, critic_value_ !! j, done !! j with
                         | Some r, Some q, Some d =>
                             Ok (map (fun x => (r + gamma * x * int d)%R) q)
                         | _, _, _ => Raise IndexError
                         end)
               (fun j => j < n) (fun v : vec => length v = 1) (seq 0 n))
    as (td & Htd & Hlen & Hall).
  - intros j Hj.
    destruct (lookup_lt_is_Some_2 reward j) as [r ->]; [lia|].
    destruct (lookup_lt_is_Some_2 critic_value_ j) as [q Hqj]; [lia|].
    destruct (lookup_lt_is_Some_2 done j) as [d ->]; [lia|].
    rewrite Hqj. eexists. split; [done|]. rewrite length_map.
    by eapply (proj1 (Forall_lookup _ _) Hone).
  - apply Forall_forall. intros j Hj. apply elem_of_seq in Hj. lia.
  - exists td. rewrite length_seq in Hlen. by split_and!.
Qed.

Lemma view_column_total (target : list vec) (batch_size : nat) :
  length target = batch_size → Forall (fun v => length v = 1) target →
  ∃ col, view_column target batch_size = Ok col.
Proof.
  intros Hlen Hone. unfold view_column.
  rewrite decide_True by (by rewrite length_concat_singletons). by eexists.
Qed.

Section LoopProperties.

Context {Optim : Type}.
Variable critic_update :
  Optim → list (string * tensor) → list vec → list vec → list vec →
  list (string * tensor) * Optim.
Variable actor_update :
  Optim → list (string * tensor) → list (string * tensor) → list vec →
  list (string * tensor) * Optim.
Hypothesis critic_update_shapes :
  ∀ o ps state action target,
    step_keeps_shapes ps (critic_update o ps state action target).1.
Hypothesis actor_update_shapes :
  ∀ o ps cs state, step_keeps_shapes ps (actor_update o ps cs state).1.
Implicit Types (self : @Agent Optim) (net : @Network Optim).

Lemma actors_total (h : heap) net (D F1 F2 A : nat) (states : list vec) :
  ActorNetwork_shaped h net D F1 F2 A → Forall (fun s => length s = D) states →
  ∃ out, traverse (ActorNetwork_forward h net) states = Ok out ∧
         length out = length states ∧ Forall (fun a => length a = A) out.
Proof.
  intros Hnet. apply traverse_total. intros s Hs. by eapply ActorNetwork_forward_Ok.
Qed.

Lemma critics_total (h : heap) net (D F1 F2 A : nat) (states actions : list vec) :
  CriticNetwork_shaped h net D F1 F2 A →
  Forall (fun s => length s = D) states → Forall (fun a => length a = A) actions →
  ∃ out, traverse (fun '(s, a) => CriticNetwork_forward h net s a) (zip states actions)
         = Ok out ∧
         length out = length (zip states actions) ∧ Forall (fun q => length q = 1) out.
Proof.
  intros Hnet Hs Ha.
  apply (traverse_total _ (fun p => length p.1 = D ∧ length p.2 = A)).
  - intros [s a] [H1 H2]. by eapply CriticNetwork_forward_Ok.
  - exact (Forall_zip_pair (fun s => length s = D) (fun a => length a = A) _ _ Hs Ha).
Qed.

Lemma parameter_values_total (h h' : heap) net :
  same_shapes h h' →
  (∀ name l, (name, l) ∈ named_parameters net → is_Some (h !! l)) →
  ∃ sd, parameter_values h' net = Ok sd.
Proof.
  intros [_ Hall] Halive. apply parameter_values_succeeds. intros name l Hin.
  destruct (Halive name l Hin) as [t Ht]. destruct (Hall l t Ht) as (t' & Ht' & _).
  by exists t'.
Qed.

(** [learn] on an agent fit for its dimensions: the shapes of the rows
    of the batch, of the outputs of the networks and of the parameters
    agree at every step. *)
Lemma learn_shaped (rand : nat → nat) self (D F1 F2 A : nat) :
  agent_shaped self D F1 F2 A →
  ∃ self', learn critic_update actor_update rand self = Ok self' ∧
           agent_shaped self' D F1 F2 A ∧
           same_shapes (params self) (params self').
Proof.
  intros Hsh.
  pose proof Hsh as (Hwf & Sa & Sta & Sc & Stc & (Hpos & Hbwf & Hst & Hst_ & Hac) & Hno).
  unfold learn. destruct (decide (mem_cntr (memory self) < batch_size self)) as [Hlt|Hfull].
  { exists self. split_and!; [done|done|apply same_shapes_refl]. }
  destruct (sample_buffer_succeeds rand (memory self) (batch_size self) Hbwf) as [b Hb].
  { destruct (batch_size self); [by right|left]. lia. }
  destruct (sample_buffer_inv _ _ _ _ _ Hb) as (_ & batch & Hbatch & Ts & Ta & Tr & Ts_ & Tt).
  destruct (np_random_choice_Ok _ _ _ _ Hbatch) as [Lbatch _].
  destruct (np_take_Forall _ _ _ _ Ts Hst) as [Ls Fs].
  destruct (np_take_Forall _ _ _ _ Ta Hac) as [La Fa].
  destruct (np_take_Forall _ _ _ _ Ts_ Hst_) as [Ls_ Fs_].
  pose proof (traverse_Ok_length _ _ _ Tr) as Lr.
  pose proof (traverse_Ok_length _ _ _ Tt) as Lt.
  eapply bind_total; [exact Hb|].
  cbn [params actor critic target_actor target_critic memory batch_size gamma tau noise
       actor_loss critic_loss
       set_memory set_target_actor set_target_critic set_critic set_actor set_params
       set_critic_loss set_actor_loss].
  (* the target of the critic *)
  destruct (actors_total (params self) (eval (target_actor self)) D F1 F2 A (b_states_ b))
    as (target_actions & Hta & Lta & Fta); [exact Sta|done|].
  eapply bind_total; [exact Hta|].
  destruct (critics_total (params self) (eval (target_critic self)) D F1 F2 A
              (b_states_ b) target_actions)
    as (critic_value_ & Hcv_ & Lcv_ & Fcv_); [exact Stc|done|done|].
  eapply bind_total; [exact Hcv_|].
  destruct (critics_total (params self) (eval (critic self)) D F1 F2 A
              (b_states b) (b_actions b))
    as (critic_value & Hcv & Lcv & Fcv); [exact Sc|done|done|].
  eapply bind_total; [exact Hcv|].
  rewrite length_zip in Lcv_, Lcv.
  destruct (td_target_total (gamma self) (b_rewards b) critic_value_ (b_terminal b)
              (batch_size self)) as (td & Htd & Ltd & Ftd); [lia|lia|lia|done|].
  eapply bind_total; [exact Htd|].
  destruct (view_column_total td (batch_size self) Ltd Ftd) as [target Htarget].
  eapply bind_total; [exact Htarget|].
  (* the step of the critic *)
  destruct Hwf as (Hc & Ha & Hnd).
  destruct (tracks_alive _ _ _ Hc) as (AC & ATC & NnC & NnTC).
  destruct (tracks_alive _ _ _ Ha) as (AA & ATA & NnA & NnTA).
  destruct (parameter_values_succeeds (params self) (train (eval (critic self))) AC)
    as [critic_values Hcvals].
  eapply bind_total; [exact Hcvals|].
  pose proof (critic_update_shapes (optimizer (train (eval (critic self)))) critic_values
                (b_states b) (b_actions b) target) as Hcu.
  destruct (critic_update _ _ _ _ _) as [new o]. simpl in Hcu.
  pose proof (step_parameters_shapes (params self) (train (eval (critic self)))
                critic_values new NnC Hcvals Hcu) as H01.
  set (h1 := step_parameters (params self) (train (eval (critic self))) new) in *.
  (* the step of the actor *)
  destruct (actors_total h1 (actor self) D F1 F2 A (b_states b)) as (mu & Hmu & Lmu & Fmu);
    [by eapply ActorNetwork_shaped_same_shapes|done|].
  eapply bind_total; [exact Hmu|].
  destruct (critics_total h1 (eval (with_optimizer (train (eval (critic self))) o))
              D F1 F2 A (b_states b) mu) as (q & Hq & Lq & Fq);
    [by eapply CriticNetwork_shaped_same_shapes|done|done|].
  eapply bind_total; [exact Hq|].
  destruct (parameter_values_total (params self) h1 (train (actor self)) H01 AA)
    as [actor_values Havals].
  eapply bind_total; [exact Havals|].
  destruct (parameter_values_total (params self) h1
              (eval (with_optimizer (train (eval (critic self))) o)) H01 AC)
    as [critic_values' Hcvals'].
  eapply bind_total; [exact Hcvals'|].
  pose proof (actor_update_shapes (optimizer (train (actor self))) actor_values critic_values'
                (b_states b)) as Hau.
  destruct (actor_update _ _ _ _) as [new' o']. simpl in Hau.
  pose proof (step_parameters_shapes h1 (train (actor self)) actor_values new' NnA Havals Hau)
    as H12.
  pose proof (same_shapes_trans _ _ _ H01 H12) as H02.
  (* the soft update *)
  match goal with
  | |- ∃ _, update_network_parameters ?s None = _ ∧ _ => set (self2 := s)
  end.
  assert (agent_shaped self2 D F1 F2 A) as Hsh2.
  { apply (agent_shaped_same_shapes self); try reflexivity;
      [exact H02|by split_and!|exact Hno|exact Hsh]. }
  destruct (update_network_parameters_spec self2 None (proj1 Hsh2)) as (h3 & Hh3 & _).
  destruct (update_network_parameters_shapes self2 _ None (proj1 Hsh2) Hh3) as [H23 _].
  exists (set_params self2 h3). split; [exact Hh3|]. split.
  - apply (agent_shaped_same_shapes self2); try reflexivity;
      [exact H23|by split_and!|exact Hno|exact Hsh2].
  - exact (same_shapes_trans _ _ _ H02 H23).
Qed.

(** X12.  On an agent fit for its dimensions (networks of the
    constructor's shapes, a buffer of positive capacity with rows of the
    dimensions of states and actions) [learn] raises no exception,
    whatever the buffer holds and whatever is drawn, provided the two
    optimiser steps return values of the shapes they were given.  The
    agent stays fit for its dimensions, every parameter keeps its shape,
    and once the buffer holds [batch_size] transitions both losses are
    recorded: the critic returns one value a row, which is what the
    reshaping of the target to a column needs. *)
Theorem learn_total (rand : nat → nat) self (D F1 F2 A : nat) :
  agent_shaped self D F1 F2 A →
  ∃ self', learn critic_update actor_update rand self = Ok self' ∧
           agent_shaped self' D F1 F2 A ∧
           same_shapes (params self) (params self') ∧
           (¬ mem_cntr (memory self) < batch_size self →
            is_Some (critic_loss self') ∧ is_Some (actor_loss self') ∧
            ∃ b critic_value_ td,
              sample_buffer rand (memory self) (batch_size self) = Ok (b, memory self) ∧
              td_target (gamma self) (b_rewards b) critic_value_ (b_terminal b)
                        (batch_size self) = Ok td ∧
              length critic_value_ = batch_size self ∧
              Forall (fun q => length q = 1) critic_value_ ∧
              length (concat td) = batch_size self).
Proof.
  intros Hsh. destruct (learn_shaped rand self D F1 F2 A Hsh) as (self' & Hlearn & Hsh' & Hs).
  exists self'. split_and!; try done. intros Hfull.
  destruct (learn_inv _ _ _ _ _ Hlearn Hfull)
    as (b & ta & cv_ & cv & td & target & Hb & Hta & Hcv_ & Hcv & Htd & Hview & Hcl & Hal & _).
  split; [by rewrite Hcl|]. split; [done|].
  exists b, cv_, td. split; [done|]. split; [done|].
  pose proof Hsh as (_ & _ & Sta & _ & Stc & (_ & _ & _ & Hst_ & _) & _).
  destruct (sample_buffer_inv _ _ _ _ _ Hb) as (_ & batch & Hbatch & _ & _ & _ & Ts_ & _).
  destruct (np_random_choice_Ok _ _ _ _ Hbatch) as [Lbatch _].
  destruct (np_take_Forall _ _ _ _ Ts_ Hst_) as [Ls_ Fs_].
  destruct (actors_total (params self) (eval (target_actor self)) D F1 F2 A (b_states_ b))
    as (ta' & Hta' & Lta & Fta); [exact Sta|done|].
  rewrite Hta in Hta'. injection Hta' as <-.
  destruct (critics_total (params self) (eval (target_critic self)) D F1 F2 A
              (b_states_ b) ta) as (cv_' & Hcv_' & Lcv_ & Fcv_); [exact Stc|done|done|].
  rewrite Hcv_ in Hcv_'. injection Hcv_' as <-.
  rewrite length_zip in Lcv_. split; [lia|]. split; [done|].
  unfold view_column in Hview. by case_decide.
Qed.

Context {Env : Type}.
Variable env_reset : Env → Obs * Env.
Variable env_step : Env → vec → Obs * R * bool * Env.
Variables D F1 F2 A : nat.
Hypothesis env_reset_dim : ∀ env, length (flatten_obs (env_reset env).1) = D.
Hypothesis env_step_dim :
  ∀ env action, length action = A → length (flatten_obs (env_step env action).1.1.1) = D.

Lemma choose_action_shaped (normal : vec) self (observation : vec) :
  agent_shaped self D F1 F2 A → length observation = D → length normal = A →
  ∃ action self', choose_action normal self observation = Ok (action, self') ∧
                  length action = A ∧ agent_shaped self' D F1 F2 A.
Proof.
  intros Hsh Ho Hn. pose proof Hsh as (Hwf & Sa & _ & _ & _ & Hb & (Hmu & Hx & Hx0)).
  rewrite choose_action_unfold.
  destruct (ActorNetwork_forward_Ok _ _ _ _ _ _ _ Sa Ho) as (m & Hm & Lm).
  rewrite Hm. simpl.
  assert (length (OUActionNoise_call normal (noise self)).1 = A) as Lx.
  { rewrite <- Hmu. apply OUActionNoise_call_length; lia. }
  rewrite (T_add_Ok m) by (rewrite Lm; symmetry; exact Lx). simpl.
  eexists _, _. split; [done|].
  split.
  { rewrite length_zip_with, Lm.
    change (A `min` length (OUActionNoise_call normal (noise self)).1 = A).
    rewrite Lx. lia. }
  apply (agent_shaped_same_shapes self); try reflexivity;
    [apply same_shapes_refl|exact Hb| |exact Hsh].
  split_and!; [done|exact Lx|done].
Qed.

Lemma remember_shaped self (state action : vec) (reward : R) (new_state : vec) (done : bool) :
  agent_shaped self D F1 F2 A →
  length state = D → length action = A → length new_state = D →
  ∃ self', remember self state action reward new_state done = Ok self' ∧
           agent_shaped self' D F1 F2 A.
Proof.
  intros Hsh Hs Ha Hs'.
  pose proof Hsh as (_ & _ & _ & _ & _ & Hrows & Hno).
  pose proof Hrows as (Hpos & Hbwf & R1 & R2 & R3).
  unfold remember. rewrite (store_transition_Ok _ D A) by done. simpl.
  eexists. split; [done|].
  apply (agent_shaped_same_shapes self); try reflexivity;
    [apply same_shapes_refl| |exact Hno|exact Hsh].
  destruct Hbwf as (B1 & B2 & B3 & B4 & B5).
  unfold buffer_rows, buffer_wf. simpl. rewrite !length_insert.
  split_and!; try done; by apply Forall_insert.
Qed.

Lemma while_not_done_total (fuel : nat) (normal : nat → vec) (rand : nat → nat → nat)
    (observation : vec) (k : nat) self (env : Env) (done : bool) (score : R) :
  agent_shaped self D F1 F2 A → length observation = D → (∀ k, length (normal k) = A) →
  ∃ r, while_not_done critic_update actor_update env_step fuel normal rand observation k
                      self env done score = Ok r ∧
       match r with
       | Some (self', _, _) => agent_shaped self' D F1 F2 A
       | None => True
       end.
Proof.
  intros Hsh Ho Hn. revert k self env done score Hsh.
  induction fuel as [|fuel IH]; intros k self env done score Hsh.
  - destruct done; simpl; by eexists.
  - destruct done; simpl; [by eexists|].
    destruct (choose_action_shaped (normal k) self observation Hsh Ho (Hn k))
      as (action & self1 & Hact & La & Hsh1).
    rewrite Hact. simpl.
    pose proof (env_step_dim env action La) as Hd.
    destruct (env_step env action) as [[[new_state reward] done'] env1]. simpl in Hd.
    destruct (remember_shaped self1 observation action reward (flatten_obs new_state) done'
                Hsh1 Ho La Hd) as (self2 & Hrem & Hsh2).
    rewrite Hrem. simpl.
    destruct (learn_shaped (rand k) self2 D F1 F2 A Hsh2) as (self3 & Hlearn & Hsh3 & _).
    rewrite Hlearn. simpl. by apply IH.
Qed.

(** X13.  An episode of [run] raises no exception on an agent fit for
    its dimensions, when the environment returns observations of the
    dimension of the states for actions of the dimension of the actions,
    the draws of the noise have that dimension and the optimiser steps
    keep shapes: for every bound on the number of iterations the loop
    either is still running or has ended with an agent that is again fit
    for its dimensions, so that the next episode can start from it. *)
Theorem episode_never_raises (fuel : nat) (normal : nat → vec) (rand : nat → nat → nat)
    self (env : Env) :
  agent_shaped self D F1 F2 A → (∀ k, length (normal k) = A) →
  ∃ r, episode critic_update actor_update env_reset env_step fuel normal rand self env = Ok r ∧
       match r with
       | Some (self', _, _) => agent_shaped self' D F1 F2 A
       | None => True
       end.
Proof.
  intros Hsh Hn. unfold episode.
  pose proof (env_reset_dim env) as Hd.
  destruct (env_reset env) as [obs env0]. simpl in Hd.
  apply while_not_done_total; try done.
  pose proof Hsh as (_ & _ & _ & _ & _ & Hb & (Hmu & Hx & Hx0)).
  apply (agent_shaped_same_shapes self); try reflexivity;
    [apply same_shapes_refl|exact Hb| |exact Hsh].
  unfold noise_dim, OUActionNoise_reset. simpl. split_and!; try done.
  destruct (x0 (noise self)); [done|]. unfold np_zeros. by rewrite length_replicate.
Qed.

End LoopProperties.

(** ** The agent of a run *)

Section AgentShape.

Context {Optim : Type}.
Variable Adam : R → Optim.

Lemma Agent_fields_shaped (u : string → string → nat → R) (alpha beta tau : R)
    (A D F1 F2 bs : nat) (g : R) (N : nat) :
  0 < N → agent_shaped (Agent_fields Adam u alpha beta tau A D F1 F2 bs g N) D F1 F2 A.
Proof.
  intros HN. split; [apply Agent_fields_wf|].
  unfold ActorNetwork_shaped, CriticNetwork_shaped, has_parameter.
  split_and!;
    try (eexists; split_and!;
         [reflexivity|reflexivity|first [apply uniform_wf | apply ones_wf | apply zeros_wf]]).
  - split_and!; simpl; try (apply Forall_replicate; unfold np_zeros; by rewrite length_replicate).
    + done.
    + apply ReplayBuffer_init_wf.
  - unfold noise_dim. simpl. unfold np_zeros. by rewrite !length_replicate.
Qed.

(** X14.  [Agent.__init__] with a buffer of positive capacity returns
    an agent fit for its dimensions: the actor, the critic and their
    targets have parameters of the shapes their [forward] needs for
    states of dimension [D] and actions of dimension [A], the buffer has
    rows of these dimensions and the noise process the dimension of the
    actions. *)
Theorem Agent_init_shaped (u : string → string → nat → R) (alpha beta tau : R)
    (A D F1 F2 bs : nat) (g : R) (N : nat) :
  0 < N →
  ∃ self, Agent_init Adam u alpha beta tau A D F1 F2 bs g N = Ok self ∧
          agent_shaped self D F1 F2 A.
Proof.
  intros HN. pose proof (Agent_fields_shaped u alpha beta tau A D F1 F2 bs g N HN) as Hsh.
  unfold Agent_init.
  destruct (update_network_parameters_spec _ (Some 1%R) (proj1 Hsh)) as (h' & Hh' & _).
  destruct (update_network_parameters_shapes _ _ _ (proj1 Hsh) Hh') as [Hshapes _].
  eexists. split; [exact Hh'|].
  destruct Hsh as (? & ? & ? & ? & ? & Hb & Hno).
  eapply agent_shaped_same_shapes; [exact Hshapes|reflexivity..|exact Hb|exact Hno|].
  by split_and!.
Qed.

End AgentShape.

(** ** The further properties at concrete inputs *)

Lemma finished_Some {A} (m : result (option A)) : finished m = true → ∃ a, m = Ok (Some a).
Proof. destruct m as [[a|]|e]; [by eexists|done|done]. Qed.

Lemma demo_agent_shaped : agent_shaped demo_agent 1 1 1 1.
Proof. apply (Agent_fields_shaped demo_Adam). lia. Qed.

Lemma demo_buffer_rows : buffer_rows demo_buffer 1 1.
Proof.
  split; [simpl; lia|]. split; [exact demo_buffer_wf|].
  split_and!; by repeat constructor.
Qed.

(** The example agent with one transition in its buffer. *)
Lemma demo_agent_filled_shaped : agent_shaped (set_memory demo_agent demo_buffer) 1 1 1 1.
Proof.
  pose proof demo_agent_shaped as Hsh.
  apply (agent_shaped_same_shapes demo_agent); try reflexivity;
    [apply same_shapes_refl|exact demo_buffer_rows| |exact Hsh].
  exact (proj2 (proj2 (proj2 (proj2 (proj2 (proj2 Hsh)))))).
Qed.

Lemma demo_critic_update_shapes (o : unit) (ps : list (string * tensor))
    (state action target : list vec) :
  step_keeps_shapes ps (demo_critic_update o ps state action target).1.
Proof. intros name t H. exists t. by split_and!. Qed.

Lemma demo_actor_update_shapes (o : unit) (ps cs : list (string * tensor)) (state : list vec) :
  step_keeps_shapes ps (demo_actor_update o ps cs state).1.
Proof. intros name t H. exists t. by split_and!. Qed.

Lemma demo_env_reset_dim (env : nat) : length (flatten_obs (demo_env_reset env).1) = 1.
Proof. reflexivity. Qed.

Lemma demo_env_step_dim (env : nat) (action : vec) :
  length action = 1 → length (flatten_obs (demo_env_step env action).1.1.1) = 1.
Proof. reflexivity. Qed.

(** The episode of the example environment ends within five steps. *)
Lemma demo_episode_finishes :
  ∃ a, episode demo_critic_update demo_actor_update demo_env_reset demo_env_step 5
               (fun _ => [0%R]) (fun _ _ => 0) demo_agent 0 = Ok (Some a).
Proof. apply finished_Some. vm_compute. reflexivity. Qed.

(** Witness of X1: two rows sampled after three insertions into a
    buffer of two slots come from the last two insertions. *)
Lemma sample_returns_stored_witness :
  0 < 2 ∧ demo_transitions ≠ [] ∧ Forall (transition_fits 1 1) demo_transitions ∧
  ∃ buf b, store_all (ReplayBuffer_init 2 1 1) demo_transitions = Ok buf ∧
           sample_buffer (fun j => j) buf 2 = Ok (b, buf) ∧
           ∀ j, j < 2 → ∃ k t, demo_transitions !! k = Some t ∧ 1 ≤ k ∧
                               b_rewards b !! j = Some (t_reward t).
Proof.
  assert (0 < 2) as H by lia.
  assert (demo_transitions ≠ []) as Hne by discriminate.
  assert (Forall (transition_fits 1 1) demo_transitions) as Hfits.
  { repeat constructor. }
  split; [exact H|]. split; [exact Hne|]. split; [exact Hfits|].
  destruct (sample_returns_stored (fun j => j) 2 1 1 demo_transitions 2 H Hne Hfits)
    as (buf & b & Hbuf & Hb & Hrows).
  exists buf, b. split; [exact Hbuf|]. split; [exact Hb|].
  intros j Hj. destruct (Hrows j Hj) as (k & t & Hk & Hle & _ & _ & Hr & _).
  exists k, t. split; [exact Hk|]. split; [simpl in Hle; lia|exact Hr].
Defined.

(** Witness of X2: two calls with zero draws, from [0] towards the mean
    [1]. *)
Lemma OUActionNoise_reverts_witness :
  length (x_prev demo_noise) = length (mu demo_noise) ∧
  x_prev (OUActionNoise_calls [[0%R]; [0%R]] demo_noise) !! 0
  = Some (1 + (1 - 2 / 10 * (1 / 100)) ^ 2 * (0 - 1))%R.
Proof.
  split; [reflexivity|].
  exact (proj2 (OUActionNoise_reverts demo_noise 0 0%R 1%R eq_refl eq_refl eq_refl) 2).
Defined.

(** Witness of X4: the example agent acts on an observation. *)
Lemma choose_action_spec_witness :
  ∃ action self',
    choose_action [0%R] demo_agent [1%R] = Ok (action, self') ∧
    length action = 1 ∧ memory self' = memory demo_agent ∧
    actor self' = train (actor demo_agent).
Proof.
  pose proof demo_agent_shaped as (_ & Sa & _ & _ & _ & _ & (Hmu & Hx & _)).
  pose proof (choose_action_spec [0%R] demo_agent [1%R]) as [Hframe Htotal].
  destruct (Htotal 1 1 1 1 Sa eq_refl eq_refl Hmu Hx) as (action & self' & Hact & Hlen).
  destruct (Hframe action self' Hact) as (m & _ & _ & _ & _ & _ & Hactor & _ & Hmem & _).
  exists action, self'.
  split; [exact Hact|]. split; [exact Hlen|]. split; [exact Hmem|exact Hactor].
Defined.

(** Witness of X5: the critic of the example agent. *)
Lemma CriticNetwork_forward_scalar_witness :
  ∃ q, CriticNetwork_forward (params demo_agent) (critic demo_agent) [1%R] [0%R] = Ok [q].
Proof.
  pose proof demo_agent_shaped as (_ & _ & _ & Sc & _).
  exact (CriticNetwork_forward_scalar (params demo_agent) (critic demo_agent) 1 1 1 1
           [1%R] [0%R] Sc eq_refl eq_refl).
Defined.

(** Witness of X6: the constructor with the arguments of the example
    agent. *)
Lemma Agent_init_targets_copy_witness :
  ∃ self,
    Agent_init demo_Adam demo_draws (1 / 10000) (1 / 1000) (1 / 1000) 1 1 1 1 1 (99 / 100) 2
      = Ok self ∧
    memory self = ReplayBuffer_init 2 1 1 ∧
    ActorNetwork_forward (params self) (target_actor self) [1%R]
    = ActorNetwork_forward (params self) (actor self) [1%R].
Proof.
  destruct (Agent_init_targets_copy demo_Adam demo_draws (1 / 10000) (1 / 1000) (1 / 1000)
              1 1 1 1 1 (99 / 100) 2)
    as (self & Hinit & Hmem & _ & _ & _ & _ & Hactor & _).
  exists self. split; [exact Hinit|]. split; [exact Hmem|exact (Hactor [1%R])].
Defined.

(** Witness of X7: a run of [learn] on the example agent. *)
Lemma learn_leaves_modes_witness :
  ∃ self',
    learn demo_critic_update demo_actor_update (fun _ => 0)
          (set_memory demo_agent demo_buffer) = Ok self' ∧
    training (actor self') = true ∧ training (critic self') = false ∧
    is_Some (actor_loss self') ∧ is_Some (critic_loss self').
Proof.
  destruct demo_learn_succeeds as [self' Hself'].
  assert (¬ mem_cntr (memory (set_memory demo_agent demo_buffer))
            < batch_size (set_memory demo_agent demo_buffer)) as Hfull.
  { change (¬ 1 < 1). lia. }
  destruct (learn_leaves_modes demo_critic_update demo_actor_update (fun _ => 0) _ self'
              Hself' Hfull) as (H1 & H2 & _ & _ & H5 & H6 & _).
  exists self'. split; [exact Hself'|]. split; [exact H1|]. split; [exact H2|].
  split; [exact H5|exact H6].
Defined.

(** Witness of X8: two updates of the example agent at its own rate;
    parameter 0 is the actor's first weight, parameter 22 the target
    actor's. *)
Lemma update_n_geometric_witness :
  agent_wf demo_agent ∧
  ∃ self' s old new,
    update_n 2 demo_agent None = Ok self' ∧
    params demo_agent !! 0 = Some s ∧ params demo_agent !! 22 = Some old ∧
    params self' !! 22 = Some new ∧
    ∀ i x y, data s !! i = Some x → data old !! i = Some y →
             data new !! i = Some (x + (1 - 1 / 1000) ^ 2 * (y - x))%R.
Proof.
  split; [exact demo_agent_wf|].
  pose proof (update_n_geometric 2 demo_agent None demo_agent_wf) as H. cbv zeta in H.
  destruct H as (self' & Hup & _ & Hlaw).
  destruct (Hlaw (actor demo_agent) (target_actor demo_agent) (or_intror (conj eq_refl eq_refl))
              "fc1.weight" 0 22 _ _
              (list_elem_of_here _ _)
              (list_elem_of_here _ _) eq_refl eq_refl)
    as (new & _ & Hnew & _ & _ & Hdata).
  eexists self', _, _, new.
  split; [exact Hup|].
  split. { reflexivity. }
  split. { reflexivity. }
  split. { exact Hnew. }
  exact Hdata.
Defined.

(** Witness of X9: the example agent is saved, every parameter is set to
    zero, and [load_models] brings the values back. *)
Lemma save_load_round_trip_witness :
  agent_wf demo_agent ∧ chkpt_dir ∈ directories demo_storage ∧
  ∃ fs' h3,
    save_models demo_storage demo_agent = Done fs' ∧
    load_models fs' (set_params demo_agent (tensor_scale 0 <$> params demo_agent))
    = Done (set_params demo_agent h3) ∧
    h3 !! 0 = params demo_agent !! 0.
Proof.
  assert (chkpt_dir ∈ directories demo_storage) as Hdir.
  { change (chkpt_dir ∈ ({[chkpt_dir]} : gset string)). by apply elem_of_singleton_2. }
  split; [exact demo_agent_wf|]. split; [exact Hdir|].
  destruct (save_load_round_trip demo_storage demo_agent
              (tensor_scale 0 <$> params demo_agent) demo_agent_wf Hdir)
    as (fs' & h3 & Hsave & Hload & Hin & _).
  { intros l t _ Hl. exists (tensor_scale 0 t). split; [|reflexivity].
    unfold loc in *. rewrite list_lookup_fmap, Hl. reflexivity. }
  exists fs', h3. split; [exact Hsave|]. split; [exact Hload|].
  apply Hin. apply elem_of_app. left. apply list_elem_of_here.
Defined.

(** Witness of X11: an episode of the example environment, whose
    observations after the first are [2]. *)
Lemma episode_transitions_witness :
  ∃ agent' env' score ts,
    episode demo_critic_update demo_actor_update demo_env_reset demo_env_step 5
            (fun _ => [0%R]) (fun _ _ => 0) demo_agent 0 = Ok (Some (agent', env', score)) ∧
    ts ≠ [] ∧ store_all (memory demo_agent) ts = Ok (memory agent') ∧
    (∀ i t, ts !! i = Some t → t_state t = [1%R]) ∧
    score = sum (t_reward <$> ts).
Proof.
  destruct demo_episode_finishes as [[[agent' env'] score] H].
  destruct (episode_transitions _ _ _ _ _ _ _ _ _ _ _ _ H)
    as (ts & Hne & _ & Hstore & _ & Hts & Hscore & _).
  exists agent', env', score, ts.
  split; [exact H|]. split; [exact Hne|]. split; [exact Hstore|]. split; [|exact Hscore].
  intros i t Hi. exact (proj1 (Hts i t Hi)).
Defined.

(** Witness of X12: the example agent with one transition in its buffer
    and optimiser steps that change nothing. *)
Lemma learn_total_witness :
  agent_shaped (set_memory demo_agent demo_buffer) 1 1 1 1 ∧
  ∃ self',
    learn demo_critic_update demo_actor_update (fun _ => 0)
          (set_memory demo_agent demo_buffer) = Ok self' ∧
    agent_shaped self' 1 1 1 1 ∧ is_Some (critic_loss self').
Proof.
  split; [exact demo_agent_filled_shaped|].
  destruct (learn_total demo_critic_update demo_actor_update demo_critic_update_shapes
              demo_actor_update_shapes (fun _ => 0) _ 1 1 1 1 demo_agent_filled_shaped)
    as (self' & Hlearn & Hsh & _ & Hfull).
  exists self'. split; [exact Hlearn|]. split; [exact Hsh|].
  apply Hfull. change (¬ 1 < 1). lia.
Defined.

(** Witness of X13: the example agent in the example environment. *)
Lemma episode_never_raises_witness :
  agent_shaped demo_agent 1 1 1 1 ∧
  ∃ r, episode demo_critic_update demo_actor_update demo_env_reset demo_env_step 1
               (fun _ => [0%R]) (fun _ _ => 0) demo_agent 0 = Ok r.
Proof.
  split; [exact demo_agent_shaped|].
  destruct (episode_never_raises demo_critic_update demo_actor_update
              demo_critic_update_shapes demo_actor_update_shapes
              demo_env_reset demo_env_step 1 1 1 1 demo_env_reset_dim demo_env_step_dim
              1 (fun _ => [0%R]) (fun _ _ => 0) demo_agent 0 demo_agent_shaped
              (fun _ => eq_refl)) as (r & Hr & _).
  exists r. exact Hr.
Defined.

(** Witness of X14: the constructor with the arguments of the example
    agent. *)
Lemma Agent_init_shaped_witness :
  0 < 2 ∧
  ∃ self,
    Agent_init demo_Adam demo_draws (1 / 10000) (1 / 1000) (1 / 1000) 1 1 1 1 1 (99 / 100) 2
      = Ok self ∧
    agent_shaped self 1 1 1 1.
Proof.
  assert (0 < 2) as H by lia. split; [exact H|].
  exact (Agent_init_shaped demo_Adam demo_draws (1 / 10000) (1 / 1000) (1 / 1000)
           1 1 1 1 1 (99 / 100) 2 H).
Defined.
